(** * decogen: the retry engine and its exponential backoff policy

    A shallow embedding of [pkg/backoff/backoff.go] and of the retry
    package ([pkg/decorators/retry]: the error taxonomy, the executor
    [Do] / [DoWithValue] / [doRetry], and [WithTimeout]), followed by the
    properties of the specification that were checked against it.

    Layout: the definitions come first (module [backoff], module [retry],
    then the concrete environments in module [harness]); the lemmas and
    theorems follow. *)

From Stdlib Require Import ZArith NArith List String Bool Lia.
From Stdlib Require Import SpecFloat.
Import ListNotations.
Local Open Scope Z_scope.

(* ===================================================================== *)
(** * Part I: definitions                                                 *)
(* ===================================================================== *)

(** ** Package backoff *)

Module backoff.

(** [time.Duration] is an [int64] count of nanoseconds. *)
Definition Duration : Type := Z.

Definition int64_min : Z := - 2 ^ 63.
Definition int64_max : Z := 2 ^ 63 - 1.

Definition in_int64 (z : Z) : bool := (int64_min <=? z) && (z <=? int64_max).

(** Two's complement wrap-around of [int64] arithmetic. *)
Definition wrap64 (z : Z) : Z := (z + 2 ^ 63) mod 2 ^ 64 - 2 ^ 63.

Definition Millisecond : Duration := 1000000.
Definition Second : Duration := 1000000000.

(** [float64] is IEEE 754 binary64; the Standard Library's [spec_float]
    with [prec = 53] and [emax = 1024] gives its values and the correctly
    rounded (to nearest, ties to even) operations. *)
Definition float64 : Type := spec_float.

Definition prec : Z := 53.
Definition emax : Z := 1024.

Definition f64_mul : float64 -> float64 -> float64 := SFmul prec emax.
Definition f64_sub : float64 -> float64 -> float64 := SFsub prec emax.
Definition f64_ltb : float64 -> float64 -> bool := SFltb.
Definition f64_leb : float64 -> float64 -> bool := SFleb.

(** The constants [0.5], [1.0], [2.0], [0.1], [0.0] as binary64 values. *)
Definition f64_half : float64 := S754_finite false 4503599627370496 (-53).
Definition f64_one : float64 := S754_finite false 4503599627370496 (-52).
Definition f64_two : float64 := S754_finite false 4503599627370496 (-51).
Definition f64_tenth : float64 := S754_finite false 7205759403792794 (-56).
Definition f64_zero : float64 := S754_zero false.

(** [float64(d)] for an integer [d]: the nearest binary64. *)
Definition float64_of_int (z : Z) : float64 := binary_normalize prec emax z 0 false.

(** The integer part of a float (truncation toward zero); [None] for NaN
    and the infinities. *)
Definition f64_trunc (f : float64) : option Z :=
  match f with
  | S754_zero _ => Some 0
  | S754_finite s m e =>
      Some (cond_Zopp s (if 0 <=? e then Z.pos m * 2 ^ e else Z.pos m / 2 ^ (- e)))
  | S754_infinity _ | S754_nan => None
  end.

(** Zero or a finite number: neither NaN nor an infinity. *)
Definition f64_is_finite (f : float64) : bool :=
  match f with
  | S754_zero _ | S754_finite _ _ _ => true
  | S754_infinity _ | S754_nan => false
  end.

Section Conversion.

(** Go leaves the result of a float-to-integer conversion whose value does
    not fit the target type to the implementation.  [cvt_oor] is that
    choice; whatever it is, the result is an [int64]. *)
Variable cvt_oor : float64 -> Z.

(** [time.Duration(f)] for a [float64] [f]. *)
Definition Duration_of_float64 (f : float64) : Duration :=
  match f64_trunc f with
  | Some z => if in_int64 z then z else wrap64 (cvt_oor f)
  | None => wrap64 (cvt_oor f)
  end.

End Conversion.

(** What amd64 does for a value out of range (CVTTSD2SQ yields the
    "integer indefinite" value), and what arm64 does (FCVTZS saturates,
    NaN gives 0). *)
Definition cvt_oor_amd64 (_ : float64) : Z := int64_min.

Definition cvt_oor_arm64 (f : float64) : Z :=
  match f with
  | S754_nan | S754_zero _ => 0
  | S754_infinity s | S754_finite s _ _ => if s then int64_min else int64_max
  end.

(** [BackOff]: the four configuration fields and the private random
    source.  The mutex only serialises access to [rnd]; in a sequential
    run it has no effect and is left out. *)
Record BackOff (Rand : Type) : Type := mkBackOff {
  minDelay : Duration;
  maxDelay : Duration;
  factor : float64;
  jitter : float64;
  rnd : Rand
}.

Arguments mkBackOff {Rand} _ _ _ _ _.
Arguments minDelay {Rand} _.
Arguments maxDelay {Rand} _.
Arguments factor {Rand} _.
Arguments jitter {Rand} _.
Arguments rnd {Rand} _.

Section Policy.

(** The state of a [*rand.Rand] and its method [Float64], which returns a
    draw and advances the generator. *)
Variable Rand : Type.
Variable rand_Float64 : Rand -> float64 * Rand.
Variable cvt_oor : float64 -> Z.

(** [New]: the seed comes from the clock, so the generator is an input. *)
Definition New (minD maxD : Duration) (fac jit : float64) (source : Rand) : BackOff Rand :=
  mkBackOff minD maxD fac jit source.

Definition Default (source : Rand) : BackOff Rand :=
  New (100 * Millisecond) (10 * Second) f64_two f64_tenth source.

Definition MinDelay (b : BackOff Rand) : Duration := minDelay b.
Definition MaxDelay (b : BackOff Rand) : Duration := maxDelay b.
Definition Factor (b : BackOff Rand) : float64 := factor b.
Definition Jitter (b : BackOff Rand) : float64 := jitter b.

(** [time.Duration(float64(d) * f)] *)
Definition scale (d : Duration) (f : float64) : Duration :=
  Duration_of_float64 cvt_oor (f64_mul (float64_of_int d) f).

(** [Delay]: the next delay, and the policy with its generator advanced. *)
Definition Delay (b : BackOff Rand) (previous : Duration) : Duration * BackOff Rand :=
  (* Ensure we're starting with at least minDelay *)
  let previous := if previous <? minDelay b then minDelay b else previous in
  (* Calculate exponential backoff *)
  let delay := scale previous (factor b) in
  (* Cap at maxDelay before adding jitter *)
  let delay := if delay >? maxDelay b then maxDelay b else delay in
  (* Generate a random value in range [-jitter/2, jitter/2] *)
  let '(draw, rnd') := rand_Float64 (rnd b) in
  let jitterFactor := f64_mul (f64_sub draw f64_half) (jitter b) in
  (* Apply jitter as a percentage of current delay *)
  let jitterAmount := scale delay jitterFactor in
  let delay := wrap64 (delay + jitterAmount) in
  (* Ensure we don't go below minDelay or above maxDelay after jitter *)
  let delay :=
    if delay <? minDelay b then minDelay b
    else if delay >? maxDelay b then maxDelay b
    else delay in
  (delay, mkBackOff (minDelay b) (maxDelay b) (factor b) (jitter b) rnd').

(** [clamp x lo hi] as the specification writes it. *)
Definition clamp (x lo hi : Z) : Z := Z.max lo (Z.min x hi).

(** The product [d * f] of the specification, in exact arithmetic: a
    finite binary64 is the rational [m * 2^e], and the product with the
    integer [d] is cut toward zero to a whole number of nanoseconds, as
    a [Duration] must be.  Nothing is rounded and nothing overflows. *)
Definition spec_product (d : Duration) (f : float64) : option Z :=
  match f with
  | S754_zero _ => Some 0
  | S754_finite s m e =>
      let n := d * cond_Zopp s (Z.pos m) in
      Some (if 0 <=? e then n * 2 ^ e else Z.quot n (2 ^ (- e)))
  | S754_infinity _ | S754_nan => None
  end.

(** The specification's closed form for a policy without jitter:
    [clamp(max(previous, minDelay) * factor, minDelay, maxDelay)]. *)
Definition spec_nextDelay (b : BackOff Rand) (previous : Duration) : option Duration :=
  match spec_product (Z.max previous (minDelay b)) (factor b) with
  | Some p => Some (clamp p (minDelay b) (maxDelay b))
  | None => None
  end.

(** A draw of [rand.Float64]: a binary64 in the half-open interval [0, 1). *)
Definition is_draw (r : float64) : Prop :=
  valid_binary prec emax r = true /\ f64_leb f64_zero r = true /\ f64_ltb r f64_one = true.

End Policy.

Arguments New {Rand} _ _ _ _ _.
Arguments Default {Rand} _.
Arguments MinDelay {Rand} _.
Arguments MaxDelay {Rand} _.
Arguments Delay {Rand} _ _ _ _.
Arguments spec_nextDelay {Rand} _ _.

End backoff.

(** ** Package retry: the error taxonomy *)

Module retry.

#[local] Set Warnings "-register-all".

Definition Duration : Type := backoff.Duration.

(** Non-nil error values.  [Canceled] and [DeadlineExceeded] are the two
    sentinels of package [context], [ErrAllAttemptsFailed] the sentinel of
    this package.  [errorString] is what [errors.New] and a [fmt.Errorf]
    without [%w] build; [wrapError] and [wrapErrors] are what [fmt.Errorf]
    builds with one and with several [%w] verbs.  Values are compared by
    structure: the identity of separately allocated errors is not
    modelled. *)
Inductive error : Type :=
  | Canceled
  | DeadlineExceeded
  | ErrAllAttemptsFailed
  | errorString (s : string)
  | UnrecoverableError (cause : option error)
  | wrapError (msg : string) (err : error)
  | wrapErrors (msg : string) (errs : list error).

(** The method [Error()]. *)
Fixpoint Error (e : error) : string :=
  match e with
  | Canceled => "context canceled"
  | DeadlineExceeded => "context deadline exceeded"
  | ErrAllAttemptsFailed => "all retry attempts failed"
  | errorString s => s
  | UnrecoverableError None => "unrecoverable error"
  | UnrecoverableError (Some c) => "unrecoverable: " ++ Error c
  | wrapError msg _ => msg
  | wrapErrors msg _ => msg
  end.

(** Induction on an error and the errors it wraps. *)
Section error_induction.

Variable P : error -> Prop.
Hypothesis HCanceled : P Canceled.
Hypothesis HDeadlineExceeded : P DeadlineExceeded.
Hypothesis HErrAllAttemptsFailed : P ErrAllAttemptsFailed.
Hypothesis HerrorString : forall s, P (errorString s).
Hypothesis HUnrecoverable_nil : P (UnrecoverableError None).
Hypothesis HUnrecoverable : forall c, P c -> P (UnrecoverableError (Some c)).
Hypothesis HwrapError : forall msg e, P e -> P (wrapError msg e).
Hypothesis HwrapErrors : forall msg es, Forall P es -> P (wrapErrors msg es).

Fixpoint error_chain_ind (e : error) : P e :=
  match e with
  | Canceled => HCanceled
  | DeadlineExceeded => HDeadlineExceeded
  | ErrAllAttemptsFailed => HErrAllAttemptsFailed
  | errorString s => HerrorString s
  | UnrecoverableError None => HUnrecoverable_nil
  | UnrecoverableError (Some c) => HUnrecoverable c (error_chain_ind c)
  | wrapError msg e' => HwrapError msg e' (error_chain_ind e')
  | wrapErrors msg es =>
      HwrapErrors msg es
        ((fix all (l : list error) : Forall P l :=
            match l with
            | [] => Forall_nil P
            | x :: l' => Forall_cons x (error_chain_ind x) (all l')
            end) es)
  end.

End error_induction.

Fixpoint error_eqb (a b : error) {struct a} : bool :=
  match a, b with
  | Canceled, Canceled => true
  | DeadlineExceeded, DeadlineExceeded => true
  | ErrAllAttemptsFailed, ErrAllAttemptsFailed => true
  | errorString s, errorString t => String.eqb s t
  | UnrecoverableError c, UnrecoverableError d =>
      match c, d with
      | None, None => true
      | Some x, Some y => error_eqb x y
      | _, _ => false
      end
  | wrapError m x, wrapError n y => String.eqb m n && error_eqb x y
  | wrapErrors m xs, wrapErrors n ys =>
      String.eqb m n &&
      (fix all2 (l : list error) (r : list error) {struct l} : bool :=
         match l, r with
         | [], [] => true
         | x :: l', y :: r' => error_eqb x y && all2 l' r'
         | _, _ => false
         end) xs ys
  | _, _ => false
  end.

(** [errors.Is] on a non-nil error: the error itself, or any error reached
    by [Unwrap() error] / [Unwrap() []error], equals the target. *)
Fixpoint chain_Is (err target : error) {struct err} : bool :=
  error_eqb err target ||
  match err with
  | UnrecoverableError (Some c) => chain_Is c target
  | wrapError _ e => chain_Is e target
  | wrapErrors _ es => existsb (fun e => chain_Is e target) es
  | _ => false
  end.

(** [errors.Is(err, target)] for a possibly nil [err]. *)
Definition Is (err : option error) (target : error) : bool :=
  match err with
  | None => false
  | Some e => chain_Is e target
  end.

(** [errors.As(err, &unrecoverableErr)]: some error of the chain is an
    [*UnrecoverableError]. *)
Fixpoint chain_As_Unrecoverable (err : error) : bool :=
  match err with
  | UnrecoverableError _ => true
  | wrapError _ e => chain_As_Unrecoverable e
  | wrapErrors _ es => existsb chain_As_Unrecoverable es
  | _ => false
  end.

(** The chain of an error as the specification speaks of it: the error
    itself and every error reached from it by unwrapping, whether
    [Unwrap() error] or [Unwrap() []error], in the order in which
    package [errors] visits them. *)
Fixpoint chain (err : error) : list error :=
  err ::
  match err with
  | UnrecoverableError (Some c) => chain c
  | wrapError _ e => chain e
  | wrapErrors _ es => flat_map chain es
  | _ => []
  end.

Definition NewUnrecoverableError (err : option error) : option error :=
  match err with
  | None => None
  | Some e => Some (UnrecoverableError (Some e))
  end.

Definition IsUnrecoverableError (err : option error) : bool :=
  match err with
  | None => false
  | Some e => chain_As_Unrecoverable e
  end.

(** [fmt.Errorf("%w: %w", a, b)]: both operands are wrapped; a nil operand
    of [%w] is printed as a bad verb and is not wrapped. *)
Definition Errorf_w_w (a : error) (b : option error) : error :=
  match b with
  | Some b' => wrapErrors (Error a ++ ": " ++ Error b') [a; b']
  | None => wrapError (Error a ++ ": %!w(<nil>)") a
  end.

(** [fmt.Errorf("%w: %v", a, b)]: only [a] is wrapped, [b] is only
    printed. *)
Definition Errorf_w_v (a : error) (b : option error) : error :=
  wrapError (Error a ++ ": " ++ match b with Some b' => Error b' | None => "<nil>" end) a.

(** The error is a cancellation or deadline signal. *)
Definition is_cancellation (err : option error) : bool :=
  Is err Canceled || Is err DeadlineExceeded.

(** [defaultRecoverable()] *)
Definition defaultRecoverable (err : option error) : bool :=
  match err with None => false | Some _ => true end &&
  negb (Is err Canceled) &&
  negb (Is err DeadlineExceeded) &&
  negb (IsUnrecoverableError err).

(** The revision of [retry.go] that precedes [validateConfig] and
    [doRetry]: its default classifier does not look for
    [context.DeadlineExceeded]. *)
Definition defaultRecoverable_before_doRetry (err : option error) : bool :=
  match err with None => false | Some _ => true end &&
  negb (Is err Canceled) &&
  negb (IsUnrecoverableError err).

(** ** Package retry: configuration and the world around the executor *)

(** The [Backoff] interface.  Its methods may have effects (the policy of
    package [backoff] advances a random generator, a mock records its
    calls), so they act on the environment [E]. *)
Record Backoff (E : Type) : Type := mkBackoff {
  MinDelay : E -> Duration * E;
  Delay : Duration -> E -> Duration * E
}.

Arguments mkBackoff {E} _ _.
Arguments MinDelay {E} _ _.
Arguments Delay {E} _ _ _.

(** [Config].  [MaxAttempts] is a [uint]; a nil interface or function
    value is [None].  The field [Backoff] is written [Backoff_], the
    interface having taken the name. *)
Record Config (E : Type) : Type := mkConfig {
  MaxAttempts : N;
  Backoff_ : option (Backoff E);
  IsRecoverable : option (option error -> bool);
  OnRetry : option (N -> option error -> Duration -> E -> E)
}.

Arguments mkConfig {E} _ _ _ _.
Arguments MaxAttempts {E} _.
Arguments Backoff_ {E} _.
Arguments IsRecoverable {E} _.
Arguments OnRetry {E} _.

(** What the executor needs from the Go runtime and package [context],
    for contexts [Ctx] living in the environment [E]:
    - [ctx_Err c e] is [c.Err()] in the state [e];
    - [ctx_select c d e] is the statement
      [select { case <-c.Done(): ...; case <-time.After(d): ... }]: it
      blocks and tells which case ran, [true] for the timer;
    - [ctx_WithTimeout c d e] is [context.WithTimeout(c, d)], and
      [ctx_cancel c' e] the [CancelFunc] it returned for the child [c']. *)
Record Runtime (E Ctx : Type) : Type := mkRuntime {
  ctx_Err : Ctx -> E -> option error;
  ctx_select : Ctx -> Duration -> E -> bool * E;
  ctx_WithTimeout : Ctx -> Duration -> E -> Ctx * E;
  ctx_cancel : Ctx -> E -> E
}.

Arguments mkRuntime {E Ctx} _ _ _ _.
Arguments ctx_Err {E Ctx} _ _ _.
Arguments ctx_select {E Ctx} _ _ _ _.
Arguments ctx_WithTimeout {E Ctx} _ _ _ _.
Arguments ctx_cancel {E Ctx} _ _ _.

(** The observable steps of a run, in the order they happen.  [EvOp]
    is a call of the caller's operation, with the error it returned and
    with [ctx.Err()] as it was at the instant of the call; [EvWait] is a
    completed [select], with the case that ran and [ctx.Err()] as it was
    when the [select] returned. *)
Inductive event : Type :=
  | EvMinDelay (d : Duration)
  | EvOp (ctxErr : option error) (err : option error)
  | EvOnRetry (attempt : N) (err : option error) (delay : Duration)
  | EvWait (delay : Duration) (timer : bool) (ctxErr : option error)
  | EvDelay (previous next : Duration).

(** The state threaded through a run: the environment, the variables of
    the enclosing function that its closure captures ([lastErr],
    [result]), and the log of the steps taken so far. *)
Record world (E L : Type) : Type := mkWorld {
  env : E;
  locals : L;
  log : list event
}.

Arguments mkWorld {E L} _ _ _.
Arguments env {E L} _.
Arguments locals {E L} _.
Arguments log {E L} _.

Definition emit {E L : Type} (ev : event) (w : world E L) : world E L :=
  mkWorld (env w) (locals w) (log w ++ [ev]).

Definition with_env {E L : Type} (e : E) (w : world E L) : world E L :=
  mkWorld e (locals w) (log w).

Definition with_locals {E L L' : Type} (l : L') (w : world E L) : world E L' :=
  mkWorld (env w) l (log w).

(** How often the operation, and the [OnRetry] callback, was called. *)
Definition is_EvOp (ev : event) : bool :=
  match ev with EvOp _ _ => true | _ => false end.

Definition is_EvOnRetry (ev : event) : bool :=
  match ev with EvOnRetry _ _ _ => true | _ => false end.

Definition is_EvWait (ev : event) : bool :=
  match ev with EvWait _ _ _ => true | _ => false end.

Definition is_backoff_call (ev : event) : bool :=
  match ev with EvMinDelay _ | EvDelay _ _ => true | _ => false end.

Definition count (p : event -> bool) (evs : list event) : nat :=
  List.length (List.filter p evs).

Definition op_calls : list event -> nat := count is_EvOp.
Definition onRetry_calls : list event -> nat := count is_EvOnRetry.
Definition waits : list event -> nat := count is_EvWait.

(** [uint] arithmetic: [attempt++]. *)
Definition uint_succ (n : N) : N := ((n + 1) mod 2 ^ 64)%N.

Definition is_nil (err : option error) : bool :=
  match err with None => true | Some _ => false end.

(** [validateConfig]: the error, and the configuration as the function
    leaves it behind its pointer. *)
Definition validateConfig {E : Type} (config : Config E) : option error * Config E :=
  match Backoff_ config with
  | None => (Some (errorString "backoff strategy is required"), config)
  | Some _ =>
      let config :=
        if (MaxAttempts config =? 0)%N
        then mkConfig 1%N (Backoff_ config) (IsRecoverable config) (OnRetry config)
        else config in
      let config :=
        match IsRecoverable config with
        | None =>
            mkConfig (MaxAttempts config) (Backoff_ config) (Some defaultRecoverable)
              (OnRetry config)
        | Some _ => config
        end in
      (None, config)
  end.

(** [Default] *)
Definition Default {E : Type} (b : option (Backoff E)) : Config E :=
  mkConfig 3%N b (Some defaultRecoverable) None.

(** ** Package retry: the executor *)

Section Executor.

Context {E Ctx : Type}.
Variable rt : Runtime E Ctx.

Section Loop.

Context {L : Type}.
Variable ctx : Ctx.
Variable config : Config E.
Variable b : Backoff E.
Variable operation : N -> world E L -> (bool * option error) * world E L.

(** The [for attempt < config.MaxAttempts] loop of [doRetry].  Every
    iteration that loops back has incremented [attempt], so the loop runs
    its body at most [MaxAttempts - attempt] times; [fuel] is that bound.
    The result is [None] when the body panics, which calling a nil
    [IsRecoverable] does. *)
Fixpoint doRetry_loop (fuel : nat) (attempt : N) (delay : Duration) (w : world E L)
  : option (option error * world E L) :=
  match fuel with
  | O => Some (Some ErrAllAttemptsFailed, w)
  | S fuel' =>
      if negb (attempt <? MaxAttempts config)%N then
        (* We've exhausted all attempts *)
        Some (Some ErrAllAttemptsFailed, w)
      else
        (* Check context before the attempt *)
        match ctx_Err rt ctx (env w) with
        | Some ctxErr => Some (Some ctxErr, w)
        | None =>
            (* Execute the operation *)
            let '((success, err), w) := operation attempt w in
            if success then Some (None, w)
            (* Check if context is canceled or deadline exceeded *)
            else if Is err Canceled || Is err DeadlineExceeded
                    || negb (is_nil (ctx_Err rt ctx (env w)))
            then Some (err, w)
            else
              (* Check if error is recoverable *)
              match IsRecoverable config with
              | None => None
              | Some isRecoverable =>
                  if negb (isRecoverable err) then Some (err, w)
                  else
                    (* Increment attempt counter *)
                    let attempt := uint_succ attempt in
                    (* Last attempt, don't delay *)
                    if (MaxAttempts config <=? attempt)%N then
                      Some (Some ErrAllAttemptsFailed, w)
                    else
                      (* Call the OnRetry callback if provided *)
                      let w :=
                        match OnRetry config with
                        | Some onRetry =>
                            emit (EvOnRetry attempt err delay)
                              (with_env (onRetry attempt err delay (env w)) w)
                        | None => w
                        end in
                      (* Calculate next delay and wait *)
                      let '(timer, e) := ctx_select rt ctx delay (env w) in
                      let w := emit (EvWait delay timer (ctx_Err rt ctx e)) (with_env e w) in
                      if timer then
                        let '(next, e) := Delay b delay (env w) in
                        let w := emit (EvDelay delay next) (with_env e w) in
                        doRetry_loop fuel' attempt next w
                      else Some (ctx_Err rt ctx (env w), w)
              end
        end
  end.

End Loop.

(** [doRetry]: [None] when it panics, which it does at once on a nil
    [config.Backoff]. *)
Definition doRetry {L : Type} (ctx : Ctx) (config : Config E)
    (operation : N -> world E L -> (bool * option error) * world E L) (w : world E L)
  : option (option error * world E L) :=
  match Backoff_ config with
  | None => None
  | Some b =>
      let '(delay, e) := MinDelay b (env w) in
      let w := emit (EvMinDelay delay) (with_env e w) in
      doRetry_loop ctx config b operation (N.to_nat (MaxAttempts config)) 0%N delay w
  end.

(** The closure that [Do] hands to [doRetry]; it captures [lastErr]. *)
Definition Do_operation (ctx : Ctx) (op : E -> option error * E)
    (attempt : N) (w : world E (option error))
  : (bool * option error) * world E (option error) :=
  let '(err, e) := op (env w) in
  let w' := emit (EvOp (ctx_Err rt ctx (env w)) err) (with_env e w) in
  match err with
  | None => ((true, None), w')
  | Some _ => ((false, err), with_locals err w')
  end.

(** [Do] *)
Definition Do (ctx : Ctx) (config : Config E) (op : E -> option error * E)
    (w : world E unit) : option (option error * world E unit) :=
  (* Validate and prepare configuration *)
  match validateConfig config with
  | (Some err, _) => Some (Some err, w)
  | (None, config) =>
      (* Run the retry loop *)
      match doRetry ctx config (Do_operation ctx op) (with_locals (@None error) w) with
      | None => None
      | Some (err, w') =>
          let lastErr := locals w' in
          (* check if all attempts failed *)
          match err with
          | Some _ =>
              if Is err ErrAllAttemptsFailed
              then Some (Some (Errorf_w_w ErrAllAttemptsFailed lastErr), with_locals tt w')
              else Some (err, with_locals tt w')
          | None => Some (None, with_locals tt w')
          end
      end
  end.

Section WithValue.

Context {T : Type}.
Variable zero : T.

(** The closure of [DoWithValue]; it captures [result] and [lastErr]. *)
Definition DoWithValue_operation (ctx : Ctx) (op : E -> (T * option error) * E)
    (attempt : N) (w : world E (T * option error))
  : (bool * option error) * world E (T * option error) :=
  let '((r, err), e) := op (env w) in
  let w' :=
    with_locals (r, snd (locals w)) (emit (EvOp (ctx_Err rt ctx (env w)) err) (with_env e w)) in
  match err with
  | None => ((true, None), w')
  | Some _ => ((false, err), with_locals (r, err) w')
  end.

(** [DoWithValue] *)
Definition DoWithValue (ctx : Ctx) (config : Config E) (op : E -> (T * option error) * E)
    (w : world E unit) : option ((T * option error) * world E unit) :=
  (* Validate and prepare configuration *)
  match validateConfig config with
  | (Some err, _) => Some ((zero, Some err), w)
  | (None, config) =>
      (* Run the retry loop *)
      match doRetry ctx config (DoWithValue_operation ctx op)
              (with_locals (zero, @None error) w) with
      | None => None
      | Some (err, w') =>
          let '(result, lastErr) := locals w' in
          (* If we have an actual error from the retry mechanism, return it *)
          match err with
          | Some _ =>
              if Is err ErrAllAttemptsFailed
              then Some ((zero, Some (Errorf_w_v ErrAllAttemptsFailed lastErr)),
                         with_locals tt w')
              else Some ((zero, err), with_locals tt w')
          (* Otherwise return the successful result *)
          | None => Some ((result, None), with_locals tt w')
          end
      end
  end.

(** The operation that [WithTimeout] hands to [DoWithValue]: a child
    context with the timeout for this attempt, cancelled when the attempt
    returns. *)
Definition wrappedOp (ctx : Ctx) (timeout : Duration) (op : Ctx -> E -> (T * option error) * E)
    (e : E) : (T * option error) * E :=
  let '(timeoutCtx, e) := ctx_WithTimeout rt ctx timeout e in
  let '(r, e) := op timeoutCtx e in
  (r, ctx_cancel rt timeoutCtx e).

(** [WithTimeout] *)
Definition WithTimeout (ctx : Ctx) (config : Config E) (timeout : Duration)
    (op : Ctx -> E -> (T * option error) * E) (w : world E unit)
  : option ((T * option error) * world E unit) :=
  if (timeout <=? 0)%Z then
    Some ((zero, Some (errorString "timeout must be greater than zero")), w)
  else DoWithValue ctx config (wrappedOp ctx timeout op) w.

End WithValue.

End Executor.

End retry.

(** ** Runs of the executor, as the specification describes them *)

Module scenario.

Import retry.

Section Scenario.

Context {E Ctx : Type}.
Variable rt : Runtime E Ctx.
Variable ctx : Ctx.
Variable config : Config E.

(** The predicate a run consults: the configured one, or the default. *)
Definition classifier : option error -> bool :=
  match IsRecoverable config with
  | Some isRecoverable => isRecoverable
  | None => defaultRecoverable
  end.

(** The effect of the [OnRetry] callback, if there is one. *)
Definition notify (attempt : N) (err : option error) (delay : Duration) (e : E) : E :=
  match OnRetry config with
  | Some onRetry => onRetry attempt err delay e
  | None => e
  end.

Variable b : Backoff E.
Variable op : E -> option error * E.

(** In the state [e] the context is live and the operation succeeds. *)
Definition succeeds (e e' : E) : Prop :=
  ctx_Err rt ctx e = None /\ op e = (None, e').

(** In the state [e] the context is live, the operation fails with [err],
    which is no cancellation signal and which the classifier finds
    recoverable, and the context is still live afterwards. *)
Definition fails_recoverably (e : E) (err : error) (e' : E) : Prop :=
  ctx_Err rt ctx e = None /\
  op e = (Some err, e') /\
  is_cancellation (Some err) = false /\
  ctx_Err rt ctx e' = None /\
  classifier (Some err) = true.

(** A full retry cycle from the state [e] with the delay [delay]: the
    attempt fails recoverably, the callback is told that attempt number
    [attempt] comes next, the wait of [delay] elapses, and the policy
    gives the delay [next]. *)
Definition retried (attempt : N) (delay : Duration) (e : E) (err : error)
    (next : Duration) (e' : E) : Prop :=
  exists e1 e2,
    fails_recoverably e err e1 /\
    ctx_select rt ctx delay (notify attempt (Some err) delay e1) = (true, e2) /\
    Delay b delay e2 = (next, e').

End Scenario.

(** The configuration that [validateConfig] leaves behind when a backoff
    policy is present. *)
Definition validated {E : Type} (config : Config E) : Config E :=
  mkConfig (if (MaxAttempts config =? 0)%N then 1%N else MaxAttempts config)
    (Backoff_ config) (Some (classifier config)) (OnRetry config).

(** The trace of a full retry cycle; [ctxErr] is what [ctx.Err()] was when
    the wait ended. *)
Definition cycle_trace {E : Type} (config : Config E) (attempt : N) (err : error)
    (delay : Duration) (ctxErr : option error) (next : Duration) : list event :=
  EvOp None (Some err) ::
  match OnRetry config with
  | Some _ => [EvOnRetry attempt (Some err) delay]
  | None => []
  end ++ [EvWait delay true ctxErr; EvDelay delay next].

(** What a call of the operation in the state [e] does to the variables
    that the closures of [Do] and of [DoWithValue] capture. *)
Definition Do_update {E : Type} (op : E -> option error * E)
    (lastErr : option error) (e : E) : option error :=
  match fst (op e) with
  | Some err => Some err
  | None => lastErr
  end.

Definition DoWithValue_update {E T : Type} (op : E -> (T * option error) * E)
    (captured : T * option error) (e : E) : T * option error :=
  let '(r, err) := fst (op e) in
  match err with
  | Some _ => (r, err)
  | None => (r, snd captured)
  end.

(** An operation with a value, seen as an operation without. *)
Definition erase {E T : Type} (op : E -> (T * option error) * E) (e : E) : option error * E :=
  let '((_, err), e') := op e in (err, e').

(** The operation was called while the context was live. *)
Definition called_live (ev : event) : Prop :=
  match ev with
  | EvOp ctxErr _ => ctxErr = None
  | _ => True
  end.

(** A wait at the end of which the context was cancelled. *)
Definition cancelled_wait (ev : event) : bool :=
  match ev with
  | EvWait _ _ (Some _) => true
  | _ => false
  end.

(** The operation is not called after the first such wait. *)
Fixpoint quiet_after_cancelled_wait (tr : list event) : Prop :=
  match tr with
  | [] => True
  | ev :: post =>
      if cancelled_wait ev then op_calls post = 0%nat
      else quiet_after_cancelled_wait post
  end.

(** [r] is the error of a cancelled context. *)
Definition context_error (r : option error) : Prop :=
  r = Some Canceled \/ r = Some DeadlineExceeded.

(** What the loop of [doRetry] guarantees about the steps [tr] it
    takes before it returns [r]. *)
Definition well_behaved (r : option error) (tr : list event) : Prop :=
  Forall called_live tr /\
  quiet_after_cancelled_wait tr /\
  (existsb cancelled_wait tr = true -> context_error r).

(** What cancellation demands of a run that ended with the error [r]
    and the trace [tr]: every call of the operation was made with the
    context live, and if at the end of some wait the context was
    cancelled, the operation was not called after that wait and [r] is a
    cancellation signal, not the exhaustion sentinel. *)
Definition respects_cancellation (r : option error) (tr : list event) : Prop :=
  Forall called_live tr /\
  forall pre delay timer ctxErr post,
    tr = pre ++ EvWait delay timer (Some ctxErr) :: post ->
    op_calls post = 0%nat /\ is_cancellation r = true /\ Is r ErrAllAttemptsFailed = false.

(** The contract of [context.Context]: [Err] returns nil, [Canceled] or
    [DeadlineExceeded]. *)
Definition ctx_contract {E Ctx : Type} (rt : Runtime E Ctx) (ctx : Ctx) : Prop :=
  forall e err, ctx_Err rt ctx e = Some err -> err = Canceled \/ err = DeadlineExceeded.

(** A cancelled context stays cancelled while the backoff policy
    computes the next delay. *)
Definition ctx_sticky {E Ctx : Type} (rt : Runtime E Ctx) (ctx : Ctx) (config : Config E) : Prop :=
  forall b delay e, Backoff_ config = Some b ->
    ctx_Err rt ctx e <> None -> ctx_Err rt ctx (snd (Delay b delay e)) <> None.

End scenario.

(** ** Concrete environments

    A small runtime in the manner of [retry_test.go]: a clock, a root
    context that can be cancelled, child contexts with deadlines, a
    counter of the calls of the operation, and the mock backoff of the
    tests (10ms, then 20ms). *)

Module harness.

Import retry.

Record Env : Type := mkEnv {
  calls : nat;
  clock : Z;
  cancelled : bool;
  children : list (Z * bool)
}.

(** Context [0] is the root; context [S i] is the [i]-th child. *)
Definition Ctx : Type := nat.

Definition start : Env := mkEnv 0 0 false [].
Definition start_cancelled : Env := mkEnv 0 0 true [].

Definition Err (c : Ctx) (e : Env) : option error :=
  if cancelled e then Some Canceled
  else
    match c with
    | O => None
    | S i =>
        match nth_error (children e) i with
        | Some (deadline, done) =>
            if done then Some Canceled
            else if deadline <=? clock e then Some DeadlineExceeded
            else None
        | None => None
        end
    end.

Definition select (c : Ctx) (d : Duration) (e : Env) : bool * Env :=
  match Err c e with
  | Some _ => (false, e)
  | None => (true, mkEnv (calls e) (clock e + d) (cancelled e) (children e))
  end.

Definition WithTimeout_ctx (c : Ctx) (d : Duration) (e : Env) : Ctx * Env :=
  (S (List.length (children e)),
   mkEnv (calls e) (clock e) (cancelled e) (children e ++ [(clock e + d, false)])).

Fixpoint mark_done (i : nat) (l : list (Z * bool)) : list (Z * bool) :=
  match l, i with
  | [], _ => []
  | (d, _) :: l', O => (d, true) :: l'
  | x :: l', S i' => x :: mark_done i' l'
  end.

Definition cancel_ctx (c : Ctx) (e : Env) : Env :=
  match c with
  | O => mkEnv (calls e) (clock e) true (children e)
  | S i => mkEnv (calls e) (clock e) (cancelled e) (mark_done i (children e))
  end.

Definition runtime : Runtime Env Ctx := mkRuntime Err select WithTimeout_ctx cancel_ctx.

Definition mockBackoff : Backoff Env :=
  mkBackoff (fun e => (10 * backoff.Millisecond, e))
            (fun _ e => (20 * backoff.Millisecond, e)).

Definition called (e : Env) : Env :=
  mkEnv (S (calls e)) (clock e) (cancelled e) (children e).

(** [attempts++; if attempts < n { return errors.New("temporary error") };
    return nil] *)
Definition flaky (n : nat) (e : Env) : option error * Env :=
  let e := called e in
  if (calls e <? n)%nat then (Some (errorString "temporary error"), e) else (None, e).

Definition flaky_value (n : nat) (e : Env) : (string * option error) * Env :=
  let e := called e in
  if (calls e <? n)%nat then ((""%string, Some (errorString "temporary error")), e)
  else (("eventual success"%string, None), e).

(** [attempts++; return err] *)
Definition failing (err : option error) (e : Env) : option error * Env :=
  (err, called e).

Definition failing_value (err : option error) (e : Env) : (string * option error) * Env :=
  ((""%string, err), called e).

Definition persistent : option error := Some (errorString "persistent error").

Definition critical : option error :=
  NewUnrecoverableError (Some (errorString "critical error")).

(** An unrecoverable error around the outcome of an inner, exhausted
    retry. *)
Definition critical_exhausted : option error :=
  NewUnrecoverableError (Some (Errorf_w_w ErrAllAttemptsFailed persistent)).

(** An operation that takes the context of its attempt and answers with
    that context's error, if it has one. *)
Definition ctx_aware (c : Ctx) (e : Env) : (string * option error) * Env :=
  match Err c e with
  | Some err => ((""%string, Some err), called e)
  | None => (("success"%string, None), called e)
  end.

Definition observe : N -> option error -> Duration -> Env -> Env :=
  fun _ _ _ e => e.

(** The callback of the cancellation test: the context is cancelled
    right after the first failure. *)
Definition cancel_on_first_retry : N -> option error -> Duration -> Env -> Env :=
  fun attempt _ _ e => if (attempt =? 1)%N then cancel_ctx O e else e.

Definition config (n : N) : Config Env :=
  mkConfig n (Some mockBackoff) None (Some observe).

Definition fresh (e : Env) : world Env unit := mkWorld e tt [].

(** A generator that always draws [r], and a policy on it. *)
Definition constant_source (r : backoff.float64) : nat -> backoff.float64 * nat :=
  fun n => (r, S n).

End harness.

(** ** Package retry: the helpers around the executor *)

Module helpers.

Import retry.

(** [errors.Unwrap]: what the method [Unwrap() error] returns, nil for an
    error without it ([wrapErrors] has [Unwrap() []error] only). *)
Definition Unwrap (e : error) : option error :=
  match e with
  | UnrecoverableError cause => cause
  | wrapError _ inner => Some inner
  | _ => None
  end.

Section Helpers.

Context {E : Type}.

(** The line that [WithLogging] prints,
    [fmt.Sprintf("Retry attempt %d after error: %v (waiting %v)", ...)]. *)
Variable Sprintf_retry : N -> option error -> Duration -> string.

(** [WithLogging]; a [*log.Logger] is its method [Printf], which writes
    into the environment. *)
Definition WithLogging (config : Config E) (logger : option (string -> E -> E)) : Config E :=
  let originalOnRetry := OnRetry config in
  mkConfig (MaxAttempts config) (Backoff_ config) (IsRecoverable config)
    (Some (fun attempt err delay e =>
             let e :=
               match logger with
               | Some printf => printf (Sprintf_retry attempt err delay) e
               | None => e
               end in
             match originalOnRetry with
             | Some onRetry => onRetry attempt err delay e
             | None => e
             end)).

(** Which errors have a dynamic type with the method [Temporary() bool],
    and what the method returns. *)
Variable Temporary : error -> option bool.

(** [IsTemporary]: a type assertion on the error itself, not on its
    chain. *)
Definition IsTemporary (err : option error) : bool :=
  match err with
  | Some e =>
      match Temporary e with
      | Some temp => temp
      | None => false
      end
  | None => false
  end.

(** [WithTemporaryErrorHandling] *)
Definition WithTemporaryErrorHandling (config : Config E) : Config E :=
  let originalIsRecoverable := IsRecoverable config in
  mkConfig (MaxAttempts config) (Backoff_ config)
    (Some (fun err =>
             (* Check if it's a temporary error *)
             if IsTemporary err then true
             else
               (* Fall back to the original check if provided *)
               match originalIsRecoverable with
               | Some isRecoverable => isRecoverable err
               | None =>
                   (* Default behavior *)
                   negb (is_nil err) && negb (IsUnrecoverableError err)
               end))
    (OnRetry config).

End Helpers.

End helpers.

(** ** A policy of package backoff behind the interface of package retry *)

Module policy.

Section Policy.

Context {E Rand : Type}.
Variable rand_Float64 : Rand -> backoff.float64 * Rand.
Variable cvt_oor : backoff.float64 -> Z.

(** A [*backoff.BackOff] used as a [retry.Backoff].  Its four
    configuration fields never change; its generator lives in the
    environment, where [get] reads it and [set] writes it. *)
Definition as_Backoff (minD maxD : backoff.Duration) (fac jit : backoff.float64)
    (get : E -> Rand) (set : Rand -> E -> E) : retry.Backoff E :=
  retry.mkBackoff
    (fun e => (backoff.MinDelay (backoff.mkBackOff minD maxD fac jit (get e)), e))
    (fun previous e =>
       let '(delay, b') :=
         backoff.Delay rand_Float64 cvt_oor (backoff.mkBackOff minD maxD fac jit (get e))
           previous in
       (delay, set (backoff.rnd b') e)).

End Policy.

End policy.

(** ** More concrete environments *)

Module scenes.

Import retry.

(** An operation that takes [d] of time and then answers with the error
    of the context of its attempt, if that context is done by then. *)
Definition slow (d : Duration) (c : harness.Ctx) (e : harness.Env)
  : (string * option error) * harness.Env :=
  let e := harness.mkEnv (S (harness.calls e)) (harness.clock e + d) (harness.cancelled e)
             (harness.children e) in
  match harness.Err c e with
  | Some err => ((""%string, Some err), e)
  | None => (("done"%string, None), e)
  end.

(** An operation that takes [d] of time at each call, answers with the
    error of the context of its attempt if that context is done by
    then, and otherwise fails until its [n]-th call. *)
Definition sluggish (d : Duration) (n : nat) (c : harness.Ctx) (e : harness.Env)
  : (string * option error) * harness.Env :=
  let e := harness.mkEnv (S (harness.calls e)) (harness.clock e + d) (harness.cancelled e)
             (harness.children e) in
  match harness.Err c e with
  | Some err => ((""%string, Some err), e)
  | None =>
      if (harness.calls e <? n)%nat
      then ((""%string, Some (errorString "temporary error")), e)
      else (("done"%string, None), e)
  end.

(** [context.Background()] with timers that always fire, over an
    environment that holds nothing but the state of a random
    generator. *)
Definition background : Runtime nat unit :=
  mkRuntime (fun _ _ => None) (fun _ _ e => (true, e)) (fun c _ e => (c, e)) (fun _ e => e).

(** The policy of [TestDelay_EdgeCases] (100ms, 1s, factor 2, no
    jitter) on a generator that always draws one half, as the
    [retry.Backoff] of a configuration. *)
Definition doubling : Backoff nat :=
  policy.as_Backoff (harness.constant_source backoff.f64_half) backoff.cvt_oor_amd64
    (100 * backoff.Millisecond) backoff.Second backoff.f64_two backoff.f64_zero
    (fun e => e) (fun r _ => r).

(** An operation that always fails with the same error. *)
Definition broken (e : nat) : option error * nat :=
  (Some (errorString "persistent error"), e).

End scenes.

(** ** The shape of a run *)

Module runs.

Import retry scenario.

(** The delays of the waits, the delays handed to [OnRetry], the attempt
    numbers handed to [OnRetry], and the delays the policy returned, in
    the order of the trace. *)
Fixpoint wait_delays (tr : list event) : list Duration :=
  match tr with
  | [] => []
  | EvWait delay _ _ :: tr' => delay :: wait_delays tr'
  | _ :: tr' => wait_delays tr'
  end.

Fixpoint onRetry_delays (tr : list event) : list Duration :=
  match tr with
  | [] => []
  | EvOnRetry _ _ delay :: tr' => delay :: onRetry_delays tr'
  | _ :: tr' => onRetry_delays tr'
  end.

Fixpoint onRetry_attempts (tr : list event) : list N :=
  match tr with
  | [] => []
  | EvOnRetry attempt _ _ :: tr' => attempt :: onRetry_attempts tr'
  | _ :: tr' => onRetry_attempts tr'
  end.

Fixpoint policy_delays (tr : list event) : list Duration :=
  match tr with
  | [] => []
  | EvMinDelay d :: tr' => d :: policy_delays tr'
  | EvDelay _ next :: tr' => next :: policy_delays tr'
  | _ :: tr' => policy_delays tr'
  end.

(** The errors of the calls of the operation, and the last of them that
    is not nil. *)
Fixpoint op_errors (tr : list event) : list (option error) :=
  match tr with
  | [] => []
  | EvOp _ err :: tr' => err :: op_errors tr'
  | _ :: tr' => op_errors tr'
  end.

Fixpoint last_failure (tr : list event) (before : option error) : option error :=
  match tr with
  | [] => before
  | EvOp _ (Some err) :: tr' => last_failure tr' (Some err)
  | _ :: tr' => last_failure tr' before
  end.

(** The errors handed to [OnRetry]. *)
Fixpoint onRetry_errors (tr : list event) : list (option error) :=
  match tr with
  | [] => []
  | EvOnRetry _ err _ :: tr' => err :: onRetry_errors tr'
  | _ :: tr' => onRetry_errors tr'
  end.

(** The delays of the waits that elapsed, and the delays handed to
    [Backoff.Delay] as the previous delay. *)
Fixpoint elapsed_waits (tr : list event) : list Duration :=
  match tr with
  | [] => []
  | EvWait delay true _ :: tr' => delay :: elapsed_waits tr'
  | _ :: tr' => elapsed_waits tr'
  end.

Fixpoint delay_inputs (tr : list event) : list Duration :=
  match tr with
  | [] => []
  | EvDelay previous _ :: tr' => previous :: delay_inputs tr'
  | _ :: tr' => delay_inputs tr'
  end.

(** The attempt numbers [first], [first + 1], ..., [n] of them. *)
Fixpoint attempts_from (first : N) (n : nat) : list N :=
  match n with
  | O => []
  | S n' => first :: attempts_from (first + 1)%N n'
  end.

(** The trace without the calls of [OnRetry]. *)
Definition without_onRetry (tr : list event) : list event :=
  List.filter (fun ev => negb (is_EvOnRetry ev)) tr.

(** The delays [d], [f d], [f (f d)], ..., [n] of them. *)
Fixpoint schedule (f : Duration -> Duration) (d : Duration) (n : nat) : list Duration :=
  match n with
  | O => []
  | S n' => d :: schedule f (f d) n'
  end.

(** There is no callback. *)
Definition is_nil_callback {E : Type} (config : Config E) : bool :=
  match OnRetry config with Some _ => false | None => true end.

(** A trace as an observer sees it who may, or may not, see the calls
    of [OnRetry]. *)
Definition view (with_onRetry : bool) (tr : list event) : list event :=
  if with_onRetry then tr else without_onRetry tr.

Section Runs.

Context {E Ctx : Type}.
Variable rt : Runtime E Ctx.
Variable ctx : Ctx.
Variable config : Config E.
Variable b : Backoff E.

(** The call of [OnRetry] in the trace, when there is a callback. *)
Definition announce (attempt : N) (err : error) (delay : Duration) : list event :=
  match OnRetry config with
  | Some _ => [EvOnRetry attempt (Some err) delay]
  | None => []
  end.

(** The error [err] of a failed call is retried: it is no cancellation
    signal and the classifier accepts it (and the context was live when
    the call returned). *)
Definition retriable (err : error) : Prop :=
  is_cancellation (Some err) = false /\ classifier config (Some err) = true.

(** The runs of the loop of [doRetry] from the attempt counter [attempt]
    and the delay [delay]: the steps taken and the error returned.  One
    rule for each way out of the loop, and one for the way around. *)
Inductive loop_run : N -> Duration -> list event -> option error -> Prop :=
  | lr_budget_spent attempt delay :
      (MaxAttempts config <= attempt)%N ->
      loop_run attempt delay [] (Some ErrAllAttemptsFailed)
  | lr_entry_cancelled attempt delay ctxErr :
      (attempt < MaxAttempts config)%N ->
      (exists e, ctx_Err rt ctx e = Some ctxErr) ->
      loop_run attempt delay [] (Some ctxErr)
  | lr_success attempt delay :
      (attempt < MaxAttempts config)%N ->
      loop_run attempt delay [EvOp None None] None
  | lr_gave_up attempt delay err :
      (attempt < MaxAttempts config)%N ->
      is_cancellation (Some err) = true \/
      (exists e, ctx_Err rt ctx e <> None) \/
      classifier config (Some err) = false ->
      loop_run attempt delay [EvOp None (Some err)] (Some err)
  | lr_exhausted attempt delay err :
      (attempt < MaxAttempts config)%N ->
      (MaxAttempts config <= attempt + 1)%N ->
      retriable err ->
      loop_run attempt delay [EvOp None (Some err)] (Some ErrAllAttemptsFailed)
  | lr_interrupted attempt delay err ctxErr :
      (attempt + 1 < MaxAttempts config)%N ->
      retriable err ->
      (exists e e', ctx_select rt ctx delay e = (false, e') /\ ctx_Err rt ctx e' = ctxErr) ->
      loop_run attempt delay
        (EvOp None (Some err) :: announce (attempt + 1) err delay
           ++ [EvWait delay false ctxErr])
        ctxErr
  | lr_retry attempt delay err ctxErr next tr r :
      (attempt + 1 < MaxAttempts config)%N ->
      retriable err ->
      (exists e, fst (Delay b delay e) = next) ->
      loop_run (attempt + 1) next tr r ->
      loop_run attempt delay
        (EvOp None (Some err) :: announce (attempt + 1) err delay
           ++ [EvWait delay true ctxErr; EvDelay delay next] ++ tr)
        r.

End Runs.

(** The states in which the loop of [doRetry], entered by a run from the
    environment [e], begins an iteration: the first one after
    [MinDelay], with the attempt counter at 0, and one more after every
    full retry cycle that leaves the incremented counter below
    [MaxAttempts].  [k] counts the cycles before the iteration, and
    [attempt], [delay] and the environment are the loop variables at its
    beginning. *)
Inductive iteration {E Ctx : Type} (rt : Runtime E Ctx) (ctx : Ctx) (config : Config E)
    (b : Backoff E) (op : E -> option error * E) (e : E)
  : nat -> N -> Duration -> E -> Prop :=
| iteration_first (d0 : Duration) (e1 : E) :
    MinDelay b e = (d0, e1) ->
    iteration rt ctx config b op e 0%nat 0%N d0 e1
| iteration_next (k : nat) (attempt : N) (delay : Duration) (e0 : E) (err : error)
    (next : Duration) (e' : E) :
    iteration rt ctx config b op e k attempt delay e0 ->
    (attempt <? MaxAttempts config)%N = true ->
    (MaxAttempts config <=? uint_succ attempt)%N = false ->
    retried rt ctx config b op (uint_succ attempt) delay e0 err next e' ->
    iteration rt ctx config b op e (S k) (uint_succ attempt) next e'.

(** The contract of [Context.Done]: when the [select] of the loop takes
    the case [<-ctx.Done()], [ctx.Err()] is not nil. *)
Definition ctx_done_contract {E Ctx : Type} (rt : Runtime E Ctx) (ctx : Ctx) : Prop :=
  forall delay e e', ctx_select rt ctx delay e = (false, e') -> ctx_Err rt ctx e' <> None.

(** The runs of [Do] and of [DoWithValue] from the environment [e]: the
    error returned and the steps taken.  Without a policy the run stops
    at validation; with one, [MinDelay] is asked, the loop runs on the
    validated configuration, and an outcome that matches the sentinel is
    wrapped again around the last failure ([wrap] is the [fmt.Errorf] of
    the entry point). *)
Definition executor_run {E Ctx : Type} (rt : Runtime E Ctx) (ctx : Ctx) (config : Config E)
    (wrap : error -> option error -> error) (e : E) (r : option error) (tr : list event)
  : Prop :=
  match Backoff_ config with
  | None => r = Some (errorString "backoff strategy is required") /\ tr = []
  | Some b =>
      exists tr' r0,
        tr = EvMinDelay (fst (MinDelay b e)) :: tr' /\
        loop_run rt ctx (validated config) b 0 (fst (MinDelay b e)) tr' r0 /\
        r = if Is r0 ErrAllAttemptsFailed
            then Some (wrap ErrAllAttemptsFailed (last_failure tr' None))
            else r0
  end.

(** [P] holds of the error returned and of the steps taken, in every
    run of [Do] and in every run of [DoWithValue] (which return). *)
Definition every_run {E Ctx T : Type} (rt : Runtime E Ctx) (zero : T) (ctx : Ctx)
    (config : Config E) (P : option error -> list event -> Prop) : Prop :=
  (forall (op : E -> option error * E) (e : E),
     exists r w',
       Do rt ctx config op (mkWorld e tt []) = Some (r, w') /\ P r (log w')) /\
  (forall (opv : E -> (T * option error) * E) (e : E),
     exists v r w',
       DoWithValue rt zero ctx config opv (mkWorld e tt []) = Some ((v, r), w') /\
       P r (log w')).

(** The attempt budget: [MaxAttempts], or one attempt when it is zero. *)
Definition budget {E : Type} (config : Config E) : nat :=
  N.to_nat (N.max 1 (MaxAttempts config)).

(** The steps [tr] stay within the budget: at most [budget] calls of the
    operation, fewer waits than that, no wait without a call before it,
    one call of [OnRetry] for each wait when there is a callback, and at
    most one call of the policy more than there are waits. *)
Definition within_budget {E : Type} (config : Config E) (tr : list event) : Prop :=
  (op_calls tr <= budget config)%nat /\
  (waits tr < budget config)%nat /\
  (waits tr <= op_calls tr)%nat /\
  onRetry_calls tr = (if is_nil_callback config then 0%nat else waits tr) /\
  (count is_backoff_call tr <= S (waits tr))%nat.

End runs.

(** ** The earlier revision of [retry.go]

    [errors.go] also holds the revision of the executor that precedes
    [validateConfig] and [doRetry]: [Do] and [DoWithValue] each validate
    the configuration and run the loop themselves. *)

Module earlier.

Import retry.

Section Executor.

Context {E Ctx : Type}.
Variable rt : Runtime E Ctx.

Section Loop.

Variable ctx : Ctx.
Variable config : Config E.
Variable b : Backoff E.

(** The loop of the earlier [Do], with its variables [attempt], [delay]
    and [lastErr]; leaving the loop, by its condition or by [break],
    leads to the [return] after it. *)
Fixpoint Do_loop (op : E -> option error * E) (fuel : nat) (attempt : N) (delay : Duration)
    (lastErr : option error) (w : world E unit) : option (option error * world E unit) :=
  match fuel with
  | O => Some (Some (Errorf_w_v ErrAllAttemptsFailed lastErr), w)
  | S fuel' =>
      if negb (attempt <? MaxAttempts config)%N then
        Some (Some (Errorf_w_v ErrAllAttemptsFailed lastErr), w)
      else
        (* Check context before the attempt *)
        match ctx_Err rt ctx (env w) with
        | Some ctxErr => Some (Some ctxErr, w)
        | None =>
            (* Execute the operation *)
            let '(err, e) := op (env w) in
            let w := emit (EvOp (ctx_Err rt ctx (env w)) err) (with_env e w) in
            match err with
            | None => Some (None, w)
            | Some _ =>
                let lastErr := err in
                (* Check if context is canceled *)
                if Is err Canceled || negb (is_nil (ctx_Err rt ctx (env w)))
                then Some (err, w)
                else
                  (* Check if error is recoverable *)
                  match IsRecoverable config with
                  | None => None
                  | Some isRecoverable =>
                      if negb (isRecoverable err) then Some (err, w)
                      else
                        (* Increment attempt counter *)
                        let attempt := uint_succ attempt in
                        (* Last attempt, don't delay *)
                        if (MaxAttempts config <=? attempt)%N then
                          Some (Some (Errorf_w_v ErrAllAttemptsFailed lastErr), w)
                        else
                          (* Call the OnRetry callback if provided *)
                          let w :=
                            match OnRetry config with
                            | Some onRetry =>
                                emit (EvOnRetry attempt err delay)
                                  (with_env (onRetry attempt err delay (env w)) w)
                            | None => w
                            end in
                          (* Calculate next delay and wait *)
                          let '(timer, e) := ctx_select rt ctx delay (env w) in
                          let w := emit (EvWait delay timer (ctx_Err rt ctx e)) (with_env e w) in
                          if timer then
                            let '(next, e) := Delay b delay (env w) in
                            let w := emit (EvDelay delay next) (with_env e w) in
                            Do_loop op fuel' attempt next lastErr w
                          else Some (ctx_Err rt ctx (env w), w)
                  end
            end
        end
  end.

Section WithValue.

Context {T : Type}.
Variable zero : T.

(** The loop of the earlier [DoWithValue]. *)
Fixpoint DoWithValue_loop (op : E -> (T * option error) * E) (fuel : nat) (attempt : N)
    (delay : Duration) (lastErr : option error) (w : world E unit)
  : option ((T * option error) * world E unit) :=
  match fuel with
  | O => Some ((zero, Some (Errorf_w_v ErrAllAttemptsFailed lastErr)), w)
  | S fuel' =>
      if negb (attempt <? MaxAttempts config)%N then
        Some ((zero, Some (Errorf_w_v ErrAllAttemptsFailed lastErr)), w)
      else
        (* Check context before the attempt *)
        match ctx_Err rt ctx (env w) with
        | Some ctxErr => Some ((zero, Some ctxErr), w)
        | None =>
            (* Execute the operation *)
            let '((result, err), e) := op (env w) in
            let w := emit (EvOp (ctx_Err rt ctx (env w)) err) (with_env e w) in
            match err with
            | None => Some ((result, None), w)
            | Some _ =>
                let lastErr := err in
                (* Check if context is canceled *)
                if Is err Canceled || negb (is_nil (ctx_Err rt ctx (env w)))
                then Some ((zero, err), w)
                else
                  (* Check if error is recoverable *)
                  match IsRecoverable config with
                  | None => None
                  | Some isRecoverable =>
                      if negb (isRecoverable err) then Some ((zero, err), w)
                      else
                        (* Increment attempt counter *)
                        let attempt := uint_succ attempt in
                        (* Last attempt, don't delay *)
                        if (MaxAttempts config <=? attempt)%N then
                          Some ((zero, Some (Errorf_w_v ErrAllAttemptsFailed lastErr)), w)
                        else
                          (* Call the OnRetry callback if provided *)
                          let w :=
                            match OnRetry config with
                            | Some onRetry =>
                                emit (EvOnRetry attempt err delay)
                                  (with_env (onRetry attempt err delay (env w)) w)
                            | None => w
                            end in
                          (* Calculate next delay and wait *)
                          let '(timer, e) := ctx_select rt ctx delay (env w) in
                          let w := emit (EvWait delay timer (ctx_Err rt ctx e)) (with_env e w) in
                          if timer then
                            let '(next, e) := Delay b delay (env w) in
                            let w := emit (EvDelay delay next) (with_env e w) in
                            DoWithValue_loop op fuel' attempt next lastErr w
                          else Some ((zero, ctx_Err rt ctx (env w)), w)
                  end
            end
        end
  end.

End WithValue.

End Loop.

(** The configuration after the validation that the earlier [Do] and
    [DoWithValue] carry out on their copy of it. *)
Definition prepared (config : Config E) : Config E :=
  let config :=
    if (MaxAttempts config =? 0)%N
    then mkConfig 1%N (Backoff_ config) (IsRecoverable config) (OnRetry config)
         (* At least one attempt *)
    else config in
  match IsRecoverable config with
  | None =>
      mkConfig (MaxAttempts config) (Backoff_ config) (Some defaultRecoverable_before_doRetry)
        (OnRetry config)
  | Some _ => config
  end.

(** The earlier [Do] *)
Definition Do (ctx : Ctx) (config : Config E) (op : E -> option error * E)
    (w : world E unit) : option (option error * world E unit) :=
  (* Validate configuration *)
  match Backoff_ config with
  | None => Some (Some (errorString "backoff strategy is required"), w)
  | Some b =>
      let config := prepared config in
      let '(delay, e) := MinDelay b (env w) in
      let w := emit (EvMinDelay delay) (with_env e w) in
      Do_loop ctx config b op (N.to_nat (MaxAttempts config)) 0%N delay None w
  end.

(** The earlier [DoWithValue] *)
Definition DoWithValue {T : Type} (zero : T) (ctx : Ctx) (config : Config E)
    (op : E -> (T * option error) * E) (w : world E unit)
  : option ((T * option error) * world E unit) :=
  (* Validate configuration *)
  match Backoff_ config with
  | None => Some ((zero, Some (errorString "backoff strategy is required")), w)
  | Some b =>
      let config := prepared config in
      let '(delay, e) := MinDelay b (env w) in
      let w := emit (EvMinDelay delay) (with_env e w) in
      DoWithValue_loop ctx config b zero op (N.to_nat (MaxAttempts config)) 0%N delay None w
  end.

End Executor.

End earlier.

(** ** The earlier revision of the backoff policy

    The sources also hold the revision of package [backoff] that
    precedes [New]: its jitter is a fraction of a second, drawn from the
    global generator of [math/rand], and the delay is only kept from
    falling below the floor afterwards. *)

Module earlier_backoff.

Import backoff.

Record BackOff : Type := mkBackOff {
  minDelay : Duration;
  maxDelay : Duration;
  factor : float64;
  jitter : float64
}.

Definition NewBackOff (minD maxD : Duration) (fac jit : float64) : BackOff :=
  mkBackOff minD maxD fac jit.

Definition DefaultBackOff : BackOff :=
  NewBackOff (100 * Millisecond) (10 * Second) f64_two f64_tenth.

Definition MinDelay (b : BackOff) : Duration := minDelay b.

Section Policy.

Context {Rand : Type}.
Variable rand_Float64 : Rand -> float64 * Rand.
Variable cvt_oor : float64 -> Z.

(** [Delay]: the next delay, and the global generator after the draw. *)
Definition Delay (b : BackOff) (previous : Duration) (source : Rand) : Duration * Rand :=
  (* Ensure we're starting with at least minDelay *)
  let previous := if previous <? minDelay b then minDelay b else previous in
  (* Calculate exponential backoff *)
  let delay := scale cvt_oor previous (factor b) in
  (* Cap at maxDelay *)
  let delay := if delay >? maxDelay b then maxDelay b else delay in
  (* Add jitter (random variation to avoid thundering herd) *)
  let jitterRange := Duration_of_float64 cvt_oor (f64_mul (jitter b) (float64_of_int Second)) in
  let '(draw, source') := rand_Float64 source in
  let jitterAmount :=
    Duration_of_float64 cvt_oor
      (f64_sub (f64_mul draw (float64_of_int jitterRange))
         (float64_of_int (Z.quot jitterRange 2))) in
  let delay := wrap64 (delay + jitterAmount) in
  (* Ensure we don't go below minDelay due to negative jitter *)
  let delay := if delay <? minDelay b then minDelay b else delay in
  (delay, source').

End Policy.

End earlier_backoff.

(* ===================================================================== *)
(** * Part II: lemmas and theorems                                        *)
(* ===================================================================== *)

(** ** Binary64: digits, shifts and rounding

    The facts about [spec_float] that the backoff policy needs: the
    conversion of an [int64] and the difference of a draw and [0.5] are
    finite, and a finite number times zero is zero. *)

Module binary64_facts.

Import backoff.

(** ** Binary digits and shifts *)

Lemma digits2_pos_size (p : positive) : digits2_pos p = Pos.size p.
Proof. induction p; simpl; congruence. Qed.

Lemma digits2_pos_gt (p : positive) : Z.pos p < 2 ^ Z.pos (digits2_pos p).
Proof.
  rewrite digits2_pos_size.
  pose proof (Pos.size_gt p) as H.
  rewrite <- Pos2Z.inj_pow. lia.
Qed.

Lemma digits2_pos_le (p : positive) (k : Z) :
  Z.pos p < 2 ^ k -> Z.pos (digits2_pos p) <= k.
Proof.
  intros H. rewrite digits2_pos_size.
  destruct (Z.le_gt_cases (Z.pos (Pos.size p)) k) as [|Hgt]; [assumption|exfalso].
  assert (0 <= k) by (destruct k; try lia; simpl in H; lia).
  pose proof (Pos.size_le p) as Hle.
  assert (2 ^ (k + 1) <= 2 ^ Z.pos (Pos.size p)) by (apply Z.pow_le_mono_r; lia).
  rewrite Z.pow_add_r in * by lia.
  assert (2 ^ Z.pos (Pos.size p) <= 2 * Z.pos p).
  { rewrite <- Pos2Z.inj_pow. change (2 * Z.pos p) with (Z.pos p~0). lia. }
  lia.
Qed.

Lemma Zdigits2_le (m k : Z) : 0 <= m < 2 ^ k -> 0 <= k -> Zdigits2 m <= k.
Proof.
  intros [H0 H1] Hk. destruct m as [|p|p]; simpl; try lia.
  apply digits2_pos_le; assumption.
Qed.

Lemma pos_iter_xO (m d : positive) : Z.pos (Pos.iter xO m d) = Z.pos m * 2 ^ Z.pos d.
Proof.
  induction d as [|d IH] using Pos.peano_ind.
  - simpl. lia.
  - rewrite Pos.iter_succ, Pos2Z.inj_xO, IH, Pos2Z.inj_succ, Z.pow_succ_r by lia. lia.
Qed.

Lemma digits2_pos_iter_xO (m d : positive) :
  Z.pos (digits2_pos (Pos.iter xO m d)) = Z.pos (digits2_pos m) + Z.pos d.
Proof.
  induction d as [|d IH] using Pos.peano_ind.
  - simpl. lia.
  - rewrite Pos.iter_succ. simpl digits2_pos. lia.
Qed.

Lemma shr_1_m (mrs : shr_record) : 0 <= shr_m mrs -> shr_m (shr_1 mrs) = shr_m mrs / 2.
Proof.
  destruct mrs as [m r s]. simpl. intros Hm.
  destruct m as [|[p|p|]|p]; cbn [shr_m shr_1]; try reflexivity; try lia.
  - apply Z.div_unique with 1; lia.
  - apply Z.div_unique with 0; lia.
Qed.

Lemma pow2_double (p : positive) : 2 ^ Z.pos p~0 = 2 ^ Z.pos p * 2 ^ Z.pos p.
Proof. rewrite Pos2Z.inj_xO, <- Z.pow_add_r by lia. f_equal. lia. Qed.

Lemma pow2_double_succ (p : positive) : 2 ^ Z.pos p~1 = 2 * (2 ^ Z.pos p * 2 ^ Z.pos p).
Proof.
  rewrite Pos2Z.inj_xI, <- Z.pow_add_r, <- Z.pow_succ_r by lia. f_equal. lia.
Qed.

Lemma pow2_pos (k : Z) : 0 <= k -> 0 < 2 ^ k.
Proof. intros. apply Z.pow_pos_nonneg; lia. Qed.

Lemma iter_pos_shr_1_m (p : positive) :
  forall mrs, 0 <= shr_m mrs -> shr_m (iter_pos shr_1 p mrs) = shr_m mrs / 2 ^ Z.pos p.
Proof.
  induction p as [p IH|p IH|]; intros mrs Hm; simpl iter_pos.
  - assert (H1 : 0 <= shr_m (shr_1 mrs)) by (rewrite shr_1_m by lia; apply Z.div_pos; lia).
    assert (H2 : 0 <= shr_m (iter_pos shr_1 p (shr_1 mrs))).
    { rewrite IH by lia. apply Z.div_pos; [lia|apply pow2_pos; lia]. }
    rewrite IH, IH, shr_1_m by assumption.
    pose proof (pow2_pos (Z.pos p) ltac:(lia)).
    rewrite !Z.div_div by lia.
    rewrite pow2_double_succ. reflexivity.
  - assert (H2 : 0 <= shr_m (iter_pos shr_1 p mrs)).
    { rewrite IH by lia. apply Z.div_pos; [lia|apply pow2_pos; lia]. }
    rewrite IH, IH by assumption.
    pose proof (pow2_pos (Z.pos p) ltac:(lia)).
    rewrite Z.div_div by lia.
    rewrite pow2_double. reflexivity.
  - rewrite shr_1_m by assumption. reflexivity.
Qed.

Lemma fexp_eq (t : Z) : fexp prec emax t = Z.max (t - 53) (-1074).
Proof. reflexivity. Qed.

Lemma shr_record_of_loc_m (m : Z) (l : location) : shr_m (shr_record_of_loc m l) = m.
Proof. destruct l as [|[]]; reflexivity. Qed.

Lemma shr_fexp_spec (m e : Z) (l : location) :
  0 <= m ->
  let n := Z.max 0 (fexp prec emax (Zdigits2 m + e) - e) in
  shr_m (fst (shr_fexp prec emax m e l)) = m / 2 ^ n /\
  snd (shr_fexp prec emax m e l) = e + n.
Proof.
  intros Hm n. unfold shr_fexp, shr. subst n.
  destruct (fexp prec emax (Zdigits2 m + e) - e) as [|p|p] eqn:E; cbn [fst snd].
  - rewrite shr_record_of_loc_m. change (Z.max 0 0) with 0.
    rewrite Z.pow_0_r, Z.div_1_r. lia.
  - rewrite iter_pos_shr_1_m by (rewrite shr_record_of_loc_m; assumption).
    rewrite shr_record_of_loc_m.
    replace (Z.max 0 (Z.pos p)) with (Z.pos p) by lia. split; reflexivity.
  - rewrite shr_record_of_loc_m.
    replace (Z.max 0 (Z.neg p)) with 0 by lia.
    rewrite Z.pow_0_r, Z.div_1_r. lia.
Qed.

Lemma round_nearest_even_bounds (m : Z) (l : location) :
  m <= round_nearest_even m l <= m + 1.
Proof. destruct l as [|[]]; simpl; try destruct (Z.even m); lia. Qed.

Lemma binary_round_aux_finite (s : bool) (mx : positive) (ex : Z) :
  ex <= fexp prec emax (Z.pos (digits2_pos mx) + ex) ->
  Z.pos (digits2_pos mx) + ex <= 1023 ->
  f64_is_finite (binary_round_aux prec emax s (Z.pos mx) ex loc_Exact) = true.
Proof.
  intros Hex Ht. unfold binary_round_aux.
  pose proof (shr_fexp_spec (Z.pos mx) ex loc_Exact ltac:(lia)) as [Hm1 He1].
  destruct (shr_fexp prec emax (Z.pos mx) ex loc_Exact) as [mrs' e'].
  cbn [fst snd] in Hm1, He1.
  set (m1 := round_nearest_even (shr_m mrs') (loc_of_shr_record mrs')).
  pose proof (round_nearest_even_bounds (shr_m mrs') (loc_of_shr_record mrs')) as Hr.
  fold m1 in Hr.
  change (Zdigits2 (Z.pos mx)) with (Z.pos (digits2_pos mx)) in *.
  set (t := Z.pos (digits2_pos mx) + ex) in *.
  rewrite fexp_eq in *.
  set (n := Z.max 0 (Z.max (t - 53) (-1074) - ex)) in *.
  assert (Hn : 0 <= n) by lia.
  assert (Hlo : 0 <= shr_m mrs').
  { rewrite Hm1. apply Z.div_pos; [lia|apply pow2_pos; lia]. }
  assert (Hhi : shr_m mrs' < 2 ^ 53).
  { rewrite Hm1. apply Z.div_lt_upper_bound; [apply pow2_pos; lia|].
    rewrite <- Z.pow_add_r by lia.
    eapply Z.lt_le_trans; [apply digits2_pos_gt|].
    apply Z.pow_le_mono_r; lia. }
  assert (Hd : Zdigits2 m1 <= 54).
  { apply Zdigits2_le; [|lia]. change (2 ^ 54) with (2 * 2 ^ 53). lia. }
  assert (Hd0 : 0 <= Zdigits2 m1) by (destruct m1; simpl; lia).
  pose proof (shr_fexp_spec m1 e' loc_Exact ltac:(lia)) as [Hm2 He2].
  destruct (shr_fexp prec emax m1 e' loc_Exact) as [mrs'' e''].
  cbn [fst snd] in Hm2, He2.
  rewrite fexp_eq in *.
  assert (Hlo2 : 0 <= shr_m mrs'').
  { rewrite Hm2. apply Z.div_pos; [lia|apply pow2_pos; lia]. }
  destruct (shr_m mrs'') as [|p|p]; [reflexivity| |lia].
  replace (e'' <=? emax - prec) with true; [reflexivity|].
  symmetry. apply Z.leb_le. change (emax - prec) with 971. lia.
Qed.

Lemma binary_round_finite (s : bool) (m : positive) (e : Z) :
  Z.pos (digits2_pos m) + e <= 1023 ->
  f64_is_finite (binary_round prec emax s m e) = true.
Proof.
  intros Ht. unfold binary_round, shl_align.
  destruct (fexp prec emax (Z.pos (digits2_pos m) + e) - e) as [|d|d] eqn:E.
  - apply binary_round_aux_finite; lia.
  - apply binary_round_aux_finite; lia.
  - apply binary_round_aux_finite; rewrite digits2_pos_iter_xO.
    + replace (Z.pos (digits2_pos m) + Z.pos d + fexp prec emax (Z.pos (digits2_pos m) + e))
        with (Z.pos (digits2_pos m) + e) by lia.
      lia.
    + lia.
Qed.

Lemma binary_normalize_finite (m e : Z) (sz : bool) :
  Z.abs m < 2 ^ (1023 - e) ->
  f64_is_finite (binary_normalize prec emax m e sz) = true.
Proof.
  intros H. destruct m as [|p|p]; [reflexivity| |]; simpl;
    apply binary_round_finite;
    (assert (Z.pos (digits2_pos p) <= 1023 - e) by (apply digits2_pos_le; exact H); lia).
Qed.

Lemma float64_of_int_finite (z : Z) :
  in_int64 z = true -> f64_is_finite (float64_of_int z) = true.
Proof.
  unfold in_int64, int64_min, int64_max. intros H.
  apply andb_true_iff in H. destruct H as [H1 H2].
  apply Z.leb_le in H1, H2.
  apply binary_normalize_finite.
  assert (2 ^ 64 <= 2 ^ (1023 - 0)) by (apply Z.pow_le_mono_r; lia).
  lia.
Qed.

Lemma shl_align_fst (m : positive) (e ez : Z) :
  ez <= e -> Z.pos (fst (shl_align m e ez)) = Z.pos m * 2 ^ (e - ez).
Proof.
  intros H. unfold shl_align.
  destruct (ez - e) as [|d|d] eqn:E; cbn [fst].
  - replace (e - ez) with 0 by lia. lia.
  - lia.
  - rewrite pos_iter_xO. f_equal. f_equal. lia.
Qed.

Lemma draw_shape (r : float64) :
  is_draw r ->
  (exists s, r = S754_zero s) \/
  (exists m e, r = S754_finite false m e /\ Z.pos m < 2 ^ (- e) /\ e <= -52).
Proof.
  intros (Hv & Hge & Hlt).
  destruct r as [s|s| |s m e].
  { left; eauto. }
  { destruct s; discriminate. }
  { discriminate. }
  right. destruct s; [discriminate|].
  exists m, e. split; [reflexivity|].
  unfold f64_ltb, SFltb, f64_one in Hlt. cbn [SFcompare] in Hlt.
  cbn [valid_binary] in Hv. unfold bounded, canonical_mantissa in Hv.
  apply andb_true_iff in Hv. destruct Hv as [Hc _].
  apply Z.eqb_eq in Hc. rewrite fexp_eq in Hc.
  pose proof (digits2_pos_gt m) as Hg.
  destruct (Z.compare_spec e (-52)) as [He|He|He]; try discriminate.
  - subst e. split; [|lia].
    change (2 ^ (- -52)) with (Z.pos 4503599627370496).
    generalize dependent 4503599627370496%positive. intros q Hlt.
    destruct (Pos.compare_cont Eq m q) eqn:Ec; try discriminate.
    apply Pos2Z.pos_lt_pos. exact Ec.
  - split; [|lia].
    eapply Z.lt_le_trans; [exact Hg|]. apply Z.pow_le_mono_r; lia.
Qed.

Lemma draw_minus_half_finite (r : float64) :
  is_draw r -> f64_is_finite (f64_sub r f64_half) = true.
Proof.
  intros Hr. destruct (draw_shape r Hr) as [[s ->]|(m & e & -> & Hm & He)].
  - reflexivity.
  - unfold f64_sub, f64_half. cbn [SFsub cond_Zopp].
    set (ez := Z.min e (-53)).
    apply binary_normalize_finite.
    rewrite !shl_align_fst by lia.
    assert (H1 : Z.pos m * 2 ^ (e - ez) < 2 ^ (- ez)).
    { replace (- ez) with (- e + (e - ez)) by lia.
      rewrite Z.pow_add_r by lia.
      apply Z.mul_lt_mono_pos_r; [apply pow2_pos; lia|assumption]. }
    assert (H2 : 4503599627370496 * 2 ^ (-53 - ez) < 2 ^ (- ez)).
    { replace (- ez) with (53 + (-53 - ez)) by lia.
      rewrite Z.pow_add_r by lia.
      apply Z.mul_lt_mono_pos_r; [apply pow2_pos; lia|reflexivity]. }
    assert (H3 : 2 ^ (- ez) <= 2 ^ (1023 - ez)) by (apply Z.pow_le_mono_r; lia).
    assert (0 < 2 ^ (e - ez)) by (apply pow2_pos; lia).
    assert (0 < 2 ^ (-53 - ez)) by (apply pow2_pos; lia).
    lia.
Qed.

Lemma f64_mul_zero_r (x y : float64) :
  f64_is_finite x = true -> SFeqb y f64_zero = true ->
  exists s, f64_mul x y = S754_zero s.
Proof.
  intros Hx Hy.
  destruct y as [sy|sy| |sy my ey];
    [|destruct sy; discriminate|discriminate|destruct sy; discriminate].
  destruct x as [sx|sx| |sx mx ex]; try discriminate; eexists; reflexivity.
Qed.


End binary64_facts.


(** ** The backoff policy *)

Module backoff_facts.

Import backoff binary64_facts.

Lemma wrap64_in_int64 (z : Z) : in_int64 (wrap64 z) = true.
Proof.
  unfold in_int64, wrap64, int64_min, int64_max.
  pose proof (Z.mod_pos_bound (z + 2 ^ 63) (2 ^ 64) ltac:(lia)).
  apply andb_true_iff. split; apply Z.leb_le; lia.
Qed.

Lemma wrap64_id (z : Z) : in_int64 z = true -> wrap64 z = z.
Proof.
  unfold in_int64, wrap64, int64_min, int64_max. intros H.
  apply andb_true_iff in H. destruct H as [H1 H2]. apply Z.leb_le in H1, H2.
  rewrite Z.mod_small by lia. lia.
Qed.

Section Policy.

Variable Rand : Type.
Variable rand_Float64 : Rand -> float64 * Rand.
Variable cvt_oor : float64 -> Z.

Lemma Duration_of_float64_in_int64 (f : float64) :
  in_int64 (Duration_of_float64 cvt_oor f) = true.
Proof.
  unfold Duration_of_float64.
  destruct (f64_trunc f) as [z|]; [destruct (in_int64 z) eqn:E|];
    auto using wrap64_in_int64.
Qed.

(** A value that fits an [int64] is converted by truncation, whatever the
    platform does elsewhere. *)
Lemma Duration_of_float64_in_range (f : float64) (z : Z) :
  f64_trunc f = Some z -> in_int64 z = true -> Duration_of_float64 cvt_oor f = z.
Proof. intros H1 H2. unfold Duration_of_float64. rewrite H1, H2. reflexivity. Qed.

Lemma scale_zero (d : Duration) (y : float64) :
  in_int64 d = true -> SFeqb y f64_zero = true -> scale cvt_oor d y = 0.
Proof.
  intros Hd Hy. unfold scale.
  destruct (f64_mul_zero_r (float64_of_int d) y) as [s ->]; auto using float64_of_int_finite.
Qed.

(** With a zero jitter the jitter amount is zero, for every draw. *)
Lemma jitterAmount_zero (delay : Duration) (draw jit : float64) :
  in_int64 delay = true -> is_draw draw -> SFeqb jit f64_zero = true ->
  scale cvt_oor delay (f64_mul (f64_sub draw f64_half) jit) = 0.
Proof.
  intros Hd Hdraw Hj.
  destruct (f64_mul_zero_r (f64_sub draw f64_half) jit) as [s Hs];
    auto using draw_minus_half_finite.
  rewrite Hs. apply scale_zero; [assumption|destruct s; reflexivity].
Qed.

Lemma Delay_nojitter_eq (b : BackOff Rand) (previous : Duration) :
  SFeqb (jitter b) f64_zero = true ->
  minDelay b <= maxDelay b ->
  in_int64 (maxDelay b) = true ->
  is_draw (fst (rand_Float64 (rnd b))) ->
  fst (Delay rand_Float64 cvt_oor b previous)
  = clamp (scale cvt_oor (Z.max previous (minDelay b)) (factor b)) (minDelay b) (maxDelay b).
Proof.
  intros Hj Hle Hmax Hdraw. unfold Delay, clamp.
  destruct (rand_Float64 (rnd b)) as [draw rnd']. cbn [fst] in *.
  replace (if previous <? minDelay b then minDelay b else previous)
    with (Z.max previous (minDelay b))
    by (destruct (Z.ltb_spec previous (minDelay b)); lia).
  set (raw := scale cvt_oor (Z.max previous (minDelay b)) (factor b)).
  assert (Hraw : in_int64 raw = true) by apply Duration_of_float64_in_int64.
  set (capped := if raw >? maxDelay b then maxDelay b else raw).
  assert (Hcap : capped = Z.min raw (maxDelay b)).
  { subst capped. rewrite Z.gtb_ltb. destruct (Z.ltb_spec (maxDelay b) raw); lia. }
  assert (Hci : in_int64 capped = true)
    by (subst capped; destruct (raw >? maxDelay b); assumption).
  rewrite jitterAmount_zero by assumption.
  rewrite Z.add_0_r, wrap64_id by assumption.
  rewrite Hcap, Z.gtb_ltb.
  destruct (Z.ltb_spec (Z.min raw (maxDelay b)) (minDelay b));
    destruct (Z.ltb_spec (maxDelay b) (Z.min raw (maxDelay b))); lia.
Qed.

(** C1.  Whatever the factor, the jitter, the previous delay (negative
    ones included), the random draw and the platform's conversion of
    out-of-range floats, the delay that [Delay] returns lies between
    [minDelay] and [maxDelay], as soon as [minDelay <= maxDelay]. *)
Theorem Delay_within_bounds (b : BackOff Rand) (previous : Duration) :
  minDelay b <= maxDelay b ->
  minDelay b <= fst (Delay rand_Float64 cvt_oor b previous) <= maxDelay b.
Proof.
  intros H. unfold Delay.
  destruct (rand_Float64 (rnd b)) as [draw rnd']. cbn [fst].
  match goal with |- _ <= (if ?x <? _ then _ else _) <= _ => set (d := x) end.
  destruct (Z.ltb_spec d (minDelay b)); [lia|].
  rewrite Z.gtb_ltb.
  destruct (Z.ltb_spec (maxDelay b) d); lia.
Qed.

(** Without jitter the draw does not matter. *)
Lemma Delay_nojitter_deterministic (b : BackOff Rand) (previous : Duration) (source : Rand) :
  SFeqb (jitter b) f64_zero = true ->
  minDelay b <= maxDelay b ->
  in_int64 (maxDelay b) = true ->
  (forall s, is_draw (fst (rand_Float64 s))) ->
  fst (Delay rand_Float64 cvt_oor
         (mkBackOff (minDelay b) (maxDelay b) (factor b) (jitter b) source) previous)
  = fst (Delay rand_Float64 cvt_oor b previous).
Proof.
  intros Hj Hle Hmax Hdraw. rewrite !Delay_nojitter_eq by (cbn; auto). reflexivity.
Qed.

(** Where the binary64 product fits an [int64], the delay without
    jitter is that product, truncated and clamped, on every platform. *)
Lemma Delay_nojitter_in_range (b : BackOff Rand) (previous p : Duration) :
  SFeqb (jitter b) f64_zero = true ->
  minDelay b <= maxDelay b ->
  in_int64 (maxDelay b) = true ->
  is_draw (fst (rand_Float64 (rnd b))) ->
  f64_trunc (f64_mul (float64_of_int (Z.max previous (minDelay b))) (factor b)) = Some p ->
  in_int64 p = true ->
  fst (Delay rand_Float64 cvt_oor b previous) = clamp p (minDelay b) (maxDelay b).
Proof.
  intros Hj Hle Hmax Hdraw Hp Hin. rewrite Delay_nojitter_eq by assumption.
  unfold scale. rewrite (Duration_of_float64_in_range _ _ Hp Hin). reflexivity.
Qed.

End Policy.

(** The policy of [TestDelay_EdgeCases] (100ms, 1s, factor 2, no
    jitter), on a generator that always draws 0.5. *)
Lemma Delay_within_bounds_witness :
  let b := New (100 * Millisecond) Second f64_two f64_zero 0%nat in
  minDelay b <= maxDelay b /\
  minDelay b
  <= fst (Delay (harness.constant_source f64_half) cvt_oor_amd64 b (- 100 * Millisecond))
  <= maxDelay b.
Proof.
  intros b.
  assert (H : minDelay b <= maxDelay b) by (vm_compute; discriminate).
  split; [exact H|].
  exact (Delay_within_bounds nat (harness.constant_source f64_half) cvt_oor_amd64 b
           (- 100 * Millisecond) H).
Defined.

(** A product that does not fit an [int64]: factor [2^100] on 100ms.
    What [Delay] returns then depends on what the platform makes of the
    conversion: the floor where it yields the minimal integer, the
    ceiling where it saturates.  Both stay within the bounds. *)
Lemma Delay_out_of_range_by_platform :
  let b := New (100 * Millisecond) Second (S754_finite false 4503599627370496 48) f64_zero
             0%nat in
  fst (Delay (harness.constant_source f64_half) cvt_oor_amd64 b (100 * Millisecond))
  = 100 * Millisecond /\
  fst (Delay (harness.constant_source f64_half) cvt_oor_arm64 b (100 * Millisecond))
  = Second.
Proof. split; reflexivity. Qed.

(** C4.  The closed form fails where the product overflows.  The
    policy from 100ms to 10s with the factor [2^30] and no jitter, asked
    for the delay after 10s: the product [10s * 2^30] is more than an
    [int64] holds, the specification's
    [clamp(max(previous, minDelay) * factor, minDelay, maxDelay)] is
    [maxDelay], and [Delay] on amd64, where the conversion of the
    product yields the least [int64], returns [minDelay], for every
    generator.  (Where the conversion saturates, as on arm64, it returns
    [maxDelay].)  The cap at [maxDelay] that the code applies to the
    product comes after the conversion. *)
Theorem Delay_without_jitter_overflow :
  let two_pow_30 := S754_finite false 4503599627370496 (-22) in
  forall (Rand : Type) (rand_Float64 : Rand -> float64 * Rand) (source : Rand),
    let b := New (100 * Millisecond) (10 * Second) two_pow_30 f64_zero source in
    is_draw (fst (rand_Float64 source)) ->
    minDelay b <= maxDelay b /\
    f64_leb f64_zero (factor b) = true /\
    SFeqb (jitter b) f64_zero = true /\
    spec_product (10 * Second) two_pow_30 = Some (10 * Second * 2 ^ 30) /\
    spec_nextDelay b (10 * Second) = Some (10 * Second) /\
    fst (Delay rand_Float64 cvt_oor_amd64 b (10 * Second)) = 100 * Millisecond /\
    fst (Delay rand_Float64 cvt_oor_arm64 b (10 * Second)) = 10 * Second.
Proof.
  intros two_pow_30 Rand rand_Float64 source b Hdraw.
  assert (Hle : minDelay b <= maxDelay b) by (vm_compute; discriminate).
  split; [exact Hle|]. split; [reflexivity|]. split; [reflexivity|].
  split; [vm_compute; reflexivity|]. split; [vm_compute; reflexivity|].
  split.
  - rewrite (Delay_nojitter_eq Rand rand_Float64 cvt_oor_amd64 b (10 * Second) eq_refl Hle
               eq_refl Hdraw).
    vm_compute. reflexivity.
  - rewrite (Delay_nojitter_eq Rand rand_Float64 cvt_oor_arm64 b (10 * Second) eq_refl Hle
               eq_refl Hdraw).
    vm_compute. reflexivity.
Qed.

Lemma Delay_without_jitter_overflow_witness :
  let two_pow_30 := S754_finite false 4503599627370496 (-22) in
  let b := New (100 * Millisecond) (10 * Second) two_pow_30 f64_zero 0%nat in
  spec_nextDelay b (10 * Second) = Some (10 * Second) /\
  fst (Delay (harness.constant_source f64_half) cvt_oor_amd64 b (10 * Second))
  = 100 * Millisecond.
Proof.
  intros two_pow_30 b.
  assert (Hdraw : is_draw (fst (harness.constant_source f64_half 0%nat))) by (repeat split).
  pose proof (Delay_without_jitter_overflow nat (harness.constant_source f64_half) 0%nat Hdraw)
    as (_ & _ & _ & _ & Hspec & Hamd & _).
  split; [exact Hspec|exact Hamd].
Defined.

End backoff_facts.

(** ** The error taxonomy *)

Module retry_facts.

Import retry.

Lemma error_eqb_eq (a : error) : forall b, error_eqb a b = true <-> a = b.
Proof.
  induction a as [| | |s| |c IH|msg e IH|msg es IH] using error_chain_ind;
    intros b; destruct b as [| | |s'|[c'|]|msg' e'|msg' es']; cbn [error_eqb];
    try (split; [discriminate|congruence]); try (split; reflexivity).
  - rewrite String.eqb_eq. split; congruence.
  - rewrite IH. split; congruence.
  - rewrite andb_true_iff, String.eqb_eq, IH. split; [intros []|intros [= -> ->]; split]; congruence.
  - rewrite andb_true_iff, String.eqb_eq.
    assert (Hl : (fix all2 (l r : list error) {struct l} : bool :=
                    match l, r with
                    | [], [] => true
                    | x :: l', y :: r' => error_eqb x y && all2 l' r'
                    | _, _ => false
                    end) es es' = true <-> es = es').
    { clear msg msg'. revert es'. induction IH as [|x l Hx Hl IHl]; intros [|y r];
        try (split; [discriminate|congruence]); try (split; reflexivity).
      rewrite andb_true_iff, Hx, IHl. split; [intros []|intros [= -> ->]; split]; congruence. }
    rewrite Hl. split; [intros []|intros [= -> ->]; split]; congruence.
Qed.

Lemma error_eqb_refl (e : error) : error_eqb e e = true.
Proof. apply error_eqb_eq. reflexivity. Qed.

(** Every error is in its own chain. *)
Lemma chain_Is_refl (e : error) : chain_Is e e = true.
Proof. destruct e as [| | | |[]| |]; cbn [chain_Is]; rewrite error_eqb_refl; reflexivity. Qed.

(** The error built by [%w: %w] has both operands in its chain; the one
    built by [%w: %v] has the first. *)
Lemma Errorf_w_w_Is_left (a : error) (b : option error) :
  Is (Some (Errorf_w_w a b)) a = true.
Proof.
  destruct b as [b|]; cbn [Is Errorf_w_w chain_Is existsb error_eqb];
    rewrite chain_Is_refl; cbn; rewrite ?orb_true_r; reflexivity.
Qed.

Lemma Errorf_w_w_Is_right (a b : error) :
  Is (Some (Errorf_w_w a (Some b))) b = true.
Proof.
  cbn [Is Errorf_w_w chain_Is existsb]. rewrite (chain_Is_refl b).
  rewrite !orb_true_r. reflexivity.
Qed.

Lemma Errorf_w_v_Is_left (a : error) (b : option error) :
  Is (Some (Errorf_w_v a b)) a = true.
Proof.
  cbn [Is Errorf_w_v chain_Is]. rewrite chain_Is_refl, orb_true_r. reflexivity.
Qed.

(** An error marked by [NewUnrecoverableError] is found unrecoverable,
    also under further wrapping. *)
Lemma NewUnrecoverableError_nil : NewUnrecoverableError None = None.
Proof. reflexivity. Qed.

Lemma IsUnrecoverableError_New (e : error) :
  IsUnrecoverableError (NewUnrecoverableError (Some e)) = true.
Proof. reflexivity. Qed.

Lemma IsUnrecoverableError_wrapped (msg : string) (e : error) :
  IsUnrecoverableError (Some e) = true -> IsUnrecoverableError (Some (wrapError msg e)) = true.
Proof. intros H. exact H. Qed.

Lemma defaultRecoverable_unrecoverable (err : option error) :
  IsUnrecoverableError err = true -> defaultRecoverable err = false.
Proof.
  intros H. unfold defaultRecoverable. rewrite H. cbn. apply andb_false_r.
Qed.

Lemma defaultRecoverable_not_cancellation (err : option error) :
  defaultRecoverable err = true -> is_cancellation err = false.
Proof.
  unfold defaultRecoverable, is_cancellation. intros H.
  repeat (apply andb_true_iff in H; destruct H as [H ?]).
  destruct (Is err Canceled), (Is err DeadlineExceeded); try discriminate; reflexivity.
Qed.

(** [errors.Is] finds a target exactly when the target is in the
    chain. *)
Lemma chain_Is_In (e : error) : forall target, chain_Is e target = true <-> In target (chain e).
Proof.
  induction e as [| | |s| |c IH|msg e IH|msg es IH] using error_chain_ind;
    intros target; cbn [chain_Is chain In]; rewrite orb_true_iff, error_eqb_eq.
  1-5: split; [intros [H|H]; [left; exact H|discriminate H]
              |intros [H|[]]; left; exact H].
  - rewrite IH. reflexivity.
  - rewrite IH. reflexivity.
  - rewrite existsb_exists, in_flat_map. rewrite Forall_forall in IH.
    split; (intros [H|(x & Hin & Hx)]; [left; exact H|right; exists x; split; [exact Hin|]]);
      apply (IH x Hin); exact Hx.
Qed.

(** [errors.As] finds an [*UnrecoverableError] exactly when there is one
    in the chain. *)
Lemma chain_As_In (e : error) :
  chain_As_Unrecoverable e = true <-> exists cause, In (UnrecoverableError cause) (chain e).
Proof.
  induction e as [| | |s| |c IH|msg e IH|msg es IH] using error_chain_ind;
    cbn [chain_As_Unrecoverable chain In].
  1-4: split; [discriminate|intros (cause & [H|[]]); discriminate H].
  - split; [intros _; exists None; left; reflexivity|reflexivity].
  - split; [intros _; exists (Some c); left; reflexivity|reflexivity].
  - rewrite IH. split; intros (cause & H); exists cause; [right; exact H|].
    destruct H as [H|H]; [discriminate H|exact H].
  - rewrite existsb_exists. rewrite Forall_forall in IH. split.
    + intros (x & Hin & Hx). apply (IH x Hin) in Hx. destruct Hx as (cause & Hc).
      exists cause. right. apply in_flat_map. exists x. split; assumption.
    + intros (cause & [H|H]); [discriminate H|].
      apply in_flat_map in H. destruct H as (x & Hin & Hx).
      exists x. split; [exact Hin|]. apply (IH x Hin). exists cause. exact Hx.
Qed.

(** C3. The default classifier declares an error recoverable exactly
    when it is non-nil, neither [context.Canceled] nor
    [context.DeadlineExceeded] is anywhere in its chain (the error
    itself or an error reached from it by unwrapping, through single
    and multiple [%w]), and no [UnrecoverableError], with or without a
    cause, is anywhere in its chain; and it is the classifier that
    [validateConfig] installs, for the executor to use, when the
    configuration carries none. *)
Theorem defaultRecoverable_spec :
  (forall err : option error,
     defaultRecoverable err = true <->
     exists e,
       err = Some e /\
       ~ In Canceled (chain e) /\
       ~ In DeadlineExceeded (chain e) /\
       (forall cause, ~ In (UnrecoverableError cause) (chain e))) /\
  (forall (E : Type) (n : N) (b : Backoff E) onRetry,
     IsRecoverable (snd (validateConfig (mkConfig n (Some b) None onRetry)))
     = Some defaultRecoverable).
Proof.
  split.
  - intros err. unfold defaultRecoverable.
    rewrite !andb_true_iff, !negb_true_iff.
    destruct err as [e|]; cbn [Is IsUnrecoverableError].
    + rewrite <- !not_true_iff_false, !chain_Is_In, chain_As_In. split.
      * intros [[[_ H1] H2] H3]. exists e. split; [reflexivity|]. split; [exact H1|].
        split; [exact H2|]. intros cause Hin. apply H3. exists cause. exact Hin.
      * intros (e' & [= <-] & H1 & H2 & H3). repeat split; try assumption.
        intros (cause & Hin). exact (H3 cause Hin).
    + split; [intros [[[H _] _] _]; discriminate H|intros (e & H & _); discriminate H].
  - intros E n b onRetry. unfold validateConfig. cbn.
    destruct (n =? 0)%N; reflexivity.
Qed.

(** Wrapped twice, a cancellation and a mark are still found. *)
Lemma defaultRecoverable_deep :
  defaultRecoverable
    (Some (wrapError "outer" (wrapErrors "both" [errorString "plain"; Canceled]))) = false /\
  defaultRecoverable
    (Some (wrapErrors "both"
             [errorString "plain"; wrapError "inner" (UnrecoverableError None)])) = false /\
  defaultRecoverable (Some (wrapError "outer" (errorString "plain"))) = true.
Proof. repeat split. Qed.

(** The earlier revision of the classifier also retries a deadline
    error. *)
Lemma defaultRecoverable_before_doRetry_deadline :
  defaultRecoverable_before_doRetry (Some DeadlineExceeded) = true /\
  defaultRecoverable (Some DeadlineExceeded) = false.
Proof. split; reflexivity. Qed.

End retry_facts.

(** ** The executor: one iteration at a time *)

Module executor_facts.

Import retry scenario.

Lemma validateConfig_nil {E : Type} (config : Config E) :
  Backoff_ config = None ->
  validateConfig config = (Some (errorString "backoff strategy is required"), config).
Proof. intros H. unfold validateConfig. rewrite H. reflexivity. Qed.

Lemma validateConfig_ok {E : Type} (config : Config E) (b : Backoff E) :
  Backoff_ config = Some b -> validateConfig config = (None, validated config).
Proof.
  intros H. destruct config as [n bo [p|] onRetry]; cbn in H; subst bo;
    unfold validateConfig, validated, classifier; cbn;
    destruct (n =? 0)%N; reflexivity.
Qed.

Lemma op_calls_app (l r : list event) : op_calls (l ++ r) = (op_calls l + op_calls r)%nat.
Proof. unfold op_calls, count. rewrite filter_app, length_app. reflexivity. Qed.

Lemma uint_succ_small (attempt bound : N) :
  (attempt < bound)%N -> (bound < 2 ^ 64)%N -> uint_succ attempt = (attempt + 1)%N.
Proof. intros H1 H2. unfold uint_succ. apply N.mod_small. lia. Qed.

Section Loop.

Context {E Ctx L : Type}.
Variable rt : Runtime E Ctx.
Variable ctx : Ctx.
Variable config : Config E.
Variable b : Backoff E.
Variable operation : N -> world E L -> (bool * option error) * world E L.

Local Abbreviation loop := (doRetry_loop rt ctx config b operation).

Lemma loop_budget_spent (fuel : nat) (attempt : N) (delay : Duration) (w : world E L) :
  (MaxAttempts config <= attempt)%N ->
  loop fuel attempt delay w = Some (Some ErrAllAttemptsFailed, w).
Proof.
  intros H. destruct fuel; cbn [doRetry_loop]; [reflexivity|].
  replace (attempt <? MaxAttempts config)%N with false
    by (symmetry; apply N.ltb_ge; assumption).
  reflexivity.
Qed.

Lemma loop_entry_cancelled (fuel : nat) (attempt : N) (delay : Duration) (w : world E L)
    (ctxErr : error) :
  (attempt < MaxAttempts config)%N ->
  ctx_Err rt ctx (env w) = Some ctxErr ->
  loop (S fuel) attempt delay w = Some (Some ctxErr, w).
Proof.
  intros Hlt Hc. cbn [doRetry_loop].
  apply N.ltb_lt in Hlt. rewrite Hlt, Hc. reflexivity.
Qed.

Lemma loop_success (fuel : nat) (attempt : N) (delay : Duration) (w w1 : world E L)
    (err : option error) :
  (attempt < MaxAttempts config)%N ->
  ctx_Err rt ctx (env w) = None ->
  operation attempt w = ((true, err), w1) ->
  loop (S fuel) attempt delay w = Some (None, w1).
Proof.
  intros Hlt Hc Hop. cbn [doRetry_loop].
  apply N.ltb_lt in Hlt. rewrite Hlt, Hc, Hop. reflexivity.
Qed.

(** A failure that ends the run with the operation's own error: the
    error is a cancellation signal, or the context is cancelled by the
    time the operation returns. *)
Lemma loop_failure_cancelled (fuel : nat) (attempt : N) (delay : Duration)
    (w w1 : world E L) (err : option error) :
  (attempt < MaxAttempts config)%N ->
  ctx_Err rt ctx (env w) = None ->
  operation attempt w = ((false, err), w1) ->
  is_cancellation err = true \/ ctx_Err rt ctx (env w1) <> None ->
  loop (S fuel) attempt delay w = Some (err, w1).
Proof.
  intros Hlt Hc Hop H. cbn [doRetry_loop].
  apply N.ltb_lt in Hlt. rewrite Hlt, Hc, Hop. cbn [negb].
  unfold is_cancellation in H.
  destruct H as [->|H]; [reflexivity|].
  destruct (ctx_Err rt ctx (env w1)); [|congruence].
  rewrite orb_true_r. reflexivity.
Qed.

Lemma loop_failure_unrecoverable (fuel : nat) (attempt : N) (delay : Duration)
    (w w1 : world E L) (err : option error) (isRecoverable : option error -> bool) :
  (attempt < MaxAttempts config)%N ->
  ctx_Err rt ctx (env w) = None ->
  operation attempt w = ((false, err), w1) ->
  IsRecoverable config = Some isRecoverable ->
  isRecoverable err = false ->
  loop (S fuel) attempt delay w = Some (err, w1).
Proof.
  intros Hlt Hc Hop Hp Hr. cbn [doRetry_loop].
  apply N.ltb_lt in Hlt. rewrite Hlt, Hc, Hop, Hp, Hr. cbn [negb].
  destruct (Is err Canceled || Is err DeadlineExceeded
            || negb (is_nil (ctx_Err rt ctx (env w1)))); reflexivity.
Qed.

Section Recoverable.

Variables (fuel : nat) (attempt : N) (delay : Duration) (w w1 : world E L).
Variables (err : option error) (isRecoverable : option error -> bool).
Hypothesis Hlt : (attempt < MaxAttempts config)%N.
Hypothesis Hlive : ctx_Err rt ctx (env w) = None.
Hypothesis Hop : operation attempt w = ((false, err), w1).
Hypothesis Hsignal : is_cancellation err = false.
Hypothesis Hlive1 : ctx_Err rt ctx (env w1) = None.
Hypothesis Hp : IsRecoverable config = Some isRecoverable.
Hypothesis Hrec : isRecoverable err = true.

Lemma loop_recoverable_unfold :
  loop (S fuel) attempt delay w =
  if (MaxAttempts config <=? uint_succ attempt)%N then Some (Some ErrAllAttemptsFailed, w1)
  else
    let w2 :=
      match OnRetry config with
      | Some onRetry =>
          emit (EvOnRetry (uint_succ attempt) err delay)
            (with_env (onRetry (uint_succ attempt) err delay (env w1)) w1)
      | None => w1
      end in
    let '(timer, e) := ctx_select rt ctx delay (env w2) in
    let w3 := emit (EvWait delay timer (ctx_Err rt ctx e)) (with_env e w2) in
    if timer then
      let '(next, e) := Delay b delay (env w3) in
      loop fuel (uint_succ attempt) next (emit (EvDelay delay next) (with_env e w3))
    else Some (ctx_Err rt ctx (env w3), w3).
Proof.
  cbn [doRetry_loop].
  apply N.ltb_lt in Hlt. rewrite Hlt, Hlive, Hop, Hp, Hrec. cbn [negb].
  unfold is_cancellation in Hsignal. rewrite Hsignal, Hlive1. cbn [is_nil negb orb].
  reflexivity.
Qed.

(** The last attempt of the budget has failed. *)
Lemma loop_exhausted :
  (MaxAttempts config <= uint_succ attempt)%N ->
  loop (S fuel) attempt delay w = Some (Some ErrAllAttemptsFailed, w1).
Proof.
  intros H. rewrite loop_recoverable_unfold.
  apply N.leb_le in H. rewrite H. reflexivity.
Qed.

(** The attempt is retried: callback, wait, next delay, next attempt. *)
Lemma loop_retry (e2 e3 : E) (next : Duration) :
  (uint_succ attempt < MaxAttempts config)%N ->
  ctx_select rt ctx delay (notify config (uint_succ attempt) err delay (env w1)) = (true, e2) ->
  Delay b delay e2 = (next, e3) ->
  loop (S fuel) attempt delay w =
  loop fuel (uint_succ attempt) next
    (mkWorld e3 (locals w1)
       (log w1 ++
        match OnRetry config with
        | Some _ => [EvOnRetry (uint_succ attempt) err delay]
        | None => []
        end ++ [EvWait delay true (ctx_Err rt ctx e2); EvDelay delay next])).
Proof.
  intros H Hsel Hd. rewrite loop_recoverable_unfold.
  apply N.leb_gt in H. rewrite H.
  unfold notify in Hsel.
  destruct (OnRetry config) as [onRetry|]; cbn zeta; unfold emit, with_env;
    cbn [env locals log]; rewrite Hsel; cbn [env locals log]; rewrite Hd;
    cbn [env locals log]; repeat rewrite <- app_assoc; reflexivity.
Qed.

End Recoverable.

(** With a classifier in place the loop does not panic. *)
Lemma loop_returns (isRecoverable : option error -> bool) :
  IsRecoverable config = Some isRecoverable ->
  forall fuel attempt delay w, loop fuel attempt delay w <> None.
Proof.
  intros Hp. induction fuel as [|fuel IH]; intros attempt delay w; cbn [doRetry_loop];
    [discriminate|].
  destruct (negb (attempt <? MaxAttempts config)%N); [discriminate|].
  destruct (ctx_Err rt ctx (env w)); [discriminate|].
  destruct (operation attempt w) as [[success err] w1].
  destruct success; [discriminate|].
  destruct (Is err Canceled || Is err DeadlineExceeded
            || negb (is_nil (ctx_Err rt ctx (env w1)))); [discriminate|].
  rewrite Hp. destruct (negb (isRecoverable err)); [discriminate|].
  destruct (MaxAttempts config <=? uint_succ attempt)%N; [discriminate|].
  match goal with |- context [ctx_select rt ctx delay ?e] =>
    destruct (ctx_select rt ctx delay e) as [timer e2] end.
  destruct timer; [|discriminate].
  match goal with |- context [Delay b delay ?e] =>
    destruct (Delay b delay e) as [next e3] end.
  apply IH.
Qed.

(** The bound [fuel] does not cut the loop short: any bound that is at
    least [MaxAttempts - attempt] gives the same run.  [doRetry] starts
    the loop with [attempt = 0] and the bound [MaxAttempts]. *)
Lemma loop_fuel_enough :
  (MaxAttempts config < 2 ^ 64)%N ->
  forall fuel fuel' attempt delay w,
    (N.to_nat (MaxAttempts config) <= fuel + N.to_nat attempt)%nat ->
    (N.to_nat (MaxAttempts config) <= fuel' + N.to_nat attempt)%nat ->
    loop fuel attempt delay w = loop fuel' attempt delay w.
Proof.
  intros Huint. induction fuel as [|fuel IH]; intros fuel' attempt delay w H H'.
  { rewrite !loop_budget_spent by lia. reflexivity. }
  destruct fuel' as [|fuel'].
  { rewrite !loop_budget_spent by lia. reflexivity. }
  cbn [doRetry_loop].
  destruct (attempt <? MaxAttempts config)%N eqn:Hlt; [|reflexivity].
  apply N.ltb_lt in Hlt. cbn [negb].
  destruct (ctx_Err rt ctx (env w)); [reflexivity|].
  destruct (operation attempt w) as [[success err] w1].
  destruct success; [reflexivity|].
  destruct (Is err Canceled || Is err DeadlineExceeded
            || negb (is_nil (ctx_Err rt ctx (env w1)))); [reflexivity|].
  destruct (IsRecoverable config) as [isRecoverable|]; [|reflexivity].
  destruct (negb (isRecoverable err)); [reflexivity|].
  destruct (MaxAttempts config <=? uint_succ attempt)%N; [reflexivity|].
  match goal with |- context [ctx_select rt ctx delay ?e] =>
    destruct (ctx_select rt ctx delay e) as [timer e2] end.
  destruct timer; [|reflexivity].
  match goal with |- context [Delay b delay ?e] =>
    destruct (Delay b delay e) as [next e3] end.
  apply IH; rewrite (uint_succ_small attempt (MaxAttempts config)) by assumption; lia.
Qed.

End Loop.

End executor_facts.

(** ** Runs of [Do] and [DoWithValue] *)

Module run_facts.

Import retry scenario executor_facts.

Section Run.

Context {E Ctx L : Type}.
Variable rt : Runtime E Ctx.
Variable ctx : Ctx.
Variable config : Config E.
Variable b : Backoff E.

(** [operation] is a closure around the caller's operation [op]: it calls
    [op] once, reports success exactly when the error is nil, and updates
    what it captures by [update]. *)
Variable operation : N -> world E L -> (bool * option error) * world E L.
Variable op : E -> option error * E.
Variable update : L -> E -> L.

Hypothesis closure : forall attempt w,
  operation attempt w =
  ((is_nil (fst (op (env w))), fst (op (env w))),
   mkWorld (snd (op (env w))) (update (locals w) (env w))
     (log w ++ [EvOp (ctx_Err rt ctx (env w)) (fst (op (env w)))])).

Hypothesis resolved : IsRecoverable config = Some (classifier config).

Local Abbreviation loop := (doRetry_loop rt ctx config b operation).

Lemma run_entry_cancelled (fuel : nat) (attempt : N) (delay : Duration) (w : world E L)
    (ctxErr : error) :
  (attempt < MaxAttempts config)%N ->
  ctx_Err rt ctx (env w) = Some ctxErr ->
  loop (S fuel) attempt delay w = Some (Some ctxErr, w).
Proof. apply loop_entry_cancelled. Qed.

Lemma run_succeeds (fuel : nat) (attempt : N) (delay : Duration) (e e' : E)
    (captured : L) (tr : list event) :
  (attempt < MaxAttempts config)%N ->
  succeeds rt ctx op e e' ->
  loop (S fuel) attempt delay (mkWorld e captured tr)
  = Some (None, mkWorld e' (update captured e) (tr ++ [EvOp None None])).
Proof.
  intros Hlt [Hlive Hop].
  eapply eq_trans; [eapply loop_success with (err := None); eauto|].
  - rewrite closure. cbn [env]. rewrite Hop. reflexivity.
  - cbn [env locals log]. rewrite Hlive. reflexivity.
Qed.

Lemma run_fails (attempt : N) (e e' : E) (err : error) (captured : L) (tr : list event) :
  ctx_Err rt ctx e = None ->
  op e = (Some err, e') ->
  operation attempt (mkWorld e captured tr)
  = ((false, Some err), mkWorld e' (update captured e) (tr ++ [EvOp None (Some err)])).
Proof.
  intros Hlive Hop. rewrite closure. cbn [env locals log]. rewrite Hop, Hlive. reflexivity.
Qed.

(** The operation's error ends the run and is handed back as it is: it
    is a cancellation signal, or the context was cancelled meanwhile, or
    the classifier rejects it. *)
Lemma run_gives_up (fuel : nat) (attempt : N) (delay : Duration) (e e' : E) (err : error)
    (captured : L) (tr : list event) :
  (attempt < MaxAttempts config)%N ->
  ctx_Err rt ctx e = None ->
  op e = (Some err, e') ->
  is_cancellation (Some err) = true \/ ctx_Err rt ctx e' <> None \/
  classifier config (Some err) = false ->
  loop (S fuel) attempt delay (mkWorld e captured tr)
  = Some (Some err, mkWorld e' (update captured e) (tr ++ [EvOp None (Some err)])).
Proof.
  intros Hlt Hlive Hop H.
  pose proof (run_fails attempt e e' err captured tr Hlive Hop) as Hrun.
  destruct H as [H|[H|H]].
  - eapply loop_failure_cancelled; eauto.
  - eapply loop_failure_cancelled; eauto.
  - eapply loop_failure_unrecoverable; eauto.
Qed.

Lemma run_exhausted (fuel : nat) (attempt : N) (delay : Duration) (e e' : E) (err : error)
    (captured : L) (tr : list event) :
  (attempt < MaxAttempts config)%N ->
  (MaxAttempts config <= uint_succ attempt)%N ->
  fails_recoverably rt ctx config op e err e' ->
  loop (S fuel) attempt delay (mkWorld e captured tr)
  = Some (Some ErrAllAttemptsFailed,
          mkWorld e' (update captured e) (tr ++ [EvOp None (Some err)])).
Proof.
  intros Hlt Hmax (Hlive & Hop & Hsig & Hlive' & Hrec).
  eapply loop_exhausted; eauto using run_fails.
Qed.

Lemma run_retried (fuel : nat) (attempt : N) (delay : Duration) (e e' : E) (err : error)
    (next : Duration) (captured : L) (tr : list event) :
  (attempt < MaxAttempts config)%N ->
  (uint_succ attempt < MaxAttempts config)%N ->
  retried rt ctx config b op (uint_succ attempt) delay e err next e' ->
  exists ctxErr,
    loop (S fuel) attempt delay (mkWorld e captured tr)
    = loop fuel (uint_succ attempt) next
        (mkWorld e' (update captured e)
           (tr ++ cycle_trace config (uint_succ attempt) err delay ctxErr next)).
Proof.
  intros Hlt Hnext (e1 & e2 & (Hlive & Hop & Hsig & Hlive' & Hrec) & Hsel & Hd).
  exists (ctx_Err rt ctx e2).
  erewrite loop_retry; eauto using run_fails.
  cbn [locals log]. unfold cycle_trace.
  rewrite <- app_assoc. reflexivity.
Qed.

(** Two retry cycles and a success, within a budget of five. *)
Lemma run_two_retries_then_success (d0 d1 d2 : Duration) (e1 e2 e3 e4 : E)
    (err1 err2 : error) (captured : L) (tr : list event) :
  MaxAttempts config = 5%N ->
  retried rt ctx config b op 1 d0 e1 err1 d1 e2 ->
  retried rt ctx config b op 2 d1 e2 err2 d2 e3 ->
  succeeds rt ctx op e3 e4 ->
  exists c1 c2,
    loop 5 0%N d0 (mkWorld e1 captured tr)
    = Some (None,
            mkWorld e4 (update (update (update captured e1) e2) e3)
              (tr ++ cycle_trace config 1 err1 d0 c1 d1
                  ++ cycle_trace config 2 err2 d1 c2 d2 ++ [EvOp None None])).
Proof.
  intros Hmax H1 H2 H3.
  destruct (run_retried 4 0%N d0 e1 e2 err1 d1 captured tr) as [c1 E1];
    [rewrite Hmax; reflexivity|rewrite Hmax; reflexivity|exact H1|].
  change (uint_succ 0) with 1%N in E1.
  destruct (run_retried 3 1%N d1 e2 e3 err2 d2 (update captured e1)
              (tr ++ cycle_trace config 1 err1 d0 c1 d1)) as [c2 E2];
    [rewrite Hmax; reflexivity|rewrite Hmax; reflexivity|exact H2|].
  change (uint_succ 1) with 2%N in E2.
  exists c1, c2. rewrite E1, E2.
  rewrite run_succeeds with (e' := e4); [|rewrite Hmax; reflexivity|exact H3].
  rewrite <- !app_assoc. reflexivity.
Qed.

(** Two retry cycles and a third recoverable failure, with a budget of
    three: the budget is spent. *)
Lemma run_three_failures (d0 d1 d2 : Duration) (e1 e2 e3 e4 : E)
    (err1 err2 err3 : error) (captured : L) (tr : list event) :
  MaxAttempts config = 3%N ->
  retried rt ctx config b op 1 d0 e1 err1 d1 e2 ->
  retried rt ctx config b op 2 d1 e2 err2 d2 e3 ->
  fails_recoverably rt ctx config op e3 err3 e4 ->
  exists c1 c2,
    loop 3 0%N d0 (mkWorld e1 captured tr)
    = Some (Some ErrAllAttemptsFailed,
            mkWorld e4 (update (update (update captured e1) e2) e3)
              (tr ++ cycle_trace config 1 err1 d0 c1 d1
                  ++ cycle_trace config 2 err2 d1 c2 d2 ++ [EvOp None (Some err3)])).
Proof.
  intros Hmax H1 H2 H3.
  destruct (run_retried 2 0%N d0 e1 e2 err1 d1 captured tr) as [c1 E1];
    [rewrite Hmax; reflexivity|rewrite Hmax; reflexivity|exact H1|].
  change (uint_succ 0) with 1%N in E1.
  destruct (run_retried 1 1%N d1 e2 e3 err2 d2 (update captured e1)
              (tr ++ cycle_trace config 1 err1 d0 c1 d1)) as [c2 E2];
    [rewrite Hmax; reflexivity|rewrite Hmax; reflexivity|exact H2|].
  change (uint_succ 1) with 2%N in E2.
  exists c1, c2. rewrite E1, E2.
  rewrite run_exhausted with (e' := e4) (err := err3);
    [|rewrite Hmax; reflexivity|rewrite Hmax; discriminate|exact H3].
  rewrite <- !app_assoc. reflexivity.
Qed.

End Run.

Section Closures.

Context {E Ctx : Type}.
Variable rt : Runtime E Ctx.
Variable ctx : Ctx.

Lemma Do_operation_closure (op : E -> option error * E) (attempt : N)
    (w : world E (option error)) :
  Do_operation rt ctx op attempt w =
  ((is_nil (fst (op (env w))), fst (op (env w))),
   mkWorld (snd (op (env w))) (Do_update op (locals w) (env w))
     (log w ++ [EvOp (ctx_Err rt ctx (env w)) (fst (op (env w)))])).
Proof.
  unfold Do_operation, Do_update. destruct (op (env w)) as [[err|] e]; reflexivity.
Qed.

Lemma DoWithValue_operation_closure {T : Type} (op : E -> (T * option error) * E)
    (attempt : N) (w : world E (T * option error)) :
  DoWithValue_operation rt ctx op attempt w =
  ((is_nil (fst (erase op (env w))), fst (erase op (env w))),
   mkWorld (snd (erase op (env w))) (DoWithValue_update op (locals w) (env w))
     (log w ++ [EvOp (ctx_Err rt ctx (env w)) (fst (erase op (env w)))])).
Proof.
  unfold DoWithValue_operation, DoWithValue_update, erase.
  destruct (op (env w)) as [[r [err|]] e]; reflexivity.
Qed.

Lemma validated_resolved (config : Config E) :
  IsRecoverable (validated config) = Some (classifier (validated config)).
Proof. reflexivity. Qed.

Lemma classifier_validated (config : Config E) :
  classifier (validated config) = classifier config.
Proof. reflexivity. Qed.

(** The scenarios read the same on the validated configuration. *)
Lemma fails_recoverably_validated (config : Config E) (op : E -> option error * E) e err e' :
  fails_recoverably rt ctx config op e err e' ->
  fails_recoverably rt ctx (validated config) op e err e'.
Proof. intros H. exact H. Qed.

Lemma retried_validated (config : Config E) (b : Backoff E) (op : E -> option error * E)
    n d e err next e' :
  retried rt ctx config b op n d e err next e' ->
  retried rt ctx (validated config) b op n d e err next e'.
Proof. intros H. exact H. Qed.

(** [Do] and [DoWithValue], once the configuration is validated and the
    loop has returned. *)
Lemma Do_run (config : Config E) (b : Backoff E) (op : E -> option error * E)
    (w : world E unit) (d0 : Duration) (e1 : E) (r : option error)
    (w' : world E (option error)) :
  Backoff_ config = Some b ->
  MinDelay b (env w) = (d0, e1) ->
  doRetry_loop rt ctx (validated config) b (Do_operation rt ctx op)
    (N.to_nat (MaxAttempts (validated config))) 0%N d0
    (mkWorld e1 None (log w ++ [EvMinDelay d0])) = Some (r, w') ->
  Do rt ctx config op w =
  Some (if Is r ErrAllAttemptsFailed
        then Some (Errorf_w_w ErrAllAttemptsFailed (locals w'))
        else r,
        with_locals tt w').
Proof.
  intros Hb Hmin Hloop. unfold Do, doRetry.
  rewrite (validateConfig_ok config b Hb).
  replace (Backoff_ (validated config)) with (Some b) by (symmetry; exact Hb).
  unfold emit, with_env, with_locals. cbn [env locals log]. rewrite Hmin.
  cbn [env locals log]. rewrite Hloop.
  destruct r as [err|]; [destruct (Is (Some err) ErrAllAttemptsFailed)|]; reflexivity.
Qed.

Lemma DoWithValue_run {T : Type} (zero : T) (config : Config E) (b : Backoff E)
    (op : E -> (T * option error) * E)
    (w : world E unit) (d0 : Duration) (e1 : E) (r : option error)
    (w' : world E (T * option error)) :
  Backoff_ config = Some b ->
  MinDelay b (env w) = (d0, e1) ->
  doRetry_loop rt ctx (validated config) b (DoWithValue_operation rt ctx op)
    (N.to_nat (MaxAttempts (validated config))) 0%N d0
    (mkWorld e1 (zero, None) (log w ++ [EvMinDelay d0])) = Some (r, w') ->
  DoWithValue rt zero ctx config op w =
  Some (match r with
        | Some _ =>
            (zero, if Is r ErrAllAttemptsFailed
                   then Some (Errorf_w_v ErrAllAttemptsFailed (snd (locals w')))
                   else r)
        | None => (fst (locals w'), None)
        end,
        with_locals tt w').
Proof.
  intros Hb Hmin Hloop. unfold DoWithValue, doRetry.
  rewrite (validateConfig_ok config b Hb).
  replace (Backoff_ (validated config)) with (Some b) by (symmetry; exact Hb).
  unfold emit, with_env, with_locals. cbn [env locals log]. rewrite Hmin.
  cbn [env locals log]. rewrite Hloop.
  destruct (locals w') as [result lastErr].
  destruct r as [err|]; [destruct (Is (Some err) ErrAllAttemptsFailed)|]; reflexivity.
Qed.

(** [Do] and [DoWithValue] return: validation puts a classifier in
    place, and the loop is bounded by the attempt budget. *)
Lemma Do_returns (config : Config E) (op : E -> option error * E) (w : world E unit) :
  Do rt ctx config op w <> None.
Proof.
  unfold Do. destruct (Backoff_ config) as [b|] eqn:Hb.
  - rewrite (validateConfig_ok config b Hb). unfold doRetry.
    replace (Backoff_ (validated config)) with (Some b) by (symmetry; exact Hb).
    match goal with |- context [MinDelay b ?e] => destruct (MinDelay b e) as [d0 e1] end.
    match goal with |- context [doRetry_loop ?a ?b ?c ?d ?e ?f ?g ?h ?i] =>
      pose proof (loop_returns a b c d e (classifier config) eq_refl f g h i) as Hl;
      destruct (doRetry_loop a b c d e f g h i) as [[[err|] w']|] end;
      [destruct (Is (Some err) ErrAllAttemptsFailed)| |]; congruence.
  - rewrite (validateConfig_nil config Hb). discriminate.
Qed.

Lemma DoWithValue_returns {T : Type} (zero : T) (config : Config E)
    (op : E -> (T * option error) * E) (w : world E unit) :
  DoWithValue rt zero ctx config op w <> None.
Proof.
  unfold DoWithValue. destruct (Backoff_ config) as [b|] eqn:Hb.
  - rewrite (validateConfig_ok config b Hb). unfold doRetry.
    replace (Backoff_ (validated config)) with (Some b) by (symmetry; exact Hb).
    match goal with |- context [MinDelay b ?e] => destruct (MinDelay b e) as [d0 e1] end.
    match goal with |- context [doRetry_loop ?a ?b ?c ?d ?e ?f ?g ?h ?i] =>
      pose proof (loop_returns a b c d e (classifier config) eq_refl f g h i) as Hl;
      destruct (doRetry_loop a b c d e f g h i) as [[[err|] w']|] end;
      [destruct (locals w'); destruct (Is (Some err) ErrAllAttemptsFailed)
      |destruct (locals w')|]; congruence.
  - rewrite (validateConfig_nil config Hb). discriminate.
Qed.

End Closures.

End run_facts.

(** ** Configuration: a missing policy, a zero budget, a timeout *)

Module config_facts.

Import retry scenario executor_facts run_facts.

(** C8.  With no backoff policy in the configuration, [Do] and
    [DoWithValue] return the error "backoff strategy is required" and the
    world as they found it: the operation has not been called, nothing
    has been logged, the environment is untouched.  That error is no
    cancellation signal, is not marked unrecoverable and is not the
    exhaustion sentinel. *)
Theorem missing_backoff_is_misconfiguration :
  forall (E Ctx T : Type) (rt : Runtime E Ctx) (zero : T) (ctx : Ctx)
         (n : N) (isRecoverable : option (option error -> bool))
         (onRetry : option (N -> option error -> Duration -> E -> E))
         (op : E -> option error * E) (opv : E -> (T * option error) * E)
         (w : world E unit),
    let config := mkConfig n None isRecoverable onRetry in
    let misconfiguration := errorString "backoff strategy is required" in
    Do rt ctx config op w = Some (Some misconfiguration, w) /\
    DoWithValue rt zero ctx config opv w = Some ((zero, Some misconfiguration), w) /\
    is_cancellation (Some misconfiguration) = false /\
    IsUnrecoverableError (Some misconfiguration) = false /\
    Is (Some misconfiguration) ErrAllAttemptsFailed = false.
Proof. intros. repeat split. Qed.

(** The first attempt of [WithTimeout]: the operation runs under the
    context derived for it, and that context is cancelled when the
    operation returns. *)
Lemma WithTimeout_first_attempt {E Ctx T : Type} (rt : Runtime E Ctx) (zero : T) (ctx : Ctx)
    (config : Config E) (timeout : Duration) (op : Ctx -> E -> (T * option error) * E)
    (w : world E unit) (b : Backoff E) (d0 : Duration) (e1 e2 e3 : E) (timeoutCtx : Ctx)
    (v : T) :
  0 < timeout ->
  Backoff_ config = Some b ->
  MinDelay b (env w) = (d0, e1) ->
  ctx_Err rt ctx e1 = None ->
  ctx_WithTimeout rt ctx timeout e1 = (timeoutCtx, e2) ->
  op timeoutCtx e2 = ((v, None), e3) ->
  WithTimeout rt zero ctx config timeout op w
  = Some ((v, None),
          mkWorld (ctx_cancel rt timeoutCtx e3) tt (log w ++ [EvMinDelay d0; EvOp None None])).
Proof.
  intros Hpos Hb Hmin Hlive Hderive Hop. unfold WithTimeout.
  replace (timeout <=? 0) with false by (symmetry; apply Z.leb_gt; exact Hpos).
  assert (Hfuel : exists k, N.to_nat (MaxAttempts (validated config)) = S k).
  { unfold validated. cbn [MaxAttempts].
    destruct (MaxAttempts config) as [|p]; cbn [N.eqb].
    - exists 0%nat. reflexivity.
    - exists (Nat.pred (Pos.to_nat p)). cbn [N.to_nat]. pose proof (Pos2Nat.is_pos p). lia. }
  destruct Hfuel as [k Hk].
  erewrite DoWithValue_run; [|exact Hb|exact Hmin|].
  2:{ rewrite Hk. eapply loop_success.
      - unfold validated. cbn [MaxAttempts]. destruct (MaxAttempts config); reflexivity.
      - exact Hlive.
      - unfold DoWithValue_operation, wrappedOp. cbn [env]. rewrite Hderive, Hop, Hlive.
        reflexivity. }
  unfold emit, with_env, with_locals. cbn [env locals log fst].
  rewrite <- app_assoc. reflexivity.
Qed.

(** C10.  For a timeout that is zero or negative, [WithTimeout] returns
    the zero value and the error "timeout must be greater than zero", and
    the world as it found it: neither the operation nor the backoff
    policy has been called.  For a positive timeout it is [DoWithValue]
    on the operation wrapped with a per-attempt timeout context: each
    time [DoWithValue] calls the wrapped operation, a context with the
    timeout is derived from [ctx] in the environment of that call, the
    operation is called with the derived context, and the derived
    context is cancelled when the operation returns.  So the first
    attempt, when it succeeds, returns the value computed under the
    derived context and leaves that context cancelled; and at every
    attempt the closure that [doRetry] calls reports the error of the
    operation under the context derived for this attempt, and leaves
    that context cancelled. *)
Theorem WithTimeout_spec :
  forall (E Ctx T : Type) (rt : Runtime E Ctx) (zero : T) (ctx : Ctx) (config : Config E)
         (timeout : Duration) (op : Ctx -> E -> (T * option error) * E) (w : world E unit),
    (timeout <= 0 ->
     WithTimeout rt zero ctx config timeout op w
     = Some ((zero, Some (errorString "timeout must be greater than zero")), w)) /\
    (0 < timeout ->
     WithTimeout rt zero ctx config timeout op w
     = DoWithValue rt zero ctx config
         (fun e =>
            let '(timeoutCtx, e1) := ctx_WithTimeout rt ctx timeout e in
            let '(r, e2) := op timeoutCtx e1 in
            (r, ctx_cancel rt timeoutCtx e2))
         w /\
     (forall (b : Backoff E) (d0 : Duration) (e1 e2 e3 : E) (timeoutCtx : Ctx) (v : T),
        Backoff_ config = Some b ->
        MinDelay b (env w) = (d0, e1) ->
        ctx_Err rt ctx e1 = None ->
        ctx_WithTimeout rt ctx timeout e1 = (timeoutCtx, e2) ->
        op timeoutCtx e2 = ((v, None), e3) ->
        WithTimeout rt zero ctx config timeout op w
        = Some ((v, None),
                mkWorld (ctx_cancel rt timeoutCtx e3) tt
                  (log w ++ [EvMinDelay d0; EvOp None None]))) /\
     (forall (attempt : N) (w0 : world E (T * option error)) (timeoutCtx : Ctx) (e1 e2 : E)
             (v : T) (err : option error),
        ctx_WithTimeout rt ctx timeout (env w0) = (timeoutCtx, e1) ->
        op timeoutCtx e1 = ((v, err), e2) ->
        DoWithValue_operation rt ctx (wrappedOp rt ctx timeout op) attempt w0
        = ((is_nil err, err),
           mkWorld (ctx_cancel rt timeoutCtx e2)
             (v, match err with Some _ => err | None => snd (locals w0) end)
             (log w0 ++ [EvOp (ctx_Err rt ctx (env w0)) err])))).
Proof.
  intros E Ctx T rt zero ctx config timeout op w. split.
  - intros Hle. unfold WithTimeout.
    replace (timeout <=? 0) with true by (symmetry; apply Z.leb_le; exact Hle).
    reflexivity.
  - intros Hpos. split; [|split].
    + unfold WithTimeout.
      replace (timeout <=? 0) with false by (symmetry; apply Z.leb_gt; exact Hpos).
      reflexivity.
    + intros b d0 e1 e2 e3 timeoutCtx v Hb Hmin Hlive Hderive Hop.
      exact (WithTimeout_first_attempt rt zero ctx config timeout op w b d0 e1 e2 e3
               timeoutCtx v Hpos Hb Hmin Hlive Hderive Hop).
    + intros attempt w0 timeoutCtx e1 e2 v err Hderive Hop.
      unfold DoWithValue_operation, wrappedOp. rewrite Hderive, Hop.
      destruct err; reflexivity.
Qed.

(** A timeout of zero; and a timeout of 50ms for an operation that needs
    30ms, fails once and then succeeds: the run lasts 70ms, more than
    the timeout, and each of the two attempts has had its own context,
    with a deadline 50ms after its own start (50ms and 90ms), cancelled
    since. *)
Lemma WithTimeout_spec_witness :
  WithTimeout harness.runtime ""%string 0%nat (harness.config 3) 0 harness.ctx_aware
    (harness.fresh harness.start)
  = Some ((""%string, Some (errorString "timeout must be greater than zero")),
          harness.fresh harness.start) /\
  WithTimeout harness.runtime ""%string 0%nat (harness.config 3) (50 * backoff.Millisecond)
    (scenes.sluggish (30 * backoff.Millisecond) 2) (harness.fresh harness.start)
  = Some (("done"%string, None),
          mkWorld
            (harness.mkEnv 2 (70 * backoff.Millisecond) false
               [(50 * backoff.Millisecond, true); (90 * backoff.Millisecond, true)])
            tt
            [EvMinDelay (10 * backoff.Millisecond);
             EvOp None (Some (errorString "temporary error"));
             EvOnRetry 1 (Some (errorString "temporary error")) (10 * backoff.Millisecond);
             EvWait (10 * backoff.Millisecond) true None;
             EvDelay (10 * backoff.Millisecond) (20 * backoff.Millisecond);
             EvOp None None]).
Proof.
  split.
  - apply (proj1 (WithTimeout_spec _ _ _ harness.runtime ""%string 0%nat (harness.config 3) 0
                    harness.ctx_aware (harness.fresh harness.start))).
    apply Z.le_refl.
  - rewrite (proj1 (proj2 (WithTimeout_spec _ _ _ harness.runtime ""%string 0%nat
                             (harness.config 3) (50 * backoff.Millisecond)
                             (scenes.sluggish (30 * backoff.Millisecond) 2)
                             (harness.fresh harness.start))
                      eq_refl)).
    vm_compute. reflexivity.
Defined.

Section SingleAttempt.

Context {E Ctx L : Type}.
Variable rt : Runtime E Ctx.
Variable ctx : Ctx.
Variable config : Config E.
Variable b : Backoff E.
Variable operation : N -> world E L -> (bool * option error) * world E L.
Variable op : E -> option error * E.
Variable update : L -> E -> L.

Hypothesis closure : forall attempt w,
  operation attempt w =
  ((is_nil (fst (op (env w))), fst (op (env w))),
   mkWorld (snd (op (env w))) (update (locals w) (env w))
     (log w ++ [EvOp (ctx_Err rt ctx (env w)) (fst (op (env w)))])).

Hypothesis resolved : IsRecoverable config = Some (classifier config).

(** With a budget of one attempt and a live context the operation is
    called exactly once. *)
Lemma run_single_attempt (delay : Duration) (e : E) (captured : L) (tr : list event) :
  MaxAttempts config = 1%N ->
  ctx_Err rt ctx e = None ->
  exists r,
    doRetry_loop rt ctx config b operation 1 0%N delay (mkWorld e captured tr)
    = Some (r, mkWorld (snd (op e)) (update captured e) (tr ++ [EvOp None (fst (op e))])).
Proof.
  intros Hmax Hlive. cbn [doRetry_loop]. rewrite Hmax. cbn [N.ltb N.compare negb env].
  rewrite Hlive, closure. cbn [env locals log]. rewrite Hlive, resolved.
  destruct (fst (op e)) as [err|]; cbn [is_nil]; [|eauto].
  destruct (Is (Some err) Canceled || Is (Some err) DeadlineExceeded
            || negb (is_nil (ctx_Err rt ctx (snd (op e))))); [eauto|].
  destruct (negb (classifier config (Some err))); [eauto|].
  change (1 <=? uint_succ 0)%N with true. cbn iota. eauto.
Qed.

End SingleAttempt.

Lemma op_calls_one_more (tr : list event) (d : Duration) (c err : option error) :
  op_calls ((tr ++ [EvMinDelay d]) ++ [EvOp c err]) = S (op_calls tr).
Proof. rewrite !op_calls_app. cbn. lia. Qed.

(** C9, amended.  A budget of zero attempts is a budget of one: [Do] and
    [DoWithValue] give the same result, the same final environment and
    the same trace for [MaxAttempts = 0] as for [MaxAttempts = 1],
    whatever the context, the policy, the operation, the classifier and
    the callback.  And when a policy is present and the context is not
    cancelled as the first attempt begins, the run returns and has called
    the operation exactly once. *)
Theorem MaxAttempts_zero_is_one :
  forall (E Ctx T : Type) (rt : Runtime E Ctx) (zero : T) (ctx : Ctx)
         (policy : option (Backoff E)) (isRecoverable : option (option error -> bool))
         (onRetry : option (N -> option error -> Duration -> E -> E))
         (op : E -> option error * E) (opv : E -> (T * option error) * E)
         (w : world E unit),
    let config n := mkConfig n policy isRecoverable onRetry in
    Do rt ctx (config 0%N) op w = Do rt ctx (config 1%N) op w /\
    DoWithValue rt zero ctx (config 0%N) opv w = DoWithValue rt zero ctx (config 1%N) opv w /\
    forall b d0 e1,
      policy = Some b -> MinDelay b (env w) = (d0, e1) -> ctx_Err rt ctx e1 = None ->
      (exists r w', Do rt ctx (config 0%N) op w = Some (r, w') /\
                    op_calls (log w') = S (op_calls (log w))) /\
      (exists r w', DoWithValue rt zero ctx (config 0%N) opv w = Some (r, w') /\
                    op_calls (log w') = S (op_calls (log w))).
Proof.
  intros. split; [|split].
  - unfold Do, validateConfig. subst config. cbn [Backoff_].
    destruct policy, isRecoverable; reflexivity.
  - unfold DoWithValue, validateConfig. subst config. cbn [Backoff_].
    destruct policy, isRecoverable; reflexivity.
  - intros b d0 e1 -> Hmin Hlive. split.
    + destruct (run_single_attempt rt ctx (validated (config 0%N)) b
                  (Do_operation rt ctx op) op (Do_update op)
                  (Do_operation_closure rt ctx op) eq_refl
                  d0 e1 None (log w ++ [EvMinDelay d0]) eq_refl Hlive) as [r Hloop].
      eexists. eexists. split.
      * eapply Do_run; [reflexivity|exact Hmin|exact Hloop].
      * cbn [with_locals log]. apply op_calls_one_more.
    + destruct (run_single_attempt rt ctx (validated (config 0%N)) b
                  (DoWithValue_operation rt ctx opv) (erase opv) (DoWithValue_update opv)
                  (DoWithValue_operation_closure rt ctx opv) eq_refl
                  d0 e1 (zero, None) (log w ++ [EvMinDelay d0]) eq_refl Hlive) as [r Hloop].
      eexists. eexists. split.
      * eapply (DoWithValue_run rt ctx zero); [reflexivity|exact Hmin|exact Hloop].
      * cbn [with_locals log]. apply op_calls_one_more.
Qed.

(** The operation of [TestConfigValidation] under a cancelled context:
    with [MaxAttempts = 0] the run ends with [context.Canceled] and the
    operation has not been called at all. *)
Lemma MaxAttempts_zero_cancelled_context :
  Do harness.runtime 0%nat (harness.config 0) (harness.flaky 1)
    (harness.fresh harness.start_cancelled)
  = Some (Some Canceled,
          mkWorld harness.start_cancelled tt [EvMinDelay (10 * backoff.Millisecond)]) /\
  op_calls [EvMinDelay (10 * backoff.Millisecond)] = 0%nat.
Proof. split; reflexivity. Qed.

Lemma MaxAttempts_zero_is_one_witness :
  exists r w',
    Do harness.runtime 0%nat (harness.config 0) (harness.flaky 1) (harness.fresh harness.start)
    = Some (r, w') /\ op_calls (log w') = 1%nat.
Proof.
  exact (proj1 (proj2 (proj2
    (MaxAttempts_zero_is_one _ _ _ harness.runtime ""%string 0%nat
       (Some harness.mockBackoff) None (Some harness.observe)
       (harness.flaky 1) (harness.flaky_value 1) (harness.fresh harness.start)))
    harness.mockBackoff (10 * backoff.Millisecond) harness.start eq_refl eq_refl eq_refl)).
Defined.

End config_facts.

(** ** Scenarios: success after retries, exhaustion, unrecoverable errors *)

Module scenario_facts.

Import retry scenario retry_facts executor_facts run_facts.

Lemma validated_MaxAttempts {E : Type} (config : Config E) (n : N) :
  MaxAttempts config = n -> n <> 0%N -> MaxAttempts (validated config) = n.
Proof.
  intros H Hn. unfold validated. cbn [MaxAttempts]. rewrite H.
  destruct n; [congruence|reflexivity].
Qed.

(** C5.  With a budget of five attempts, if the first two calls of the
    operation fail with recoverable errors (each followed by the
    callback, a wait that elapses and the next delay) and the third call
    succeeds, then [Do] returns nil and [DoWithValue] returns the value
    of the third call with a nil error; the operation has been called
    three times, [OnRetry] twice, there were two waits, and the
    successful call is the last step of the run. *)
Theorem two_failures_then_success :
  forall (E Ctx T : Type) (rt : Runtime E Ctx) (zero : T) (ctx : Ctx)
         (config : Config E) (b : Backoff E)
         (onRetry : N -> option error -> Duration -> E -> E)
         (e0 e1 e2 e3 e4 : E) (d0 d1 d2 : Duration) (err1 err2 : error),
    Backoff_ config = Some b ->
    MaxAttempts config = 5%N ->
    OnRetry config = Some onRetry ->
    MinDelay b e0 = (d0, e1) ->
    (forall op : E -> option error * E,
       retried rt ctx config b op 1 d0 e1 err1 d1 e2 ->
       retried rt ctx config b op 2 d1 e2 err2 d2 e3 ->
       succeeds rt ctx op e3 e4 ->
       exists w',
         Do rt ctx config op (mkWorld e0 tt []) = Some (None, w') /\
         env w' = e4 /\
         op_calls (log w') = 3%nat /\ onRetry_calls (log w') = 2%nat /\
         waits (log w') = 2%nat /\
         exists tr, log w' = tr ++ [EvOp None None]) /\
    (forall (opv : E -> (T * option error) * E) (v : T),
       retried rt ctx config b (erase opv) 1 d0 e1 err1 d1 e2 ->
       retried rt ctx config b (erase opv) 2 d1 e2 err2 d2 e3 ->
       ctx_Err rt ctx e3 = None ->
       opv e3 = ((v, None), e4) ->
       exists w',
         DoWithValue rt zero ctx config opv (mkWorld e0 tt []) = Some ((v, None), w') /\
         env w' = e4 /\
         op_calls (log w') = 3%nat /\ onRetry_calls (log w') = 2%nat /\
         waits (log w') = 2%nat /\
         exists tr, log w' = tr ++ [EvOp None None]).
Proof.
  intros E Ctx T rt zero ctx config b onRetry e0 e1 e2 e3 e4 d0 d1 d2 err1 err2
         Hb Hmax Hon Hmin.
  assert (Hmax' : MaxAttempts (validated config) = 5%N)
    by (apply validated_MaxAttempts; [assumption|discriminate]).
  split.
  - intros op H1 H2 H3.
    destruct (run_two_retries_then_success rt ctx (validated config) b
                (Do_operation rt ctx op) op (Do_update op)
                (Do_operation_closure rt ctx op) eq_refl
                d0 d1 d2 e1 e2 e3 e4 err1 err2 None [EvMinDelay d0] Hmax' H1 H2 H3)
      as (c1 & c2 & Hloop).
    erewrite Do_run; [|exact Hb|exact Hmin|rewrite Hmax'; exact Hloop].
    eexists. split; [reflexivity|].
    cbn [with_locals env locals log]. unfold cycle_trace.
    cbn [validated OnRetry]. rewrite Hon.
    repeat split.
    eexists. rewrite !app_assoc. reflexivity.
  - intros opv v H1 H2 Hlive Hop.
    assert (H3 : succeeds rt ctx (erase opv) e3 e4)
      by (split; [assumption|unfold erase; rewrite Hop; reflexivity]).
    destruct (run_two_retries_then_success rt ctx (validated config) b
                (DoWithValue_operation rt ctx opv) (erase opv) (DoWithValue_update opv)
                (DoWithValue_operation_closure rt ctx opv) eq_refl
                d0 d1 d2 e1 e2 e3 e4 err1 err2 (zero, None) [EvMinDelay d0] Hmax' H1 H2 H3)
      as (c1 & c2 & Hloop).
    erewrite (DoWithValue_run rt ctx zero);
      [|exact Hb|exact Hmin|rewrite Hmax'; exact Hloop].
    eexists. split.
    + cbn [locals]. unfold DoWithValue_update at 1. rewrite Hop. reflexivity.
    + cbn [with_locals env locals log]. unfold cycle_trace.
      cbn [validated OnRetry]. rewrite Hon.
      repeat split.
      eexists. rewrite !app_assoc. reflexivity.
Qed.

Lemma two_failures_then_success_witness :
  exists w',
    Do harness.runtime 0%nat (harness.config 5) (harness.flaky 3) (harness.fresh harness.start)
    = Some (None, w') /\
    env w' = harness.mkEnv 3 (30 * backoff.Millisecond) false [] /\
    op_calls (log w') = 3%nat /\ onRetry_calls (log w') = 2%nat /\
    waits (log w') = 2%nat /\
    exists tr, log w' = tr ++ [EvOp None None].
Proof.
  apply (proj1 (two_failures_then_success _ _ string harness.runtime ""%string 0%nat
                  (harness.config 5) harness.mockBackoff harness.observe
                  harness.start harness.start
                  (harness.mkEnv 1 (10 * backoff.Millisecond) false [])
                  (harness.mkEnv 2 (30 * backoff.Millisecond) false [])
                  (harness.mkEnv 3 (30 * backoff.Millisecond) false [])
                  (10 * backoff.Millisecond) (20 * backoff.Millisecond)
                  (20 * backoff.Millisecond)
                  (errorString "temporary error") (errorString "temporary error")
                  eq_refl eq_refl eq_refl eq_refl)).
  - unfold retried, fails_recoverably. do 2 eexists. repeat split; reflexivity.
  - unfold retried, fails_recoverably. do 2 eexists. repeat split; reflexivity.
  - split; reflexivity.
Defined.

(** Exhaustion in [Do]: with a budget of three attempts and three
    recoverable failures, the operation is called three times, [OnRetry]
    twice, and the error returned has both the sentinel and the last
    error of the operation in its chain. *)
Lemma Do_three_failures :
  forall (E Ctx : Type) (rt : Runtime E Ctx) (ctx : Ctx)
         (config : Config E) (b : Backoff E)
         (onRetry : N -> option error -> Duration -> E -> E)
         (op : E -> option error * E)
         (e0 e1 e2 e3 e4 : E) (d0 d1 d2 : Duration) (err1 err2 err3 : error),
    Backoff_ config = Some b ->
    MaxAttempts config = 3%N ->
    OnRetry config = Some onRetry ->
    MinDelay b e0 = (d0, e1) ->
    retried rt ctx config b op 1 d0 e1 err1 d1 e2 ->
    retried rt ctx config b op 2 d1 e2 err2 d2 e3 ->
    fails_recoverably rt ctx config op e3 err3 e4 ->
    exists r w',
      Do rt ctx config op (mkWorld e0 tt []) = Some (Some r, w') /\
      r = Errorf_w_w ErrAllAttemptsFailed (Some err3) /\
      op_calls (log w') = 3%nat /\ onRetry_calls (log w') = 2%nat /\
      Is (Some r) ErrAllAttemptsFailed = true /\ Is (Some r) err3 = true.
Proof.
  intros E Ctx rt ctx config b onRetry op e0 e1 e2 e3 e4 d0 d1 d2 err1 err2 err3
         Hb Hmax Hon Hmin H1 H2 H3.
  assert (Hmax' : MaxAttempts (validated config) = 3%N)
    by (apply validated_MaxAttempts; [assumption|discriminate]).
  destruct (run_three_failures rt ctx (validated config) b
              (Do_operation rt ctx op) op (Do_update op)
              (Do_operation_closure rt ctx op) eq_refl
              d0 d1 d2 e1 e2 e3 e4 err1 err2 err3 None [EvMinDelay d0] Hmax' H1 H2 H3)
    as (c1 & c2 & Hloop).
  erewrite Do_run; [|exact Hb|exact Hmin|rewrite Hmax'; exact Hloop].
  destruct H3 as (_ & Hop & _).
  assert (Hlast : Do_update op (Do_update op (Do_update op None e1) e2) e3 = Some err3)
    by (unfold Do_update at 1; rewrite Hop; reflexivity).
  eexists. eexists. split; [reflexivity|].
  cbn [with_locals env locals log]. rewrite Hlast.
  unfold cycle_trace. cbn [validated OnRetry]. rewrite Hon.
  split; [reflexivity|]. split; [reflexivity|]. split; [reflexivity|].
  split; [apply Errorf_w_w_Is_left|apply Errorf_w_w_Is_right].
Qed.

(** Exhaustion in [DoWithValue]: the same run, but the error returned
    wraps the sentinel only; the last error of the operation is printed
    into the message. *)
Lemma DoWithValue_three_failures :
  forall (E Ctx T : Type) (rt : Runtime E Ctx) (zero : T) (ctx : Ctx)
         (config : Config E) (b : Backoff E)
         (onRetry : N -> option error -> Duration -> E -> E)
         (opv : E -> (T * option error) * E)
         (e0 e1 e2 e3 e4 : E) (d0 d1 d2 : Duration) (err1 err2 err3 : error),
    Backoff_ config = Some b ->
    MaxAttempts config = 3%N ->
    OnRetry config = Some onRetry ->
    MinDelay b e0 = (d0, e1) ->
    retried rt ctx config b (erase opv) 1 d0 e1 err1 d1 e2 ->
    retried rt ctx config b (erase opv) 2 d1 e2 err2 d2 e3 ->
    fails_recoverably rt ctx config (erase opv) e3 err3 e4 ->
    exists w',
      DoWithValue rt zero ctx config opv (mkWorld e0 tt [])
      = Some ((zero, Some (wrapError ("all retry attempts failed: " ++ Error err3)
                             ErrAllAttemptsFailed)), w') /\
      op_calls (log w') = 3%nat /\ onRetry_calls (log w') = 2%nat.
Proof.
  intros E Ctx T rt zero ctx config b onRetry opv e0 e1 e2 e3 e4 d0 d1 d2 err1 err2 err3
         Hb Hmax Hon Hmin H1 H2 H3.
  assert (Hmax' : MaxAttempts (validated config) = 3%N)
    by (apply validated_MaxAttempts; [assumption|discriminate]).
  destruct (run_three_failures rt ctx (validated config) b
              (DoWithValue_operation rt ctx opv) (erase opv) (DoWithValue_update opv)
              (DoWithValue_operation_closure rt ctx opv) eq_refl
              d0 d1 d2 e1 e2 e3 e4 err1 err2 err3 (zero, None) [EvMinDelay d0] Hmax' H1 H2 H3)
    as (c1 & c2 & Hloop).
  erewrite (DoWithValue_run rt ctx zero);
    [|exact Hb|exact Hmin|rewrite Hmax'; exact Hloop].
  destruct H3 as (_ & Hop & _).
  assert (Hlast : forall captured, snd (DoWithValue_update opv captured e3) = Some err3).
  { intros captured. unfold DoWithValue_update. unfold erase in Hop.
    destruct (opv e3) as [[r err] e']. cbn [fst]. injection Hop as -> _. reflexivity. }
  eexists. split.
  - cbn [with_locals env locals log]. rewrite Hlast. reflexivity.
  - cbn [with_locals env locals log]. unfold cycle_trace.
    cbn [validated OnRetry]. rewrite Hon. split; reflexivity.
Qed.

(** C2, at the run of [TestDoWithValue], "failure after all attempts": a
    budget of three attempts and an operation that always fails with
    [errors.New("persistent error")].  Both [Do] and [DoWithValue] call
    the operation three times and [OnRetry] twice, and both return an
    error with the sentinel in its chain.  The error of [Do] also has the
    last error of the operation in its chain; the error of [DoWithValue]
    does not. *)
Theorem exhaustion_keeps_last_error_in_Do_only :
  let last := errorString "persistent error" in
  (exists r w',
     Do harness.runtime 0%nat (harness.config 3) (harness.failing (Some last))
       (harness.fresh harness.start) = Some (Some r, w') /\
     op_calls (log w') = 3%nat /\ onRetry_calls (log w') = 2%nat /\
     Is (Some r) ErrAllAttemptsFailed = true /\ Is (Some r) last = true) /\
  (exists r w',
     DoWithValue harness.runtime ""%string 0%nat (harness.config 3)
       (harness.failing_value (Some last)) (harness.fresh harness.start)
     = Some ((""%string, Some r), w') /\
     op_calls (log w') = 3%nat /\ onRetry_calls (log w') = 2%nat /\
     Is (Some r) ErrAllAttemptsFailed = true /\ Is (Some r) last = false).
Proof.
  intros last. split; eexists; eexists; (split; [vm_compute; reflexivity|]);
    repeat split.
Qed.

(** An unrecoverable error on the first call, under the default
    classifier: the operation is called once, [OnRetry] never, and [Do]
    hands the error back as it is, provided the sentinel is not in the
    chain of that error. *)
Lemma Do_unrecoverable_first_call :
  forall (E Ctx : Type) (rt : Runtime E Ctx) (ctx : Ctx)
         (config : Config E) (b : Backoff E) (op : E -> option error * E)
         (e0 e1 e2 : E) (d0 : Duration) (err : error),
    Backoff_ config = Some b ->
    MaxAttempts config = 5%N ->
    IsRecoverable config = None ->
    MinDelay b e0 = (d0, e1) ->
    ctx_Err rt ctx e1 = None ->
    op e1 = (NewUnrecoverableError (Some err), e2) ->
    Is (Some err) ErrAllAttemptsFailed = false ->
    exists w',
      Do rt ctx config op (mkWorld e0 tt []) = Some (NewUnrecoverableError (Some err), w') /\
      env w' = e2 /\
      op_calls (log w') = 1%nat /\ onRetry_calls (log w') = 0%nat /\
      IsUnrecoverableError (NewUnrecoverableError (Some err)) = true /\
      Is (NewUnrecoverableError (Some err)) ErrAllAttemptsFailed = false.
Proof.
  intros E Ctx rt ctx config b op e0 e1 e2 d0 err Hb Hmax Hdef Hmin Hlive Hop Hsent.
  assert (Hmax' : MaxAttempts (validated config) = 5%N)
    by (apply validated_MaxAttempts; [assumption|discriminate]).
  assert (Hcls : classifier (validated config) (NewUnrecoverableError (Some err)) = false).
  { unfold classifier, validated. cbn [IsRecoverable]. unfold classifier. rewrite Hdef.
    apply defaultRecoverable_unrecoverable. reflexivity. }
  assert (Hchain : Is (NewUnrecoverableError (Some err)) ErrAllAttemptsFailed = false)
    by exact Hsent.
  assert (Hloop := run_gives_up rt ctx (validated config) b
            (Do_operation rt ctx op) op (Do_update op)
            (Do_operation_closure rt ctx op) eq_refl
            4 0%N d0 e1 e2 (UnrecoverableError (Some err)) None [EvMinDelay d0]
            ltac:(rewrite Hmax'; reflexivity) Hlive Hop (or_intror (or_intror Hcls))).
  erewrite Do_run; [|exact Hb|exact Hmin|rewrite Hmax'; exact Hloop].
  eexists. split.
  - cbn [NewUnrecoverableError] in *. rewrite Hchain. reflexivity.
  - repeat split. exact Hchain.
Qed.

(** C6, at an operation of which the first call returns
    [NewUnrecoverableError] of the outcome of an inner, exhausted retry
    (an error with the sentinel [ErrAllAttemptsFailed] in its chain),
    budget of five attempts, default classifier.  The operation is called
    once and [OnRetry] never, but the error is not handed back as it is:
    [Do] wraps it in a new error that leads with the sentinel, and
    [DoWithValue] returns an error that is no longer found
    unrecoverable. *)
Theorem unrecoverable_exhaustion_is_rewrapped :
  let err := UnrecoverableError
               (Some (Errorf_w_w ErrAllAttemptsFailed (Some (errorString "persistent error")))) in
  (exists r w',
     Do harness.runtime 0%nat (harness.config 5) (harness.failing (Some err))
       (harness.fresh harness.start) = Some (Some r, w') /\
     op_calls (log w') = 1%nat /\ onRetry_calls (log w') = 0%nat /\
     r <> err /\ r = Errorf_w_w ErrAllAttemptsFailed (Some err)) /\
  (exists r w',
     DoWithValue harness.runtime ""%string 0%nat (harness.config 5)
       (harness.failing_value (Some err)) (harness.fresh harness.start)
     = Some ((""%string, Some r), w') /\
     op_calls (log w') = 1%nat /\ onRetry_calls (log w') = 0%nat /\
     r <> err /\ IsUnrecoverableError (Some r) = false).
Proof.
  intros err. split; eexists; eexists; (split; [vm_compute; reflexivity|]);
    repeat split; discriminate.
Qed.

End scenario_facts.

(** ** Cancellation *)

Module cancellation_facts.

Import retry scenario retry_facts executor_facts run_facts.

Lemma op_calls_cons (ev : event) (tr : list event) :
  op_calls (ev :: tr) = ((if is_EvOp ev then 1 else 0) + op_calls tr)%nat.
Proof. unfold op_calls, count. cbn [filter]. destruct (is_EvOp ev); reflexivity. Qed.

Lemma context_error_not_exhaustion (r : option error) :
  context_error r -> is_cancellation r = true /\ Is r ErrAllAttemptsFailed = false.
Proof. intros [->| ->]; split; reflexivity. Qed.

(** From the first cancelled wait to every cancelled wait. *)
Lemma quiet_after_every_cancelled_wait (tr : list event) :
  quiet_after_cancelled_wait tr ->
  forall pre delay timer ctxErr post,
    tr = pre ++ EvWait delay timer (Some ctxErr) :: post -> op_calls post = 0%nat.
Proof.
  intros H pre. revert tr H.
  induction pre as [|ev pre IH]; intros tr H delay timer ctxErr post ->.
  - exact H.
  - cbn [app quiet_after_cancelled_wait] in H.
    destruct (cancelled_wait ev).
    + rewrite op_calls_app, op_calls_cons in H. cbn [is_EvOp] in H. lia.
    + eapply IH; [exact H|reflexivity].
Qed.

Lemma cancelled_wait_in_trace (pre post : list event) delay timer ctxErr :
  existsb cancelled_wait (pre ++ EvWait delay timer (Some ctxErr) :: post) = true.
Proof. rewrite existsb_app. cbn. apply orb_true_r. Qed.

Ltac same_trace :=
  repeat first [rewrite <- app_assoc | progress cbn [app]]; reflexivity.

Section Trace.

Context {E Ctx L : Type}.
Variable rt : Runtime E Ctx.
Variable ctx : Ctx.
Variable config : Config E.
Variable b : Backoff E.
Variable operation : N -> world E L -> (bool * option error) * world E L.
Variable op : E -> option error * E.
Variable update : L -> E -> L.

Hypothesis closure : forall attempt w,
  operation attempt w =
  ((is_nil (fst (op (env w))), fst (op (env w))),
   mkWorld (snd (op (env w))) (update (locals w) (env w))
     (log w ++ [EvOp (ctx_Err rt ctx (env w)) (fst (op (env w)))])).

Hypothesis contract : ctx_contract rt ctx.

Hypothesis sticky : forall delay e,
  ctx_Err rt ctx e <> None -> ctx_Err rt ctx (snd (Delay b delay e)) <> None.

Hypothesis uint_MaxAttempts : (MaxAttempts config < 2 ^ 64)%N.

Lemma well_behaved_nil (r : option error) : well_behaved r [].
Proof. repeat split; [constructor|discriminate]. Qed.

Lemma well_behaved_call (r err : option error) : well_behaved r [EvOp None err].
Proof.
  repeat split; [repeat constructor|discriminate].
Qed.

Lemma loop_trace (fuel : nat) :
  forall attempt delay w r w',
    (N.to_nat (MaxAttempts config) <= fuel + N.to_nat attempt)%nat ->
    doRetry_loop rt ctx config b operation fuel attempt delay w = Some (r, w') ->
    exists tr, log w' = log w ++ tr /\ well_behaved r tr.
Proof.
  induction fuel as [|fuel IH]; intros attempt delay w r w' Hfuel Hrun;
    cbn [doRetry_loop] in Hrun.
  { injection Hrun as <- <-. exists []. rewrite app_nil_r.
    split; [reflexivity|apply well_behaved_nil]. }
  destruct (attempt <? MaxAttempts config)%N eqn:Hlt; cbn [negb] in Hrun.
  2:{ injection Hrun as <- <-. exists []. rewrite app_nil_r.
      split; [reflexivity|apply well_behaved_nil]. }
  apply N.ltb_lt in Hlt.
  destruct (ctx_Err rt ctx (env w)) as [ctxErr|] eqn:Hlive.
  { injection Hrun as <- <-. exists []. rewrite app_nil_r.
    split; [reflexivity|apply well_behaved_nil]. }
  rewrite closure, Hlive in Hrun.
  set (err := fst (op (env w))) in *. set (e1 := snd (op (env w))) in *.
  set (captured := update (locals w) (env w)) in *.
  assert (Hcall : forall r0,
            exists tr, log (mkWorld e1 captured (log w ++ [EvOp None err])) = log w ++ tr /\
                       well_behaved r0 tr).
  { intros r0. exists [EvOp None err]. split; [reflexivity|apply well_behaved_call]. }
  destruct (is_nil err); [injection Hrun as <- <-; apply Hcall|].
  cbn [env] in Hrun.
  destruct (Is err Canceled || Is err DeadlineExceeded
            || negb (is_nil (ctx_Err rt ctx e1)));
    [injection Hrun as <- <-; apply Hcall|].
  destruct (IsRecoverable config) as [isRecoverable|]; [|discriminate].
  destruct (negb (isRecoverable err)); [injection Hrun as <- <-; apply Hcall|].
  destruct (MaxAttempts config <=? uint_succ attempt)%N eqn:Hnext;
    [injection Hrun as <- <-; apply Hcall|].
  apply N.leb_gt in Hnext.
  assert (Hsucc : uint_succ attempt = (attempt + 1)%N)
    by (eapply uint_succ_small; eassumption).
  set (attempt' := uint_succ attempt) in *.
  set (announce := match OnRetry config with
                   | Some _ => [EvOnRetry attempt' err delay]
                   | None => []
                   end).
  set (e1' := notify config attempt' err delay e1).
  assert (Hrun' :
    (let '(timer, e) := ctx_select rt ctx delay e1' in
     let w3 := mkWorld e captured
                 (log w ++ EvOp None err :: announce
                        ++ [EvWait delay timer (ctx_Err rt ctx e)]) in
     if timer
     then let '(next, e0) := Delay b delay e in
          doRetry_loop rt ctx config b operation fuel attempt' next
            (mkWorld e0 captured (log w3 ++ [EvDelay delay next]))
     else Some (ctx_Err rt ctx e, w3)) = Some (r, w')).
  { subst announce e1'. unfold notify. rewrite <- Hrun.
    destruct (OnRetry config) as [onRetry|]; unfold emit, with_env; cbn [env locals log];
      destruct (ctx_select rt ctx delay _) as [timer e2]; cbn [env locals log];
      rewrite <- ?app_assoc; reflexivity. }
  clear Hrun.
  assert (Hlive_announce : Forall called_live (EvOp None err :: announce)).
  { constructor; [reflexivity|]. subst announce.
    destruct (OnRetry config); repeat constructor. }
  assert (Hquiet_announce : forall rest,
            quiet_after_cancelled_wait ((EvOp None err :: announce) ++ rest)
            = quiet_after_cancelled_wait rest).
  { intros rest. subst announce. destruct (OnRetry config); reflexivity. }
  assert (Hwait_announce : forall rest,
            existsb cancelled_wait ((EvOp None err :: announce) ++ rest)
            = existsb cancelled_wait rest).
  { intros rest. subst announce. destruct (OnRetry config); reflexivity. }
  destruct (ctx_select rt ctx delay e1') as [timer e2].
  destruct timer.
  - destruct (Delay b delay e2) as [next e3] eqn:Hd. cbn [log] in Hrun'.
    destruct (ctx_Err rt ctx e2) as [ctxErr|] eqn:Hfired.
    + (* the context was cancelled during the wait *)
      assert (Hstill : ctx_Err rt ctx e3 <> None).
      { replace e3 with (snd (Delay b delay e2)) by (rewrite Hd; reflexivity).
        apply sticky. congruence. }
      destruct (ctx_Err rt ctx e3) as [ctxErr'|] eqn:Hentry; [|congruence].
      destruct fuel as [|fuel]; [lia|].
      rewrite (loop_entry_cancelled rt ctx config b operation fuel attempt' next _ ctxErr')
        in Hrun' by (assumption || exact Hentry).
      injection Hrun' as <- <-. cbn [log].
      exists ((EvOp None err :: announce)
              ++ [EvWait delay true (Some ctxErr); EvDelay delay next]).
      split; [same_trace|].
      split; [|split].
      * apply Forall_app. split; [assumption|repeat constructor].
      * rewrite Hquiet_announce. reflexivity.
      * intros _. destruct (contract e3 _ Hentry) as [-> | ->]; [left|right]; reflexivity.
    + (* the wait elapsed with the context live *)
      apply IH in Hrun'; [|lia].
      destruct Hrun' as (tr & Hlog & Hlive_tr & Hquiet & Hwait). cbn [log] in Hlog.
      exists ((EvOp None err :: announce)
              ++ [EvWait delay true None; EvDelay delay next] ++ tr).
      split; [rewrite Hlog; same_trace|].
      split; [|split].
      * apply Forall_app. split; [assumption|]. repeat constructor. assumption.
      * rewrite Hquiet_announce. exact Hquiet.
      * rewrite Hwait_announce. exact Hwait.
  - injection Hrun' as <- <-. cbn [log].
    exists ((EvOp None err :: announce) ++ [EvWait delay false (ctx_Err rt ctx e2)]).
    split; [same_trace|].
    split; [|split].
    + apply Forall_app. split; [assumption|repeat constructor].
    + rewrite Hquiet_announce. cbn. destruct (ctx_Err rt ctx e2); reflexivity.
    + rewrite Hwait_announce. cbn.
      destruct (ctx_Err rt ctx e2) as [ctxErr|] eqn:Hfired; [|discriminate].
      intros _. destruct (contract e2 _ Hfired) as [-> | ->]; [left|right]; reflexivity.
Qed.

End Trace.

Section Entry.

Context {E Ctx : Type}.
Variable rt : Runtime E Ctx.
Variable ctx : Ctx.
Variable config : Config E.

Lemma validated_uint : (MaxAttempts config < 2 ^ 64)%N -> (MaxAttempts (validated config) < 2 ^ 64)%N.
Proof.
  intros H. unfold validated. cbn [MaxAttempts].
  destruct (MaxAttempts config =? 0)%N; [reflexivity|assumption].
Qed.

Lemma validated_budget : exists k, N.to_nat (MaxAttempts (validated config)) = S k.
Proof.
  unfold validated. cbn [MaxAttempts].
  destruct (MaxAttempts config) as [|p] eqn:Hn; cbn [N.eqb].
  - exists 0%nat. reflexivity.
  - exists (Nat.pred (Pos.to_nat p)). cbn [N.to_nat]. pose proof (Pos2Nat.is_pos p). lia.
Qed.

Lemma validated_positive : (0 < MaxAttempts (validated config))%N.
Proof.
  unfold validated. cbn [MaxAttempts].
  destruct (MaxAttempts config) as [|p]; reflexivity.
Qed.

(** The context is already cancelled when the first attempt begins. *)
Lemma Do_entry_cancelled (b : Backoff E) (op : E -> option error * E) (e e1 : E)
    (d0 : Duration) (ctxErr : error) (tr : list event) :
  ctx_contract rt ctx ->
  Backoff_ config = Some b ->
  MinDelay b e = (d0, e1) ->
  ctx_Err rt ctx e1 = Some ctxErr ->
  Do rt ctx config op (mkWorld e tt tr) = Some (Some ctxErr, mkWorld e1 tt (tr ++ [EvMinDelay d0])).
Proof.
  intros Hc Hb Hmin Hentry.
  destruct validated_budget as [k Hk].
  erewrite Do_run; [|exact Hb|exact Hmin|].
  2:{ rewrite Hk. apply loop_entry_cancelled; [apply validated_positive|exact Hentry]. }
  destruct (Hc e1 _ Hentry) as [-> | ->]; reflexivity.
Qed.

Lemma DoWithValue_entry_cancelled {T : Type} (zero : T) (b : Backoff E)
    (op : E -> (T * option error) * E) (e e1 : E)
    (d0 : Duration) (ctxErr : error) (tr : list event) :
  ctx_contract rt ctx ->
  Backoff_ config = Some b ->
  MinDelay b e = (d0, e1) ->
  ctx_Err rt ctx e1 = Some ctxErr ->
  DoWithValue rt zero ctx config op (mkWorld e tt tr)
  = Some ((zero, Some ctxErr), mkWorld e1 tt (tr ++ [EvMinDelay d0])).
Proof.
  intros Hc Hb Hmin Hentry.
  destruct validated_budget as [k Hk].
  erewrite (DoWithValue_run rt ctx zero); [|exact Hb|exact Hmin|].
  2:{ rewrite Hk. apply loop_entry_cancelled; [apply validated_positive|exact Hentry]. }
  destruct (Hc e1 _ Hentry) as [-> | ->]; reflexivity.
Qed.

(** From the trace of the loop to the trace of the run. *)
Lemma run_respects_cancellation (d0 : Duration) (r0 r : option error) (tr : list event) :
  Forall called_live tr ->
  quiet_after_cancelled_wait tr ->
  (existsb cancelled_wait tr = true -> context_error r0) ->
  (Is r0 ErrAllAttemptsFailed = false -> r = r0) ->
  respects_cancellation r (EvMinDelay d0 :: tr).
Proof.
  intros Hlive Hquiet Hwait Hr. split; [constructor; [exact I|assumption]|].
  intros pre delay timer ctxErr post Hsplit. split.
  - eapply (quiet_after_every_cancelled_wait (EvMinDelay d0 :: tr)); [exact Hquiet|exact Hsplit].
  - assert (Hin : existsb cancelled_wait tr = true).
    { change (existsb cancelled_wait (EvMinDelay d0 :: tr) = true).
      rewrite Hsplit. apply cancelled_wait_in_trace. }
    destruct (context_error_not_exhaustion r0 (Hwait Hin)) as [H1 H2].
    rewrite (Hr H2). split; assumption.
Qed.

Lemma respects_cancellation_nil (r : option error) : respects_cancellation r [].
Proof.
  split; [constructor|]. intros [|ev pre] delay timer ctxErr post H; discriminate H.
Qed.

Hypothesis contract : ctx_contract rt ctx.
Hypothesis sticky : ctx_sticky rt ctx config.
Hypothesis uint_MaxAttempts : (MaxAttempts config < 2 ^ 64)%N.

Lemma Do_respects_cancellation (op : E -> option error * E) (e : E) :
  exists r w',
    Do rt ctx config op (mkWorld e tt []) = Some (r, w') /\ respects_cancellation r (log w').
Proof.
  destruct (Backoff_ config) as [b|] eqn:Hb.
  - destruct (MinDelay b e) as [d0 e1] eqn:Hmin.
    destruct (doRetry_loop rt ctx (validated config) b (Do_operation rt ctx op)
                (N.to_nat (MaxAttempts (validated config))) 0%N d0
                (mkWorld e1 None ([] ++ [EvMinDelay d0]))) as [[r0 w0]|] eqn:Hloop.
    + destruct (loop_trace rt ctx (validated config) b (Do_operation rt ctx op) op
                  (Do_update op) (Do_operation_closure rt ctx op) contract
                  (fun delay e => sticky b delay e Hb) (validated_uint uint_MaxAttempts)
                  (N.to_nat (MaxAttempts (validated config))) 0%N _ _ _ _
                  (Nat.le_add_r _ _) Hloop) as (tr & Hlog & Hlive & Hquiet & Hwait).
      eexists. eexists. split.
      * eapply Do_run; [exact Hb|exact Hmin|exact Hloop].
      * cbn [with_locals log]. rewrite Hlog. cbn [log app].
        eapply run_respects_cancellation; eauto.
        intros Hne. rewrite Hne. reflexivity.
    + exfalso. eapply loop_returns; [|exact Hloop]. reflexivity.
  - eexists. eexists. split.
    + unfold Do. rewrite (validateConfig_nil config Hb). reflexivity.
    + apply respects_cancellation_nil.
Qed.

Lemma DoWithValue_respects_cancellation {T : Type} (zero : T)
    (op : E -> (T * option error) * E) (e : E) :
  exists v r w',
    DoWithValue rt zero ctx config op (mkWorld e tt []) = Some ((v, r), w') /\
    respects_cancellation r (log w').
Proof.
  destruct (Backoff_ config) as [b|] eqn:Hb.
  - destruct (MinDelay b e) as [d0 e1] eqn:Hmin.
    destruct (doRetry_loop rt ctx (validated config) b (DoWithValue_operation rt ctx op)
                (N.to_nat (MaxAttempts (validated config))) 0%N d0
                (mkWorld e1 (zero, None) ([] ++ [EvMinDelay d0]))) as [[r0 w0]|] eqn:Hloop.
    + destruct (loop_trace rt ctx (validated config) b (DoWithValue_operation rt ctx op)
                  (erase op) (DoWithValue_update op)
                  (DoWithValue_operation_closure rt ctx op) contract
                  (fun delay e => sticky b delay e Hb) (validated_uint uint_MaxAttempts)
                  (N.to_nat (MaxAttempts (validated config))) 0%N _ _ _ _
                  (Nat.le_add_r _ _) Hloop) as (tr & Hlog & Hlive & Hquiet & Hwait).
      pose proof (DoWithValue_run rt ctx zero config b op (mkWorld e tt []) d0 e1 r0 w0
                    Hb Hmin Hloop) as Hrun.
      destruct r0 as [err|].
      * eexists. eexists. eexists. split; [exact Hrun|].
        cbn [with_locals log]. rewrite Hlog. cbn [log app].
        eapply run_respects_cancellation; eauto.
        intros Hne. rewrite Hne. reflexivity.
      * eexists. eexists. eexists. split; [exact Hrun|].
        cbn [with_locals log]. rewrite Hlog. cbn [log app].
        eapply run_respects_cancellation; eauto.
    + exfalso. eapply loop_returns; [|exact Hloop]. reflexivity.
  - eexists. eexists. eexists. split.
    + unfold DoWithValue. rewrite (validateConfig_nil config Hb). reflexivity.
    + apply respects_cancellation_nil.
Qed.

End Entry.

(** C7.  Under the contract of [context.Context] ([Err] is nil,
    [Canceled] or [DeadlineExceeded], and a cancelled context stays
    cancelled while the policy computes a delay), every run of [Do] and
    of [DoWithValue] returns and respects cancellation: each call of the
    operation was made while [ctx.Err()] was nil, and if the context was
    cancelled by the end of some wait between attempts, the operation is
    not called after that wait and the error returned is
    [context.Canceled] or [context.DeadlineExceeded], not the exhaustion
    sentinel.  When the context is already cancelled as the first attempt
    begins, the run returns the context's error and has not called the
    operation; the same holds at the entry of every later attempt of the
    loop. *)
Theorem cancellation_is_respected :
  forall (E Ctx T : Type) (rt : Runtime E Ctx) (zero : T) (ctx : Ctx) (config : Config E),
    ctx_contract rt ctx ->
    ctx_sticky rt ctx config ->
    (MaxAttempts config < 2 ^ 64)%N ->
    (forall (op : E -> option error * E) (e : E),
       exists r w',
         Do rt ctx config op (mkWorld e tt []) = Some (r, w') /\
         respects_cancellation r (log w')) /\
    (forall (opv : E -> (T * option error) * E) (e : E),
       exists v r w',
         DoWithValue rt zero ctx config opv (mkWorld e tt []) = Some ((v, r), w') /\
         respects_cancellation r (log w')) /\
    (forall (b : Backoff E) (e e1 : E) (d0 : Duration) (ctxErr : error),
       Backoff_ config = Some b ->
       MinDelay b e = (d0, e1) ->
       ctx_Err rt ctx e1 = Some ctxErr ->
       (forall op : E -> option error * E,
          Do rt ctx config op (mkWorld e tt [])
          = Some (Some ctxErr, mkWorld e1 tt [EvMinDelay d0])) /\
       (forall opv : E -> (T * option error) * E,
          DoWithValue rt zero ctx config opv (mkWorld e tt [])
          = Some ((zero, Some ctxErr), mkWorld e1 tt [EvMinDelay d0]))) /\
    (forall (L : Type) (b : Backoff E)
            (operation : N -> world E L -> (bool * option error) * world E L)
            (fuel : nat) (attempt : N) (delay : Duration) (w : world E L) (ctxErr : error),
       (attempt < MaxAttempts config)%N ->
       ctx_Err rt ctx (env w) = Some ctxErr ->
       doRetry_loop rt ctx config b operation (S fuel) attempt delay w
       = Some (Some ctxErr, w)).
Proof.
  intros E Ctx T rt zero ctx config Hcontract Hsticky Huint.
  split; [|split; [|split]].
  - intros op e. apply Do_respects_cancellation; assumption.
  - intros opv e. apply DoWithValue_respects_cancellation; assumption.
  - intros b e e1 d0 ctxErr Hb Hmin Hentry. split.
    + intros op. apply (Do_entry_cancelled rt ctx config b op e e1 d0 ctxErr []); assumption.
    + intros opv.
      apply (DoWithValue_entry_cancelled rt ctx config zero b opv e e1 d0 ctxErr []);
        assumption.
  - intros L b operation fuel attempt delay w ctxErr Hlt Hentry.
    apply loop_entry_cancelled; assumption.
Qed.

(** The harness keeps the contract of contexts for its root context. *)
Lemma harness_ctx_contract : ctx_contract harness.runtime 0%nat.
Proof.
  intros e err H. cbn in H. unfold harness.Err in H.
  destruct (harness.cancelled e); [|discriminate].
  left. congruence.
Qed.

Lemma harness_ctx_sticky (onRetry : option (N -> option error -> Duration -> harness.Env -> harness.Env))
    (n : N) :
  ctx_sticky harness.runtime 0%nat (mkConfig n (Some harness.mockBackoff) None onRetry).
Proof. intros b delay e [= <-] H. exact H. Qed.

(** The run of the cancellation test: the context is cancelled while the
    executor waits between the first and the second attempt. *)
Lemma cancellation_is_respected_witness :
  exists r w',
    Do harness.runtime 0%nat
      (mkConfig 5 (Some harness.mockBackoff) None (Some harness.cancel_on_first_retry))
      (harness.failing harness.persistent) (mkWorld harness.start tt [])
    = Some (r, w') /\
    respects_cancellation r (log w').
Proof.
  exact (proj1 (cancellation_is_respected _ _ string harness.runtime ""%string 0%nat
                  (mkConfig 5 (Some harness.mockBackoff) None
                     (Some harness.cancel_on_first_retry))
                  harness_ctx_contract (harness_ctx_sticky _ _) eq_refl)
           (harness.failing harness.persistent) harness.start).
Defined.

(** In that run the operation is called once and the error is
    [context.Canceled]. *)
Lemma cancelled_during_first_wait :
  Do harness.runtime 0%nat
    (mkConfig 5 (Some harness.mockBackoff) None (Some harness.cancel_on_first_retry))
    (harness.failing harness.persistent) (mkWorld harness.start tt [])
  = Some (Some Canceled,
          mkWorld (harness.mkEnv 1 0 true []) tt
            [EvMinDelay (10 * backoff.Millisecond);
             EvOp None harness.persistent;
             EvOnRetry 1 harness.persistent (10 * backoff.Millisecond);
             EvWait (10 * backoff.Millisecond) false (Some Canceled)]).
Proof. reflexivity. Qed.

End cancellation_facts.

(** ** Every run of the loop has the shape of [loop_run] *)

Module run_shape_facts.

Import retry scenario runs retry_facts executor_facts run_facts.

Lemma DoWithValue_update_lastErr {E T : Type} (op : E -> (T * option error) * E)
    (captured : T * option error) (e : E) :
  snd (DoWithValue_update op captured e) =
  match fst (erase op e) with
  | Some err => Some err
  | None => snd captured
  end.
Proof.
  unfold DoWithValue_update, erase. destruct (op e) as [[r [err|]] e']; reflexivity.
Qed.

Section Shape.

Context {E Ctx L : Type}.
Variable rt : Runtime E Ctx.
Variable ctx : Ctx.
Variable config : Config E.
Variable b : Backoff E.
Variable operation : N -> world E L -> (bool * option error) * world E L.
Variable op : E -> option error * E.
Variable update : L -> E -> L.

Hypothesis closure : forall attempt w,
  operation attempt w =
  ((is_nil (fst (op (env w))), fst (op (env w))),
   mkWorld (snd (op (env w))) (update (locals w) (env w))
     (log w ++ [EvOp (ctx_Err rt ctx (env w)) (fst (op (env w)))])).

Hypothesis uint_MaxAttempts : (MaxAttempts config < 2 ^ 64)%N.

(** Among what the closure captures is the variable [lastErr]. *)
Variable lastErr : L -> option error.

Hypothesis lastErr_update : forall captured e,
  lastErr (update captured e) =
  match fst (op e) with
  | Some err => Some err
  | None => lastErr captured
  end.

Lemma last_failure_announce (attempt : N) (err : error) (delay : Duration)
    (tr : list event) (before : option error) :
  last_failure (announce config attempt err delay ++ tr) before = last_failure tr before.
Proof. unfold announce. destruct (OnRetry config); reflexivity. Qed.

Lemma loop_run_sound (fuel : nat) :
  forall attempt delay w r w',
    (N.to_nat (MaxAttempts config) <= fuel + N.to_nat attempt)%nat ->
    doRetry_loop rt ctx config b operation fuel attempt delay w = Some (r, w') ->
    exists tr,
      log w' = log w ++ tr /\
      loop_run rt ctx config b attempt delay tr r /\
      lastErr (locals w') = last_failure tr (lastErr (locals w)).
Proof.
  induction fuel as [|fuel IH]; intros attempt delay w r w' Hfuel Hrun;
    cbn [doRetry_loop] in Hrun.
  { injection Hrun as <- <-. exists []. rewrite app_nil_r.
    split; [reflexivity|]. split; [apply lr_budget_spent; lia|reflexivity]. }
  destruct (attempt <? MaxAttempts config)%N eqn:Hlt; cbn [negb] in Hrun.
  2:{ apply N.ltb_ge in Hlt. injection Hrun as <- <-. exists []. rewrite app_nil_r.
      split; [reflexivity|]. split; [apply lr_budget_spent; assumption|reflexivity]. }
  apply N.ltb_lt in Hlt.
  destruct (ctx_Err rt ctx (env w)) as [ctxErr|] eqn:Hlive.
  { injection Hrun as <- <-. exists []. rewrite app_nil_r.
    split; [reflexivity|]. split; [apply lr_entry_cancelled; eauto|reflexivity]. }
  rewrite closure, Hlive in Hrun.
  set (e1 := snd (op (env w))) in *.
  pose proof (lastErr_update (locals w) (env w)) as Hcaptured.
  set (captured := update (locals w) (env w)) in *.
  destruct (fst (op (env w))) as [err|]; cbn [is_nil] in Hrun.
  2:{ injection Hrun as <- <-. exists [EvOp None None].
      split; [reflexivity|]. split; [apply lr_success; assumption|exact Hcaptured]. }
  cbn [env] in Hrun.
  assert (Hcall : forall r0,
            loop_run rt ctx config b attempt delay [EvOp None (Some err)] r0 ->
            exists tr,
              log (mkWorld e1 captured (log w ++ [EvOp None (Some err)])) = log w ++ tr /\
              loop_run rt ctx config b attempt delay tr r0 /\
              lastErr (locals (mkWorld e1 captured (log w ++ [EvOp None (Some err)])))
              = last_failure tr (lastErr (locals w))).
  { intros r0 Hr0. exists [EvOp None (Some err)].
    split; [reflexivity|]. split; [exact Hr0|exact Hcaptured]. }
  destruct (Is (Some err) Canceled || Is (Some err) DeadlineExceeded) eqn:Hsignal.
  { injection Hrun as <- <-. apply Hcall.
    apply lr_gave_up; [assumption|left; exact Hsignal]. }
  cbn [orb] in Hrun.
  destruct (ctx_Err rt ctx e1) as [ctxErr|] eqn:Hlive1; cbn [is_nil negb] in Hrun.
  { injection Hrun as <- <-. apply Hcall.
    apply lr_gave_up; [assumption|]. right. left. exists e1. congruence. }
  destruct (IsRecoverable config) as [isRecoverable|] eqn:Hp; [|discriminate].
  assert (Hcls : classifier config = isRecoverable) by (unfold classifier; rewrite Hp; reflexivity).
  destruct (isRecoverable (Some err)) eqn:Hrec; cbn [negb] in Hrun.
  2:{ injection Hrun as <- <-. apply Hcall.
      apply lr_gave_up; [assumption|]. right. right. rewrite Hcls. exact Hrec. }
  assert (Hretriable : retriable config err) by (split; [exact Hsignal|rewrite Hcls; exact Hrec]).
  assert (Hsucc : uint_succ attempt = (attempt + 1)%N)
    by (eapply uint_succ_small; eassumption).
  rewrite Hsucc in Hrun.
  destruct (MaxAttempts config <=? attempt + 1)%N eqn:Hnext.
  { apply N.leb_le in Hnext. injection Hrun as <- <-. apply Hcall.
    apply lr_exhausted; assumption. }
  apply N.leb_gt in Hnext.
  set (e1' := notify config (attempt + 1) (Some err) delay e1).
  assert (Hrun' :
    (let '(timer, e) := ctx_select rt ctx delay e1' in
     let w3 := mkWorld e captured
                 (log w ++ EvOp None (Some err) :: announce config (attempt + 1) err delay
                        ++ [EvWait delay timer (ctx_Err rt ctx e)]) in
     if timer
     then let '(next, e0) := Delay b delay e in
          doRetry_loop rt ctx config b operation fuel (attempt + 1) next
            (mkWorld e0 captured (log w3 ++ [EvDelay delay next]))
     else Some (ctx_Err rt ctx e, w3)) = Some (r, w')).
  { subst e1'. unfold notify, announce. rewrite <- Hrun.
    destruct (OnRetry config) as [onRetry|]; unfold emit, with_env; cbn [env locals log];
      destruct (ctx_select rt ctx delay _) as [timer e2]; cbn [env locals log];
      rewrite <- ?app_assoc; reflexivity. }
  clear Hrun.
  destruct (ctx_select rt ctx delay e1') as [timer e2] eqn:Hsel.
  destruct timer.
  - destruct (Delay b delay e2) as [next e3] eqn:Hd. cbn [log] in Hrun'.
    apply IH in Hrun'; [|lia].
    destruct Hrun' as (tr & Hlog & Htr & Hlast). cbn [log locals] in Hlog, Hlast.
    exists (EvOp None (Some err) :: announce config (attempt + 1) err delay
            ++ [EvWait delay true (ctx_Err rt ctx e2); EvDelay delay next] ++ tr).
    split; [|split].
    + rewrite Hlog. repeat first [rewrite <- app_assoc | progress cbn [app]]. reflexivity.
    + apply lr_retry; try assumption. exists e2. rewrite Hd. reflexivity.
    + cbn [last_failure]. rewrite last_failure_announce. cbn [app last_failure].
      rewrite Hlast, Hcaptured. reflexivity.
  - injection Hrun' as <- <-. cbn [log].
    exists (EvOp None (Some err) :: announce config (attempt + 1) err delay
            ++ [EvWait delay false (ctx_Err rt ctx e2)]).
    split; [reflexivity|]. split.
    + apply lr_interrupted; try assumption. exists e1', e2. split; [exact Hsel|reflexivity].
    + cbn [locals last_failure]. rewrite last_failure_announce. cbn [last_failure].
      exact Hcaptured.
Qed.

End Shape.

Section Entry_points.

Context {E Ctx : Type}.
Variable rt : Runtime E Ctx.
Variable ctx : Ctx.
Variable config : Config E.

Hypothesis uint_MaxAttempts : (MaxAttempts config < 2 ^ 64)%N.

Lemma validated_uint_MaxAttempts : (MaxAttempts (validated config) < 2 ^ 64)%N.
Proof.
  unfold validated. cbn [MaxAttempts].
  destruct (MaxAttempts config =? 0)%N; [reflexivity|assumption].
Qed.

(** Every run of [Do] returns, and is a run of the executor. *)
Lemma Do_executor_run (op : E -> option error * E) (e : E) :
  exists r w',
    Do rt ctx config op (mkWorld e tt []) = Some (r, w') /\
    executor_run rt ctx config Errorf_w_w e r (log w').
Proof.
  unfold executor_run.
  destruct (Backoff_ config) as [b|] eqn:Hb.
  - destruct (MinDelay b e) as [d0 e1] eqn:Hmin. cbn [fst].
    destruct (doRetry_loop rt ctx (validated config) b (Do_operation rt ctx op)
                (N.to_nat (MaxAttempts (validated config))) 0%N d0
                (mkWorld e1 None ([] ++ [EvMinDelay d0]))) as [[r0 w0]|] eqn:Hloop.
    + destruct (loop_run_sound rt ctx (validated config) b (Do_operation rt ctx op) op
                  (Do_update op) (Do_operation_closure rt ctx op)
                  validated_uint_MaxAttempts (fun l => l) (fun l e0 => eq_refl)
                  (N.to_nat (MaxAttempts (validated config))) 0%N _ _ _ _
                  (Nat.le_add_r _ _) Hloop) as (tr & Hlog & Hrun & Hlast).
      cbn [log locals app] in Hlog, Hlast.
      eexists. eexists. split.
      * eapply Do_run; [exact Hb|exact Hmin|exact Hloop].
      * cbn [with_locals log]. exists tr, r0.
        split; [exact Hlog|]. split; [exact Hrun|]. rewrite Hlast. reflexivity.
    + exfalso. eapply loop_returns; [|exact Hloop]. reflexivity.
  - eexists. eexists. split.
    + unfold Do. rewrite (validateConfig_nil config Hb). reflexivity.
    + split; reflexivity.
Qed.

(** So is every run of [DoWithValue]; it returns the zero value with
    every error. *)
Lemma DoWithValue_executor_run {T : Type} (zero : T) (op : E -> (T * option error) * E)
    (e : E) :
  exists v r w',
    DoWithValue rt zero ctx config op (mkWorld e tt []) = Some ((v, r), w') /\
    executor_run rt ctx config Errorf_w_v e r (log w') /\
    (r <> None -> v = zero).
Proof.
  unfold executor_run.
  destruct (Backoff_ config) as [b|] eqn:Hb.
  - destruct (MinDelay b e) as [d0 e1] eqn:Hmin. cbn [fst].
    destruct (doRetry_loop rt ctx (validated config) b (DoWithValue_operation rt ctx op)
                (N.to_nat (MaxAttempts (validated config))) 0%N d0
                (mkWorld e1 (zero, None) ([] ++ [EvMinDelay d0]))) as [[r0 w0]|] eqn:Hloop.
    + destruct (loop_run_sound rt ctx (validated config) b (DoWithValue_operation rt ctx op)
                  (erase op) (DoWithValue_update op)
                  (DoWithValue_operation_closure rt ctx op)
                  validated_uint_MaxAttempts snd
                  (fun l e0 => DoWithValue_update_lastErr op l e0)
                  (N.to_nat (MaxAttempts (validated config))) 0%N _ _ _ _
                  (Nat.le_add_r _ _) Hloop) as (tr & Hlog & Hrun & Hlast).
      cbn [log locals app snd] in Hlog, Hlast.
      pose proof (DoWithValue_run rt ctx zero config b op (mkWorld e tt []) d0 e1 r0 w0
                    Hb Hmin Hloop) as HDo.
      destruct r0 as [err|].
      * eexists. eexists. eexists. split; [exact HDo|].
        cbn [with_locals log]. split; [|reflexivity]. exists tr, (Some err).
        split; [exact Hlog|]. split; [exact Hrun|]. rewrite Hlast. reflexivity.
      * eexists. eexists. eexists. split; [exact HDo|].
        cbn [with_locals log]. split; [|intros H; contradiction H; reflexivity].
        exists tr, None.
        split; [exact Hlog|]. split; [exact Hrun|]. reflexivity.
    + exfalso. eapply loop_returns; [|exact Hloop]. reflexivity.
  - eexists. eexists. eexists. split.
    + unfold DoWithValue. rewrite (validateConfig_nil config Hb). reflexivity.
    + split; [split; reflexivity|reflexivity].
Qed.

End Entry_points.

End run_shape_facts.

(** ** What the shape of a run implies *)

Module run_grammar_facts.

Import retry scenario runs retry_facts executor_facts run_facts.

Lemma count_app (p : event -> bool) (l1 l2 : list event) :
  count p (l1 ++ l2) = (count p l1 + count p l2)%nat.
Proof. unfold count. rewrite filter_app, length_app. reflexivity. Qed.

(** An event found in a trace lies behind a prefix that cannot hold
    it. *)
Lemma split_skip (p : event -> bool) (skipped : list event) :
  forall pre ev post tr,
    pre ++ ev :: post = skipped ++ tr ->
    p ev = true ->
    forallb (fun x => negb (p x)) skipped = true ->
    exists pre', pre = skipped ++ pre' /\ tr = pre' ++ ev :: post.
Proof.
  induction skipped as [|x skipped IH]; intros pre ev post tr Heq Hev Hskip.
  - exists pre. split; [reflexivity|symmetry; exact Heq].
  - cbn [forallb] in Hskip. apply andb_prop in Hskip. destruct Hskip as [Hx Hskip].
    destruct pre as [|y pre]; cbn [app] in Heq.
    + injection Heq as -> _. rewrite Hev in Hx. discriminate.
    + injection Heq as -> Heq.
      destruct (IH pre ev post tr Heq Hev Hskip) as (pre' & -> & ->).
      exists pre'. split; reflexivity.
Qed.

Section Grammar.

Context {E Ctx : Type}.
Variable rt : Runtime E Ctx.
Variable ctx : Ctx.
Variable config : Config E.
Variable b : Backoff E.

Local Abbreviation run := (loop_run rt ctx config b).

Lemma announce_no_call (attempt : N) (err : error) (delay : Duration) :
  forallb (fun x => negb (is_EvOp x)) (announce config attempt err delay) = true.
Proof. unfold announce. destruct (OnRetry config); reflexivity. Qed.

(** The budget of attempts. *)
Lemma loop_run_budget (attempt : N) (delay : Duration) (tr : list event) (r : option error) :
  run attempt delay tr r ->
  (op_calls tr <= N.to_nat (MaxAttempts config - attempt))%nat /\
  (waits tr <= Nat.pred (N.to_nat (MaxAttempts config - attempt)))%nat /\
  (waits tr <= op_calls tr)%nat /\
  onRetry_calls tr = match OnRetry config with Some _ => waits tr | None => 0%nat end /\
  (count is_backoff_call tr <= waits tr)%nat.
Proof.
  intros H. induction H as
    [attempt delay Hge
    |attempt delay ctxErr Hlt Hentry
    |attempt delay Hlt
    |attempt delay err Hlt Hstop
    |attempt delay err Hlt Hlast Hretry
    |attempt delay err ctxErr Hlt Hretry Hwait
    |attempt delay err ctxErr next tr r Hlt Hretry Hnext Hrun IH];
    unfold op_calls, waits, onRetry_calls in *.
  1-5: cbn; destruct (OnRetry config); repeat split; lia.
  - unfold announce. destruct (OnRetry config); cbn; repeat split; lia.
  - destruct IH as (IH1 & IH2 & IH3 & IH4 & IH5).
    unfold count in *.
    unfold announce. destruct (OnRetry config); cbn;
      rewrite ?IH4; repeat split; lia.
Qed.

(** A call that succeeds, or fails with an error that is a cancellation
    signal or that the classifier rejects, is the last step of the run,
    and its error is the outcome of the loop. *)
Lemma loop_run_terminal_call (attempt : N) (delay : Duration) (tr : list event)
    (r : option error) :
  run attempt delay tr r ->
  forall pre c err post,
    tr = pre ++ EvOp c err :: post ->
    err = None \/ is_cancellation err = true \/ classifier config err = false ->
    post = [] /\ r = err.
Proof.
  intros H. induction H as
    [attempt delay Hge
    |attempt delay ctxErr Hlt Hentry
    |attempt delay Hlt
    |attempt delay err Hlt Hstop
    |attempt delay err Hlt Hlast Hretry
    |attempt delay err ctxErr Hlt Hretry Hwait
    |attempt delay err ctxErr next tr r Hlt Hretry Hnext Hrun IH];
    intros pre c err' post Heq Hterminal.
  1-2: destruct pre; discriminate Heq.
  1-3: destruct pre as [|x [|y pre]]; try discriminate Heq;
       injection Heq as _ <- <-; try (split; reflexivity).
  - exfalso. destruct Hretry as [Hsig Hcls].
    destruct Hterminal as [Hnil | [Hs | Hc]]; congruence.
  - exfalso. destruct pre as [|x pre]; cbn [app] in Heq.
    + injection Heq as _ <- _. destruct Hretry as [Hsig Hcls].
      destruct Hterminal as [Hnil | [Hs | Hc]]; congruence.
    + injection Heq as _ Heq. symmetry in Heq.
      destruct (split_skip is_EvOp (announce config (attempt + 1) err delay
                                     ++ [EvWait delay false ctxErr]) pre (EvOp c err') post [])
        as (pre' & _ & Hnil).
      * rewrite app_nil_r. exact Heq.
      * reflexivity.
      * rewrite forallb_app, announce_no_call. reflexivity.
      * destruct pre'; discriminate Hnil.
  - destruct pre as [|x pre]; cbn [app] in Heq.
    + exfalso. injection Heq as _ <- _. destruct Hretry as [Hsig Hcls].
      destruct Hterminal as [Hnil | [Hs | Hc]]; congruence.
    + injection Heq as _ Heq. symmetry in Heq.
      destruct (split_skip is_EvOp (announce config (attempt + 1) err delay
                                     ++ [EvWait delay true ctxErr; EvDelay delay next])
                  pre (EvOp c err') post tr)
        as (pre' & _ & Htr).
      * rewrite <- app_assoc. exact Heq.
      * reflexivity.
      * rewrite forallb_app, announce_no_call. reflexivity.
      * exact (IH pre' c err' post Htr Hterminal).
Qed.

(** An outcome of nil comes from a call that succeeded, which is then
    the last step. *)
Lemma loop_run_nil (attempt : N) (delay : Duration) (tr : list event) (r : option error) :
  ctx_done_contract rt ctx ->
  run attempt delay tr r ->
  r = None ->
  exists pre, tr = pre ++ [EvOp None None].
Proof.
  intros Hdone H. induction H as
    [attempt delay Hge
    |attempt delay ctxErr Hlt Hentry
    |attempt delay Hlt
    |attempt delay err Hlt Hstop
    |attempt delay err Hlt Hlast Hretry
    |attempt delay err ctxErr Hlt Hretry Hwait
    |attempt delay err ctxErr next tr r Hlt Hretry Hnext Hrun IH];
    intros Hr; try discriminate Hr.
  - exists []. reflexivity.
  - exfalso. destruct Hwait as (e & e' & Hsel & Herr). subst ctxErr.
    exact (Hdone delay e e' Hsel Hr).
  - destruct (IH Hr) as [pre ->].
    exists (EvOp None (Some err) :: announce config (attempt + 1) err delay
              ++ [EvWait delay true ctxErr; EvDelay delay next] ++ pre).
    cbn [app]. rewrite <- !app_assoc. reflexivity.
Qed.

(** The arguments of [OnRetry], and the delays of the waits. *)
Lemma loop_run_arguments (attempt : N) (delay : Duration) (tr : list event)
    (r : option error) :
  run attempt delay tr r ->
  onRetry_attempts tr
  = match OnRetry config with
    | Some _ => attempts_from (attempt + 1) (waits tr)
    | None => []
    end /\
  onRetry_delays tr = match OnRetry config with Some _ => wait_delays tr | None => [] end /\
  onRetry_errors tr
  = match OnRetry config with Some _ => firstn (waits tr) (op_errors tr) | None => [] end /\
  wait_delays tr = firstn (waits tr) (delay :: policy_delays tr) /\
  delay_inputs tr = elapsed_waits tr.
Proof.
  intros H. induction H as
    [attempt delay Hge
    |attempt delay ctxErr Hlt Hentry
    |attempt delay Hlt
    |attempt delay err Hlt Hstop
    |attempt delay err Hlt Hlast Hretry
    |attempt delay err ctxErr Hlt Hretry Hwait
    |attempt delay err ctxErr next tr r Hlt Hretry Hnext Hrun IH];
    unfold op_calls, waits, onRetry_calls in *.
  1-5: cbn; destruct (OnRetry config); repeat split; reflexivity.
  - unfold announce. destruct (OnRetry config); cbn; repeat split; reflexivity.
  - destruct IH as (IH1 & IH2 & IH3 & IH4 & IH5).
    unfold count in *.
    unfold announce. destruct (OnRetry config); cbn; repeat split; congruence.
Qed.

(** Every wait lasts a delay that the policy returned. *)
Lemma loop_run_delays (P : Duration -> Prop) (attempt : N) (delay : Duration)
    (tr : list event) (r : option error) :
  (forall previous e, P (fst (Delay b previous e))) ->
  run attempt delay tr r ->
  P delay ->
  Forall P (wait_delays tr) /\ Forall P (policy_delays tr).
Proof.
  intros Hpolicy H. induction H as
    [attempt delay Hge
    |attempt delay ctxErr Hlt Hentry
    |attempt delay Hlt
    |attempt delay err Hlt Hstop
    |attempt delay err Hlt Hlast Hretry
    |attempt delay err ctxErr Hlt Hretry Hwait
    |attempt delay err ctxErr next tr r Hlt Hretry Hnext Hrun IH];
    intros Hdelay.
  1-5: cbn; split; constructor.
  - unfold announce. destruct (OnRetry config); cbn; split; repeat constructor; assumption.
  - destruct Hnext as [e <-].
    destruct (IH (Hpolicy delay e)) as [IH1 IH2].
    unfold announce. destruct (OnRetry config); cbn; split; constructor;
      solve [assumption | apply Hpolicy].
Qed.

(** Exhaustion is reported only when the budget is spent on calls that
    failed. *)
Lemma loop_run_exhaustion (attempt : N) (delay : Duration) (tr : list event)
    (r : option error) :
  ctx_contract rt ctx ->
  run attempt delay tr r ->
  (attempt < MaxAttempts config)%N ->
  Forall (fun err => Is err ErrAllAttemptsFailed = false) (op_errors tr) ->
  Is r ErrAllAttemptsFailed = true ->
  (N.of_nat (op_calls tr) + attempt = MaxAttempts config)%N /\
  Forall (fun err => err <> None) (op_errors tr) /\
  forall before, exists err,
    last_failure tr before = Some err /\ List.last (op_errors tr) None = Some err.
Proof.
  intros Hcontract H. induction H as
    [attempt delay Hge
    |attempt delay ctxErr Hlt Hentry
    |attempt delay Hlt
    |attempt delay err Hlt Hstop
    |attempt delay err Hlt Hlast Hretry
    |attempt delay err ctxErr Hlt Hretry Hwait
    |attempt delay err ctxErr next tr r Hlt Hretry Hnext Hrun IH];
    intros Hbudget Hops Hr.
  - lia.
  - exfalso. destruct Hentry as [e He].
    destruct (Hcontract e _ He) as [-> | ->]; discriminate Hr.
  - discriminate Hr.
  - exfalso. cbn in Hops. inversion Hops as [|x l Hx Hl]; subst. congruence.
  - split; [change (op_calls [EvOp None (Some err)]) with 1%nat; lia|].
    split; [repeat constructor; discriminate|].
    intros before. exists err. split; reflexivity.
  - exfalso. destruct Hwait as (e & e' & Hsel & He). destruct ctxErr as [ctxErr|].
    + destruct (Hcontract e' _ He) as [-> | ->]; discriminate Hr.
    + discriminate Hr.
  - assert (Hops' : Forall (fun err => Is err ErrAllAttemptsFailed = false) (op_errors tr)).
    { revert Hops. unfold announce. destruct (OnRetry config); cbn;
        intros Hops; inversion Hops; assumption. }
    destruct (IH Hlt Hops' Hr) as (IH1 & IH2 & IH3).
    assert (Hcalls : op_calls (EvOp None (Some err) :: announce config (attempt + 1) err delay
                                 ++ [EvWait delay true ctxErr; EvDelay delay next] ++ tr)
                     = S (op_calls tr)).
    { unfold announce, op_calls. destruct (OnRetry config); reflexivity. }
    assert (Herrs : op_errors (EvOp None (Some err) :: announce config (attempt + 1) err delay
                                 ++ [EvWait delay true ctxErr; EvDelay delay next] ++ tr)
                    = Some err :: op_errors tr).
    { unfold announce. destruct (OnRetry config); reflexivity. }
    assert (Hlastf : forall before,
               last_failure (EvOp None (Some err) :: announce config (attempt + 1) err delay
                                 ++ [EvWait delay true ctxErr; EvDelay delay next] ++ tr) before
               = last_failure tr (Some err)).
    { intros before. unfold announce. destruct (OnRetry config); reflexivity. }
    rewrite Hcalls, Herrs. split; [lia|]. split; [constructor; [discriminate|exact IH2]|].
    intros before. rewrite Hlastf. destruct (IH3 (Some err)) as (err' & H1 & H2).
    exists err'. split; [exact H1|].
    destruct (op_errors tr) as [|x l] eqn:Hl; [discriminate H2|exact H2].
Qed.

End Grammar.

End run_grammar_facts.

(** ** Runs that differ in what the executor cannot see *)

Module simulation_facts.

Import retry scenario runs retry_facts executor_facts run_facts.

Lemma view_app (k : bool) (l1 l2 : list event) : view k (l1 ++ l2) = view k l1 ++ view k l2.
Proof. destruct k; [reflexivity|]. apply filter_app. Qed.

Lemma notified_world {E L : Type} (config : Config E) (attempt : N) (err : error)
    (delay : Duration) (w : world E L) :
  match OnRetry config with
  | Some onRetry =>
      emit (EvOnRetry attempt (Some err) delay)
        (with_env (onRetry attempt (Some err) delay (env w)) w)
  | None => w
  end
  = mkWorld (notify config attempt (Some err) delay (env w)) (locals w)
      (log w ++ announce config attempt err delay).
Proof.
  unfold notify, announce, emit, with_env. destruct w as [e l tr].
  destruct (OnRetry config); cbn [env locals log]; rewrite ?app_nil_r; reflexivity.
Qed.

Section Simulation.

Context {E Ctx L1 L2 : Type}.
Variable rt : Runtime E Ctx.
Variable ctx : Ctx.
Variables c1 c2 : Config E.
Variable b : Backoff E.
Variable operation1 : N -> world E L1 -> (bool * option error) * world E L1.
Variable operation2 : N -> world E L2 -> (bool * option error) * world E L2.
Variable op : E -> option error * E.
Variable update1 : L1 -> E -> L1.
Variable update2 : L2 -> E -> L2.

Hypothesis closure1 : forall attempt w,
  operation1 attempt w =
  ((is_nil (fst (op (env w))), fst (op (env w))),
   mkWorld (snd (op (env w))) (update1 (locals w) (env w))
     (log w ++ [EvOp (ctx_Err rt ctx (env w)) (fst (op (env w)))])).

Hypothesis closure2 : forall attempt w,
  operation2 attempt w =
  ((is_nil (fst (op (env w))), fst (op (env w))),
   mkWorld (snd (op (env w))) (update2 (locals w) (env w))
     (log w ++ [EvOp (ctx_Err rt ctx (env w)) (fst (op (env w)))])).

(** The two configurations have the same budget, classifiers that agree
    on every error that is no cancellation signal, and callbacks with
    the same effect. *)
Variables p1 p2 : option error -> bool.
Hypothesis resolved1 : IsRecoverable c1 = Some p1.
Hypothesis resolved2 : IsRecoverable c2 = Some p2.
Hypothesis agree : forall err, is_cancellation err = false -> p1 err = p2 err.
Hypothesis same_budget : MaxAttempts c1 = MaxAttempts c2.
Hypothesis same_notify : forall attempt err delay e,
  notify c1 attempt err delay e = notify c2 attempt err delay e.

(** The observer sees the calls of [OnRetry] only if both or none of
    the configurations have a callback. *)
Variable k : bool.
Hypothesis same_callback : k = true -> is_nil_callback c1 = is_nil_callback c2.

(** What the closures capture stays related. *)
Variable R : L1 -> L2 -> Prop.
Hypothesis R_update : forall l1 l2 e, R l1 l2 -> R (update1 l1 e) (update2 l2 e).

Lemma view_announce (attempt : N) (err : error) (delay : Duration) :
  view k (announce c1 attempt err delay) = view k (announce c2 attempt err delay).
Proof.
  unfold announce. destruct k.
  - specialize (same_callback eq_refl). unfold is_nil_callback in same_callback.
    destruct (OnRetry c1), (OnRetry c2); try discriminate; reflexivity.
  - destruct (OnRetry c1), (OnRetry c2); reflexivity.
Qed.

Lemma loop_simulation (fuel : nat) :
  forall attempt delay e l1 l2 tr1 tr2,
    view k tr1 = view k tr2 ->
    R l1 l2 ->
    exists r w1 w2,
      doRetry_loop rt ctx c1 b operation1 fuel attempt delay (mkWorld e l1 tr1) = Some (r, w1) /\
      doRetry_loop rt ctx c2 b operation2 fuel attempt delay (mkWorld e l2 tr2) = Some (r, w2) /\
      env w1 = env w2 /\
      view k (log w1) = view k (log w2) /\
      R (locals w1) (locals w2).
Proof.
  induction fuel as [|fuel IH]; intros attempt delay e l1 l2 tr1 tr2 Hview HR.
  { eexists. eexists. eexists. cbn [doRetry_loop].
    split; [reflexivity|]. split; [reflexivity|]. cbn [env log locals]. auto. }
  destruct (N.ltb_spec attempt (MaxAttempts c1)) as [Hlt|Hge].
  2:{ eexists. eexists. eexists.
      split; [apply loop_budget_spent; exact Hge|].
      split; [apply loop_budget_spent; rewrite <- same_budget; exact Hge|].
      cbn [env log locals]. auto. }
  assert (Hlt2 : (attempt < MaxAttempts c2)%N) by (rewrite <- same_budget; exact Hlt).
  destruct (ctx_Err rt ctx e) as [ctxErr|] eqn:Hlive.
  { eexists. eexists. eexists.
    split; [apply loop_entry_cancelled; [exact Hlt|exact Hlive]|].
    split; [apply loop_entry_cancelled; [exact Hlt2|exact Hlive]|].
    cbn [env log locals]. auto. }
  pose proof (closure1 attempt (mkWorld e l1 tr1)) as Hop1.
  pose proof (closure2 attempt (mkWorld e l2 tr2)) as Hop2.
  cbn [env locals log] in Hop1, Hop2. rewrite Hlive in Hop1, Hop2.
  set (e1 := snd (op e)) in *.
  assert (Hview1 : forall err,
            view k (tr1 ++ [EvOp None err]) = view k (tr2 ++ [EvOp None err])).
  { intros err. rewrite !view_app, Hview. reflexivity. }
  destruct (fst (op e)) as [err|]; cbn [is_nil] in Hop1, Hop2.
  2:{ eexists. eexists. eexists.
      split; [eapply loop_success; [exact Hlt|exact Hlive|exact Hop1]|].
      split; [eapply loop_success; [exact Hlt2|exact Hlive|exact Hop2]|].
      cbn [env log locals]. auto. }
  destruct (is_cancellation (Some err)) eqn:Hsignal.
  { eexists. eexists. eexists.
    split; [eapply loop_failure_cancelled; [exact Hlt|exact Hlive|exact Hop1|left; exact Hsignal]|].
    split; [eapply loop_failure_cancelled; [exact Hlt2|exact Hlive|exact Hop2|left; exact Hsignal]|].
    cbn [env log locals]. auto. }
  destruct (ctx_Err rt ctx e1) as [ctxErr|] eqn:Hlive1.
  { eexists. eexists. eexists.
    split; [eapply loop_failure_cancelled; [exact Hlt|exact Hlive|exact Hop1|right]|].
    2:split; [eapply loop_failure_cancelled; [exact Hlt2|exact Hlive|exact Hop2|right]|].
    1-2: cbn [env]; congruence.
    cbn [env log locals]. auto. }
  pose proof (agree (Some err) Hsignal) as Hagree.
  destruct (p1 (Some err)) eqn:Hrec.
  2:{ eexists. eexists. eexists.
      split; [eapply loop_failure_unrecoverable;
                [exact Hlt|exact Hlive|exact Hop1|exact resolved1|exact Hrec]|].
      split; [eapply loop_failure_unrecoverable;
                [exact Hlt2|exact Hlive|exact Hop2|exact resolved2|symmetry; exact Hagree]|].
      cbn [env log locals]. auto. }
  rewrite (loop_recoverable_unfold rt ctx c1 b operation1 fuel attempt delay
             (mkWorld e l1 tr1) (mkWorld e1 (update1 l1 e) (tr1 ++ [EvOp None (Some err)]))
             (Some err) p1 Hlt Hlive Hop1 Hsignal Hlive1 resolved1 Hrec).
  rewrite (loop_recoverable_unfold rt ctx c2 b operation2 fuel attempt delay
             (mkWorld e l2 tr2) (mkWorld e1 (update2 l2 e) (tr2 ++ [EvOp None (Some err)]))
             (Some err) p2 Hlt2 Hlive Hop2 Hsignal Hlive1 resolved2 (eq_sym Hagree)).
  rewrite <- same_budget.
  destruct (MaxAttempts c1 <=? uint_succ attempt)%N.
  { eexists. eexists. eexists.
    split; [reflexivity|]. split; [reflexivity|]. cbn [env log locals]. auto. }
  rewrite !notified_world. cbn zeta. cbn [env locals log].
  rewrite <- same_notify.
  destruct (ctx_select rt ctx delay (notify c1 (uint_succ attempt) (Some err) delay e1))
    as [timer e2].
  unfold emit, with_env. cbn [env locals log].
  destruct timer.
  - destruct (Delay b delay e2) as [next e3]. cbn [env locals log].
    apply IH; [|apply R_update; exact HR].
    rewrite <- !app_assoc, !view_app, Hview, view_announce. reflexivity.
  - eexists. eexists. eexists.
    split; [reflexivity|]. split; [reflexivity|]. cbn [env log locals].
    split; [reflexivity|]. split; [|apply R_update; exact HR].
    rewrite <- !app_assoc, !view_app, Hview, view_announce. reflexivity.
Qed.

End Simulation.

Lemma world_eq {E : Type} (w1 w2 : world E unit) :
  env w1 = env w2 -> log w1 = log w2 -> w1 = w2.
Proof. destruct w1 as [e1 [] tr1], w2 as [e2 [] tr2]. cbn. intros -> ->. reflexivity. Qed.

Section Entry_points.

Context {E Ctx : Type}.
Variable rt : Runtime E Ctx.
Variable ctx : Ctx.
Variables c1 c2 : Config E.

Hypothesis same_policy : Backoff_ c1 = Backoff_ c2.
Hypothesis same_budget : MaxAttempts c1 = MaxAttempts c2.
Hypothesis agree : forall err,
  is_cancellation err = false -> classifier c1 err = classifier c2 err.
Hypothesis same_notify : forall attempt err delay e,
  notify c1 attempt err delay e = notify c2 attempt err delay e.
Variable k : bool.
Hypothesis same_callback : k = true -> is_nil_callback c1 = is_nil_callback c2.

Lemma validated_same_budget : MaxAttempts (validated c1) = MaxAttempts (validated c2).
Proof. unfold validated. cbn [MaxAttempts]. rewrite same_budget. reflexivity. Qed.

(** [Do] on the two configurations. *)
Lemma Do_simulation (op : E -> option error * E) (e : E) :
  exists r w1 w2,
    Do rt ctx c1 op (mkWorld e tt []) = Some (r, w1) /\
    Do rt ctx c2 op (mkWorld e tt []) = Some (r, w2) /\
    env w1 = env w2 /\
    view k (log w1) = view k (log w2).
Proof.
  destruct (Backoff_ c1) as [b|] eqn:Hb1.
  - assert (Hb2 : Backoff_ c2 = Some b) by (symmetry; exact same_policy).
    destruct (MinDelay b e) as [d0 e1] eqn:Hmin.
    destruct (loop_simulation rt ctx (validated c1) (validated c2) b
                (Do_operation rt ctx op) (Do_operation rt ctx op) op
                (Do_update op) (Do_update op)
                (Do_operation_closure rt ctx op) (Do_operation_closure rt ctx op)
                (classifier c1) (classifier c2) eq_refl eq_refl agree
                validated_same_budget same_notify k same_callback eq
                (fun l1 l2 e0 H => f_equal (fun l => Do_update op l e0) H)
                (N.to_nat (MaxAttempts (validated c1))) 0%N d0 e1 None None
                ([] ++ [EvMinDelay d0]) ([] ++ [EvMinDelay d0]) eq_refl eq_refl)
      as (r & w1 & w2 & H1 & H2 & Henv & Hlog & Hlocals).
    rewrite validated_same_budget in H2.
    rewrite (Do_run rt ctx c1 b op (mkWorld e tt []) d0 e1 r w1 Hb1 Hmin H1).
    rewrite (Do_run rt ctx c2 b op (mkWorld e tt []) d0 e1 r w2 Hb2 Hmin H2).
    rewrite Hlocals. eexists. eexists. eexists.
    split; [reflexivity|]. split; [reflexivity|]. split; assumption.
  - assert (Hb2 : Backoff_ c2 = None) by (symmetry; exact same_policy).
    unfold Do. rewrite (validateConfig_nil c1 Hb1), (validateConfig_nil c2 Hb2).
    eexists. eexists. eexists.
    split; [reflexivity|]. split; [reflexivity|]. split; reflexivity.
Qed.

(** [DoWithValue] on the two configurations. *)
Lemma DoWithValue_simulation {T : Type} (zero : T) (op : E -> (T * option error) * E)
    (e : E) :
  exists v r w1 w2,
    DoWithValue rt zero ctx c1 op (mkWorld e tt []) = Some ((v, r), w1) /\
    DoWithValue rt zero ctx c2 op (mkWorld e tt []) = Some ((v, r), w2) /\
    env w1 = env w2 /\
    view k (log w1) = view k (log w2).
Proof.
  destruct (Backoff_ c1) as [b|] eqn:Hb1.
  - assert (Hb2 : Backoff_ c2 = Some b) by (symmetry; exact same_policy).
    destruct (MinDelay b e) as [d0 e1] eqn:Hmin.
    destruct (loop_simulation rt ctx (validated c1) (validated c2) b
                (DoWithValue_operation rt ctx op) (DoWithValue_operation rt ctx op)
                (erase op) (DoWithValue_update op) (DoWithValue_update op)
                (DoWithValue_operation_closure rt ctx op)
                (DoWithValue_operation_closure rt ctx op)
                (classifier c1) (classifier c2) eq_refl eq_refl agree
                validated_same_budget same_notify k same_callback eq
                (fun l1 l2 e0 H => f_equal (fun l => DoWithValue_update op l e0) H)
                (N.to_nat (MaxAttempts (validated c1))) 0%N d0 e1 (zero, None) (zero, None)
                ([] ++ [EvMinDelay d0]) ([] ++ [EvMinDelay d0]) eq_refl eq_refl)
      as (r & w1 & w2 & H1 & H2 & Henv & Hlog & Hlocals).
    rewrite validated_same_budget in H2.
    rewrite (DoWithValue_run rt ctx zero c1 b op (mkWorld e tt []) d0 e1 r w1 Hb1 Hmin H1).
    rewrite (DoWithValue_run rt ctx zero c2 b op (mkWorld e tt []) d0 e1 r w2 Hb2 Hmin H2).
    rewrite Hlocals. destruct r as [err|].
    + eexists. eexists. eexists. eexists.
      split; [reflexivity|]. split; [reflexivity|]. split; assumption.
    + eexists. eexists. eexists. eexists.
      split; [reflexivity|]. split; [reflexivity|]. split; assumption.
  - assert (Hb2 : Backoff_ c2 = None) by (symmetry; exact same_policy).
    unfold DoWithValue. rewrite (validateConfig_nil c1 Hb1), (validateConfig_nil c2 Hb2).
    eexists. eexists. eexists. eexists.
    split; [reflexivity|]. split; [reflexivity|]. split; reflexivity.
Qed.

End Entry_points.

Section Two_entry_points.

Context {E Ctx T : Type}.
Variable rt : Runtime E Ctx.
Variable zero : T.
Variable ctx : Ctx.
Variable config : Config E.

(** [Do] and [DoWithValue] on the same operation. *)
Lemma Do_DoWithValue_simulation (opv : E -> (T * option error) * E) (e : E) :
  exists r w v rv,
    Do rt ctx config (erase opv) (mkWorld e tt []) = Some (r, w) /\
    DoWithValue rt zero ctx config opv (mkWorld e tt []) = Some ((v, rv), w) /\
    (rv = r \/
     exists lastErr,
       r = Some (Errorf_w_w ErrAllAttemptsFailed lastErr) /\
       rv = Some (Errorf_w_v ErrAllAttemptsFailed lastErr) /\
       v = zero).
Proof.
  destruct (Backoff_ config) as [b|] eqn:Hb.
  - destruct (MinDelay b e) as [d0 e1] eqn:Hmin.
    destruct (loop_simulation rt ctx (validated config) (validated config) b
                (Do_operation rt ctx (erase opv)) (DoWithValue_operation rt ctx opv)
                (erase opv) (Do_update (erase opv)) (DoWithValue_update opv)
                (Do_operation_closure rt ctx (erase opv))
                (DoWithValue_operation_closure rt ctx opv)
                (classifier config) (classifier config) eq_refl eq_refl
                (fun err H => eq_refl) eq_refl (fun attempt err delay e0 => eq_refl)
                true (fun H => eq_refl) (fun l1 l2 => l1 = snd l2)
                (fun l1 l2 e0 H =>
                   eq_trans (f_equal (fun l => Do_update (erase opv) l e0) H)
                     (eq_sym (run_shape_facts.DoWithValue_update_lastErr opv l2 e0)))
                (N.to_nat (MaxAttempts (validated config))) 0%N d0 e1 None (zero, None)
                ([] ++ [EvMinDelay d0]) ([] ++ [EvMinDelay d0]) eq_refl eq_refl)
      as (r & w1 & w2 & H1 & H2 & Henv & Hlog & Hlocals).
    cbn [view] in Hlog.
    rewrite (Do_run rt ctx config b (erase opv) (mkWorld e tt []) d0 e1 r w1 Hb Hmin H1).
    rewrite (DoWithValue_run rt ctx zero config b opv (mkWorld e tt []) d0 e1 r w2 Hb Hmin H2).
    assert (Hw : with_locals tt w2 = with_locals tt w1)
      by (apply world_eq; cbn [with_locals env log]; congruence).
    rewrite Hw, Hlocals.
    destruct r as [err|]; [destruct (Is (Some err) ErrAllAttemptsFailed)|].
    + eexists. eexists. eexists. eexists.
      split; [reflexivity|]. split; [reflexivity|].
      right. eexists. split; [reflexivity|]. split; reflexivity.
    + eexists. eexists. eexists. eexists.
      split; [reflexivity|]. split; [reflexivity|]. left. reflexivity.
    + eexists. eexists. eexists. eexists.
      split; [reflexivity|]. split; [reflexivity|]. left. reflexivity.
  - unfold Do, DoWithValue. rewrite (validateConfig_nil config Hb).
    eexists. eexists. eexists. eexists.
    split; [reflexivity|]. split; [reflexivity|]. left. reflexivity.
Qed.

End Two_entry_points.

End simulation_facts.

(** ** The policy at the edges of its configuration *)

Module backoff_edge_facts.

Import backoff binary64_facts backoff_facts.

Section Policy.

Variable Rand : Type.
Variable rand_Float64 : Rand -> float64 * Rand.
Variable cvt_oor : float64 -> Z.

(** The last statement of [Delay] decides the result: the floor, the
    ceiling, or a value between them. *)
Lemma Delay_final_clamp (b : BackOff Rand) (previous : Duration) :
  let d := fst (Delay rand_Float64 cvt_oor b previous) in
  d = minDelay b \/ d = maxDelay b \/ minDelay b <= d <= maxDelay b.
Proof.
  unfold Delay. destruct (rand_Float64 (rnd b)) as [draw rnd']. cbn [fst].
  cbv zeta.
  match goal with |- (if ?x <? _ then _ else _) = _ \/ _ => set (x0 := x) end.
  destruct (Z.ltb_spec x0 (minDelay b)); [left; reflexivity|].
  rewrite Z.gtb_ltb. destruct (Z.ltb_spec (maxDelay b) x0); right; [left; reflexivity|right; lia].
Qed.

(** What [Delay] leaves of the policy: the configuration, and the
    generator after one draw. *)
Lemma Delay_policy (b : BackOff Rand) (previous : Duration) :
  snd (Delay rand_Float64 cvt_oor b previous)
  = mkBackOff (minDelay b) (maxDelay b) (factor b) (jitter b) (snd (rand_Float64 (rnd b))).
Proof. unfold Delay. destruct (rand_Float64 (rnd b)); reflexivity. Qed.

(** X1.  A policy with the factor zero and no jitter forgets the
    previous delay: for [minDelay <= maxDelay], [Delay] returns
    [clamp(0, minDelay, maxDelay)], which is [minDelay] when the floor is
    not negative. *)
Theorem Delay_zero_factor (b : BackOff Rand) (previous : Duration) :
  SFeqb (factor b) f64_zero = true ->
  SFeqb (jitter b) f64_zero = true ->
  minDelay b <= maxDelay b ->
  in_int64 (minDelay b) = true ->
  in_int64 (maxDelay b) = true ->
  in_int64 previous = true ->
  is_draw (fst (rand_Float64 (rnd b))) ->
  fst (Delay rand_Float64 cvt_oor b previous) = clamp 0 (minDelay b) (maxDelay b) /\
  (0 <= minDelay b -> fst (Delay rand_Float64 cvt_oor b previous) = minDelay b).
Proof.
  intros Hf Hj Hle Hmin Hmax Hprev Hdraw.
  assert (H : fst (Delay rand_Float64 cvt_oor b previous) = clamp 0 (minDelay b) (maxDelay b)).
  { rewrite Delay_nojitter_eq by assumption.
    rewrite scale_zero; [reflexivity| |exact Hf].
    destruct (Z.max_spec previous (minDelay b)) as [[_ ->]|[_ ->]]; assumption. }
  split; [exact H|]. intros H0. rewrite H. unfold clamp. lia.
Qed.

(** X2.  A policy whose ceiling is below its floor (which [New]
    accepts) returns one of the two, whatever the previous delay, the
    factor, the jitter and the draw; without jitter it returns the
    floor, so that every delay exceeds the configured maximum. *)
Theorem Delay_inverted_bounds (b : BackOff Rand) (previous : Duration) :
  maxDelay b < minDelay b ->
  (fst (Delay rand_Float64 cvt_oor b previous) = minDelay b \/
   fst (Delay rand_Float64 cvt_oor b previous) = maxDelay b) /\
  (SFeqb (jitter b) f64_zero = true ->
   in_int64 (maxDelay b) = true ->
   is_draw (fst (rand_Float64 (rnd b))) ->
   fst (Delay rand_Float64 cvt_oor b previous) = minDelay b).
Proof.
  intros Hinv. split.
  - pose proof (Delay_final_clamp b previous) as H. cbv zeta in H.
    destruct H as [H | [H | H]]; [left; exact H|right; exact H|lia].
  - intros Hj Hmax Hdraw. unfold Delay.
    destruct (rand_Float64 (rnd b)) as [draw rnd']. cbn [fst] in *.
    set (raw := scale cvt_oor (if previous <? minDelay b then minDelay b else previous)
                  (factor b)).
    assert (Hraw : in_int64 raw = true) by apply Duration_of_float64_in_int64.
    set (capped := if raw >? maxDelay b then maxDelay b else raw).
    assert (Hcap : capped <= maxDelay b).
    { subst capped. rewrite Z.gtb_ltb. destruct (Z.ltb_spec (maxDelay b) raw); lia. }
    assert (Hci : in_int64 capped = true)
      by (subst capped; destruct (raw >? maxDelay b); assumption).
    rewrite jitterAmount_zero by assumption.
    rewrite Z.add_0_r, wrap64_id by assumption.
    destruct (Z.ltb_spec capped (minDelay b)); [reflexivity|lia].
Qed.

End Policy.

(** The policy of [TestDelay_EdgeCases], "zero factor". *)
Lemma Delay_zero_factor_witness :
  let b := New (100 * Millisecond) Second f64_zero f64_zero 0%nat in
  fst (Delay (harness.constant_source f64_half) cvt_oor_amd64 b (100 * Millisecond))
  = clamp 0 (minDelay b) (maxDelay b) /\
  (0 <= minDelay b ->
   fst (Delay (harness.constant_source f64_half) cvt_oor_amd64 b (100 * Millisecond))
   = minDelay b).
Proof.
  intros b.
  assert (H : minDelay b <= maxDelay b) by (vm_compute; discriminate).
  assert (Hdraw : is_draw (fst (harness.constant_source f64_half (rnd b))))
    by (repeat split).
  exact (Delay_zero_factor nat (harness.constant_source f64_half) cvt_oor_amd64 b
           (100 * Millisecond) eq_refl eq_refl H eq_refl eq_refl eq_refl Hdraw).
Defined.

(** A policy from one second down to 100ms. *)
Lemma Delay_inverted_bounds_witness :
  let b := New Second (100 * Millisecond) f64_two f64_tenth 0%nat in
  maxDelay b < minDelay b /\
  (fst (Delay (harness.constant_source f64_half) cvt_oor_amd64 b (300 * Millisecond))
   = minDelay b \/
   fst (Delay (harness.constant_source f64_half) cvt_oor_amd64 b (300 * Millisecond))
   = maxDelay b).
Proof.
  intros b.
  assert (H : maxDelay b < minDelay b) by reflexivity.
  split; [exact H|].
  exact (proj1 (Delay_inverted_bounds nat (harness.constant_source f64_half) cvt_oor_amd64 b
                  (300 * Millisecond) H)).
Defined.

End backoff_edge_facts.

(** ** Unrecoverable errors along the chain *)

Module unrecoverable_facts.

Import retry helpers retry_facts.

(** An [UnrecoverableError] in the chain of an error in the chain of
    [outer] is in the chain of [outer]. *)
Lemma chain_As_of_Is (outer : error) :
  forall inner,
    chain_Is outer inner = true ->
    chain_As_Unrecoverable inner = true ->
    chain_As_Unrecoverable outer = true.
Proof.
  induction outer as [| | |s| |c IH|msg e IH|msg es IH] using error_chain_ind;
    intros inner HIs HAs; cbn [chain_Is] in HIs;
    apply orb_true_iff in HIs; destruct HIs as [Heq | Hdeep];
    try (apply error_eqb_eq in Heq; subst inner; exact HAs);
    try discriminate Hdeep; try reflexivity.
  - cbn [chain_As_Unrecoverable]. exact (IH inner Hdeep HAs).
  - cbn [chain_As_Unrecoverable]. apply existsb_exists in Hdeep.
    destruct Hdeep as (x & Hin & Hx). apply existsb_exists. exists x.
    split; [exact Hin|]. rewrite Forall_forall in IH. exact (IH x Hin inner Hx HAs).
Qed.

Lemma chain_As_marked (e : error) :
  chain_As_Unrecoverable e = true ->
  exists cause, chain_Is e (UnrecoverableError cause) = true.
Proof.
  induction e as [| | |s| |c IH|msg e IH|msg es IH] using error_chain_ind;
    cbn [chain_As_Unrecoverable]; intros H; try discriminate H.
  - exists None. reflexivity.
  - exists (Some c). apply chain_Is_refl.
  - destruct (IH H) as [cause Hc]. exists cause.
    cbn [chain_Is]. rewrite Hc. apply orb_true_r.
  - apply existsb_exists in H. destruct H as (x & Hin & Hx).
    rewrite Forall_forall in IH. destruct (IH x Hin Hx) as [cause Hc].
    exists cause. cbn [chain_Is]. apply orb_true_iff. right.
    apply existsb_exists. exists x. split; assumption.
Qed.

(** X3.  [IsUnrecoverableError] looks through every kind of wrapping:
    an error is unrecoverable exactly when an [UnrecoverableError]
    value, with or without a cause, is the error itself or is reached
    from it by [Unwrap], through single and multiple [%w] alike; nil is
    not unrecoverable. *)
Theorem unrecoverable_iff_marked_in_chain (err : option error) :
  IsUnrecoverableError err = true <->
  exists cause, Is err (UnrecoverableError cause) = true.
Proof.
  destruct err as [e|]; cbn [IsUnrecoverableError Is].
  - split.
    + apply chain_As_marked.
    + intros [cause H]. exact (chain_As_of_Is e (UnrecoverableError cause) H eq_refl).
  - split; [discriminate|intros [cause H]; discriminate H].
Qed.

(** X4.  [NewUnrecoverableError] and back.  Nil stays nil.  The mark
    around a non-nil error unwraps to that error, and every target that
    [errors.Is] finds in the error it still finds in the marked one.
    Whatever wraps the marked error afterwards, the result is found
    unrecoverable and the default classifier rejects it. *)
Theorem NewUnrecoverableError_round_trip :
  NewUnrecoverableError None = None /\
  forall e : error,
    exists marked,
      NewUnrecoverableError (Some e) = Some marked /\
      Unwrap marked = Some e /\
      (forall target, Is (Some e) target = true -> Is (Some marked) target = true) /\
      (forall outer,
         Is (Some outer) marked = true ->
         IsUnrecoverableError (Some outer) = true /\ defaultRecoverable (Some outer) = false).
Proof.
  split; [reflexivity|]. intros e. exists (UnrecoverableError (Some e)).
  split; [reflexivity|]. split; [reflexivity|]. split.
  - intros target H. cbn [Is chain_Is] in *. rewrite H. apply orb_true_r.
  - intros outer H.
    assert (Hu : IsUnrecoverableError (Some outer) = true)
      by exact (chain_As_of_Is outer (UnrecoverableError (Some e)) H eq_refl).
    split; [exact Hu|]. apply defaultRecoverable_unrecoverable. exact Hu.
Qed.

End unrecoverable_facts.

(** ** Validation *)

Module validation_facts.

Import retry scenario executor_facts.

Lemma validated_idempotent {E : Type} (config : Config E) :
  validated (validated config) = validated config.
Proof.
  unfold validated. cbn [MaxAttempts Backoff_ IsRecoverable OnRetry classifier].
  destruct (N.eqb_spec (MaxAttempts config) 0) as [H0|Hne]; [reflexivity|].
  destruct (N.eqb_spec (MaxAttempts config) 0); [contradiction|reflexivity].
Qed.

(** X5.  [validateConfig] is idempotent and touches nothing the caller
    has set.  It fails exactly when there is no policy, and then leaves
    the configuration alone.  Otherwise it leaves the policy and the
    callback alone, a non-zero [MaxAttempts] and a non-nil
    [IsRecoverable] too, and fills in one attempt and the default
    classifier where these were missing; validating the result again
    changes nothing, and [Do] and [DoWithValue] run on the validated
    configuration as on the original one.  The configuration that
    [Default] builds around a policy is valid as it is. *)
Theorem validateConfig_idempotent :
  forall (E : Type) (config : Config E),
    let err := fst (validateConfig config) in
    let config' := snd (validateConfig config) in
    validateConfig config' = (err, config') /\
    (err <> None <-> Backoff_ config = None) /\
    (err <> None -> config' = config) /\
    Backoff_ config' = Backoff_ config /\
    OnRetry config' = OnRetry config /\
    (MaxAttempts config <> 0%N -> MaxAttempts config' = MaxAttempts config) /\
    (IsRecoverable config <> None -> IsRecoverable config' = IsRecoverable config) /\
    (err = None ->
     MaxAttempts config' = N.max 1 (MaxAttempts config) /\
     IsRecoverable config' = Some (classifier config)) /\
    (forall (Ctx : Type) (rt : Runtime E Ctx) (ctx : Ctx) op w,
       Do rt ctx config' op w = Do rt ctx config op w) /\
    (forall (Ctx T : Type) (rt : Runtime E Ctx) (zero : T) (ctx : Ctx) opv w,
       DoWithValue rt zero ctx config' opv w = DoWithValue rt zero ctx config opv w) /\
    (forall b : Backoff E, validateConfig (Default (Some b)) = (None, Default (Some b))).
Proof.
  intros E config. cbv zeta.
  destruct (Backoff_ config) as [b|] eqn:Hb.
  - rewrite (validateConfig_ok config b Hb). cbn [fst snd].
    assert (Hb' : Backoff_ (validated config) = Some b) by exact Hb.
    split; [rewrite (validateConfig_ok _ b Hb'), validated_idempotent; reflexivity|].
    split; [split; [intros H; contradiction H; reflexivity|discriminate]|].
    split; [intros H; contradiction H; reflexivity|].
    split; [exact Hb'|]. split; [reflexivity|].
    split.
    { intros Hne. unfold validated. cbn [MaxAttempts].
      destruct (N.eqb_spec (MaxAttempts config) 0); [contradiction|reflexivity]. }
    split.
    { intros Hne. unfold validated, classifier. cbn [IsRecoverable].
      destruct (IsRecoverable config); [reflexivity|contradiction Hne; reflexivity]. }
    split.
    { intros _. split; [|reflexivity]. unfold validated. cbn [MaxAttempts].
      destruct (N.eqb_spec (MaxAttempts config) 0) as [->|Hne]; [reflexivity|lia]. }
    split; [|split].
    + intros Ctx rt ctx op w. unfold Do.
      rewrite (validateConfig_ok _ b Hb'), (validateConfig_ok _ b Hb), validated_idempotent.
      reflexivity.
    + intros Ctx T rt zero ctx opv w. unfold DoWithValue.
      rewrite (validateConfig_ok _ b Hb'), (validateConfig_ok _ b Hb), validated_idempotent.
      reflexivity.
    + intros b0. reflexivity.
  - rewrite (validateConfig_nil config Hb). cbn [fst snd].
    rewrite (validateConfig_nil config Hb).
    split; [reflexivity|].
    split; [split; [reflexivity|discriminate]|].
    split; [reflexivity|].
    split; [exact Hb|]. split; [reflexivity|].
    split; [reflexivity|]. split; [reflexivity|].
    split; [discriminate|].
    split; [reflexivity|]. split; [reflexivity|]. intros b0. reflexivity.
Qed.

End validation_facts.

(** ** Properties of every run of the executor *)

Module executor_properties.

Import retry scenario runs retry_facts executor_facts run_facts.
Import run_shape_facts run_grammar_facts.

Section Every_run.

Context {E Ctx T : Type}.
Variable rt : Runtime E Ctx.
Variable zero : T.
Variable ctx : Ctx.
Variable config : Config E.

Hypothesis uint_MaxAttempts : (MaxAttempts config < 2 ^ 64)%N.

Lemma every_run_intro (P : option error -> list event -> Prop) :
  (forall wrap e r tr, executor_run rt ctx config wrap e r tr -> P r tr) ->
  every_run rt zero ctx config P.
Proof.
  intros H. split.
  - intros op e.
    destruct (Do_executor_run rt ctx config uint_MaxAttempts op e) as (r & w' & HDo & Hrun).
    exists r, w'. split; [exact HDo|]. exact (H _ _ _ _ Hrun).
  - intros opv e.
    destruct (DoWithValue_executor_run rt ctx config uint_MaxAttempts zero opv e)
      as (v & r & w' & HDo & Hrun & _).
    exists v, r, w'. split; [exact HDo|]. exact (H _ _ _ _ Hrun).
Qed.

Lemma budget_validated : budget config = N.to_nat (MaxAttempts (validated config)).
Proof.
  unfold budget, validated. cbn [MaxAttempts].
  destruct (N.eqb_spec (MaxAttempts config) 0) as [->|Hne]; [reflexivity|].
  f_equal. lia.
Qed.

Lemma executor_run_within_budget wrap e r tr :
  executor_run rt ctx config wrap e r tr -> within_budget config tr.
Proof.
  unfold executor_run, within_budget. rewrite budget_validated.
  pose proof (run_shape_facts.validated_uint_MaxAttempts config uint_MaxAttempts) as Huint.
  assert (Hpos : (0 < N.to_nat (MaxAttempts (validated config)))%nat).
  { rewrite <- budget_validated. unfold budget. lia. }
  destruct (Backoff_ config) as [b|].
  - intros (tr' & r0 & -> & Hrun & _).
    destruct (loop_run_budget rt ctx (validated config) b _ _ _ _ Hrun)
      as (H1 & H2 & H3 & H4 & H5).
    rewrite N.sub_0_r in H1, H2.
    change (op_calls (EvMinDelay (fst (MinDelay b e)) :: tr')) with (op_calls tr').
    change (waits (EvMinDelay (fst (MinDelay b e)) :: tr')) with (waits tr').
    change (onRetry_calls (EvMinDelay (fst (MinDelay b e)) :: tr')) with (onRetry_calls tr').
    change (count is_backoff_call (EvMinDelay (fst (MinDelay b e)) :: tr'))
      with (S (count is_backoff_call tr')).
    repeat split; try lia.
    rewrite H4. unfold is_nil_callback. cbn [validated OnRetry].
    destruct (OnRetry config); reflexivity.
  - intros [_ ->].
    change (op_calls []) with 0%nat. change (waits []) with 0%nat.
    change (onRetry_calls []) with 0%nat. change (count is_backoff_call []) with 0%nat.
    repeat split; try lia.
    destruct (is_nil_callback config); reflexivity.
Qed.

Lemma executor_run_terminal_call wrap e r tr :
  executor_run rt ctx config wrap e r tr ->
  forall pre c err post,
    tr = pre ++ EvOp c err :: post ->
    err = None \/ is_cancellation err = true \/ classifier config err = false ->
    post = [] /\ (Is err ErrAllAttemptsFailed = false -> r = err) /\ (err <> None -> r <> None).
Proof.
  unfold executor_run. destruct (Backoff_ config) as [b|].
  - intros (tr' & r0 & -> & Hrun & ->) pre c err post Heq Hterminal.
    destruct pre as [|x pre]; [discriminate Heq|]. injection Heq as _ Heq.
    destruct (loop_run_terminal_call rt ctx (validated config) b _ _ _ _ Hrun
                pre c err post Heq Hterminal) as [-> ->].
    split; [reflexivity|]. split; [intros ->; reflexivity|].
    intros Hne. destruct (Is err ErrAllAttemptsFailed); [discriminate|exact Hne].
  - intros [_ ->] pre c err post Heq. destruct pre; discriminate Heq.
Qed.

Lemma executor_run_nil wrap e r tr :
  ctx_done_contract rt ctx ->
  executor_run rt ctx config wrap e r tr ->
  (r = None <-> exists pre, tr = pre ++ [EvOp None None]).
Proof.
  intros Hdone Hrun. split.
  - revert Hrun. unfold executor_run. destruct (Backoff_ config) as [b|].
    + intros (tr' & r0 & -> & Hrun & ->) Hr.
      assert (Hr0 : r0 = None).
      { destruct r0 as [err|]; [|reflexivity].
        destruct (Is (Some err) ErrAllAttemptsFailed); discriminate Hr. }
      destruct (loop_run_nil rt ctx (validated config) b _ _ _ _ Hdone Hrun Hr0) as [pre ->].
      exists (EvMinDelay (fst (MinDelay b e)) :: pre). reflexivity.
    + intros [-> _] Hr. discriminate Hr.
  - intros [pre Heq].
    destruct (executor_run_terminal_call wrap e r tr Hrun pre None None [] Heq
                (or_introl eq_refl)) as (_ & Hr & _).
    apply Hr. reflexivity.
Qed.

Lemma executor_run_arguments wrap e r tr :
  executor_run rt ctx config wrap e r tr ->
  onRetry_attempts tr = attempts_from 1 (onRetry_calls tr) /\
  onRetry_delays tr = (if is_nil_callback config then [] else wait_delays tr) /\
  onRetry_errors tr = firstn (onRetry_calls tr) (op_errors tr) /\
  wait_delays tr = firstn (waits tr) (policy_delays tr) /\
  delay_inputs tr = elapsed_waits tr.
Proof.
  unfold executor_run. destruct (Backoff_ config) as [b|].
  - intros (tr' & r0 & -> & Hrun & _).
    destruct (loop_run_arguments rt ctx (validated config) b _ _ _ _ Hrun)
      as (H1 & H2 & H3 & H4 & H5).
    destruct (loop_run_budget rt ctx (validated config) b _ _ _ _ Hrun)
      as (_ & _ & _ & Hcalls & _).
    change (onRetry_calls (EvMinDelay (fst (MinDelay b e)) :: tr')) with (onRetry_calls tr').
    change (waits (EvMinDelay (fst (MinDelay b e)) :: tr')) with (waits tr').
    cbn [onRetry_attempts onRetry_delays onRetry_errors wait_delays delay_inputs
         elapsed_waits op_errors policy_delays].
    rewrite H1, H2, H3, H5, Hcalls. unfold is_nil_callback. cbn [validated OnRetry].
    destruct (OnRetry config); repeat split; solve [reflexivity | exact H4].
  - intros [_ ->]. repeat split; try reflexivity.
    destruct (is_nil_callback config); reflexivity.
Qed.

Lemma executor_run_delays wrap e r tr (b : Backoff E) (P : Duration -> Prop) :
  Backoff_ config = Some b ->
  (forall e0, P (fst (MinDelay b e0))) ->
  (forall previous e0, P (fst (Delay b previous e0))) ->
  executor_run rt ctx config wrap e r tr ->
  Forall P (wait_delays tr) /\
  Forall P (policy_delays tr) /\
  exists rest, policy_delays tr = fst (MinDelay b e) :: rest.
Proof.
  intros Hb Hmin Hdelay. unfold executor_run. rewrite Hb.
  intros (tr' & r0 & -> & Hrun & _).
  destruct (loop_run_delays rt ctx (validated config) b P _ _ _ _ Hdelay Hrun (Hmin e))
    as [H1 H2].
  cbn [wait_delays policy_delays]. split; [exact H1|].
  split; [constructor; [apply Hmin|exact H2]|].
  exists (policy_delays tr'). reflexivity.
Qed.

Lemma executor_run_exhaustion wrap e r tr :
  ctx_contract rt ctx ->
  executor_run rt ctx config wrap e r tr ->
  Is r ErrAllAttemptsFailed = true ->
  Forall (fun err => Is err ErrAllAttemptsFailed = false) (op_errors tr) ->
  op_calls tr = budget config /\
  Forall (fun err => err <> None) (op_errors tr) /\
  exists err,
    List.last (op_errors tr) None = Some err /\
    r = Some (wrap ErrAllAttemptsFailed (Some err)).
Proof.
  intros Hcontract. unfold executor_run. destruct (Backoff_ config) as [b|].
  - intros (tr' & r0 & -> & Hrun & ->) Hr Hops.
    cbn [op_errors] in Hops |- *.
    change (op_calls (EvMinDelay (fst (MinDelay b e)) :: tr')) with (op_calls tr').
    destruct (Is r0 ErrAllAttemptsFailed) eqn:Hr0; [|congruence].
    assert (Hpos : (0 < MaxAttempts (validated config))%N).
    { unfold validated. cbn [MaxAttempts]. destruct (MaxAttempts config); reflexivity. }
    destruct (loop_run_exhaustion rt ctx (validated config) b _ _ _ _ Hcontract Hrun
                Hpos Hops Hr0) as (H1 & H2 & H3).
    split; [rewrite budget_validated; lia|]. split; [exact H2|].
    destruct (H3 None) as (err & Hlast & Herr).
    exists err. split; [exact Herr|]. rewrite Hlast. reflexivity.
  - intros [-> _] Hr. discriminate Hr.
Qed.

End Every_run.

(** X6.  The attempt budget.  In every run of [Do] and of [DoWithValue]
    the operation is called at most [MaxAttempts] times (once when
    [MaxAttempts] is 0), the executor waits fewer times than that and
    never before the first call, [OnRetry] is called exactly once for
    each wait (never when there is no callback), and the policy is asked
    at most once more than there are waits. *)
Theorem attempts_stay_within_budget :
  forall (E Ctx T : Type) (rt : Runtime E Ctx) (zero : T) (ctx : Ctx) (config : Config E),
    (MaxAttempts config < 2 ^ 64)%N ->
    every_run rt zero ctx config (fun _ tr => within_budget config tr).
Proof.
  intros E Ctx T rt zero ctx config Huint.
  apply every_run_intro; [exact Huint|].
  intros wrap e r tr. apply executor_run_within_budget. exact Huint.
Qed.

(** X7.  Calls that end the run.  In every run of [Do] and of
    [DoWithValue], a call of the operation that succeeds, or that fails
    with an error carrying [context.Canceled] or
    [context.DeadlineExceeded], or with an error that the classifier
    rejects, is the last step of the run: no callback, no wait, no call
    of the policy and no further attempt follow, whatever is left of
    the budget.  The run returns that call's error as it is (unless the
    error carries the exhaustion sentinel). *)
Theorem terminal_call_ends_the_run :
  forall (E Ctx T : Type) (rt : Runtime E Ctx) (zero : T) (ctx : Ctx) (config : Config E),
    (MaxAttempts config < 2 ^ 64)%N ->
    every_run rt zero ctx config
      (fun r tr =>
         forall pre c err post,
           tr = pre ++ EvOp c err :: post ->
           err = None \/ is_cancellation err = true \/ classifier config err = false ->
           post = [] /\ (Is err ErrAllAttemptsFailed = false -> r = err)).
Proof.
  intros E Ctx T rt zero ctx config Huint.
  apply every_run_intro; [exact Huint|].
  intros wrap e r tr Hrun pre c err post Heq Hterminal.
  destruct (executor_run_terminal_call rt ctx config wrap e r tr Hrun pre c err post Heq
              Hterminal) as (H1 & H2 & _).
  split; assumption.
Qed.

(** X8.  Success.  When [ctx.Done()] fires only on a context whose
    [Err()] is not nil, a run of [Do] or of [DoWithValue] returns a nil
    error exactly when its last step is a call of the operation that
    returned nil, made on a live context. *)
Theorem nil_means_last_call_succeeded :
  forall (E Ctx T : Type) (rt : Runtime E Ctx) (zero : T) (ctx : Ctx) (config : Config E),
    (MaxAttempts config < 2 ^ 64)%N ->
    ctx_done_contract rt ctx ->
    every_run rt zero ctx config
      (fun r tr => r = None <-> exists pre, tr = pre ++ [EvOp None None]).
Proof.
  intros E Ctx T rt zero ctx config Huint Hdone.
  apply every_run_intro; [exact Huint|].
  intros wrap e r tr. apply executor_run_nil. exact Hdone.
Qed.

(** X9.  What [OnRetry] is told.  In every run of [Do] and of
    [DoWithValue] the calls of [OnRetry] carry the attempt numbers
    1, 2, 3, ... in this order, the errors of the failed calls of the
    operation in the order of these calls, and the delays of the waits
    that follow them. *)
Theorem onRetry_arguments :
  forall (E Ctx T : Type) (rt : Runtime E Ctx) (zero : T) (ctx : Ctx) (config : Config E),
    (MaxAttempts config < 2 ^ 64)%N ->
    every_run rt zero ctx config
      (fun _ tr =>
         onRetry_attempts tr = attempts_from 1 (onRetry_calls tr) /\
         onRetry_errors tr = firstn (onRetry_calls tr) (op_errors tr) /\
         onRetry_delays tr = (if is_nil_callback config then [] else wait_delays tr)).
Proof.
  intros E Ctx T rt zero ctx config Huint.
  apply every_run_intro; [exact Huint|].
  intros wrap e r tr Hrun.
  destruct (executor_run_arguments rt ctx config wrap e r tr Hrun) as (H1 & H2 & H3 & _).
  auto.
Qed.

(** X10.  Where the delays come from.  In every run of [Do] and of
    [DoWithValue] the first wait lasts what [Backoff.MinDelay] returned
    and each later wait what the call of [Backoff.Delay] before it
    returned; [Backoff.Delay] is called after each wait that elapsed,
    with the delay of that wait as the previous delay. *)
Theorem waits_follow_the_policy :
  forall (E Ctx T : Type) (rt : Runtime E Ctx) (zero : T) (ctx : Ctx) (config : Config E),
    (MaxAttempts config < 2 ^ 64)%N ->
    every_run rt zero ctx config
      (fun _ tr =>
         wait_delays tr = firstn (waits tr) (policy_delays tr) /\
         delay_inputs tr = elapsed_waits tr).
Proof.
  intros E Ctx T rt zero ctx config Huint.
  apply every_run_intro; [exact Huint|].
  intros wrap e r tr Hrun.
  destruct (executor_run_arguments rt ctx config wrap e r tr Hrun) as (_ & _ & _ & H4 & H5).
  auto.
Qed.

(** X11.  Exhaustion.  Under the contract of [context.Context], when a
    run returns an error that matches [ErrAllAttemptsFailed] although
    no error of the operation carried that sentinel, then the whole
    budget was spent: the operation was called [MaxAttempts] times
    (once for 0), every call failed, and the error returned is the
    sentinel formatted with the error of the last call: with [%w] by
    [Do], whose result therefore matches that error too, with [%v] by
    [DoWithValue], which returns the zero value with it. *)
Theorem exhaustion_means_budget_spent :
  forall (E Ctx T : Type) (rt : Runtime E Ctx) (zero : T) (ctx : Ctx) (config : Config E),
    (MaxAttempts config < 2 ^ 64)%N ->
    ctx_contract rt ctx ->
    (forall (op : E -> option error * E) (e : E),
       exists r w',
         Do rt ctx config op (mkWorld e tt []) = Some (r, w') /\
         (Is r ErrAllAttemptsFailed = true ->
          Forall (fun err => Is err ErrAllAttemptsFailed = false) (op_errors (log w')) ->
          op_calls (log w') = budget config /\
          Forall (fun err => err <> None) (op_errors (log w')) /\
          exists err,
            List.last (op_errors (log w')) None = Some err /\
            r = Some (Errorf_w_w ErrAllAttemptsFailed (Some err)) /\
            Is r err = true)) /\
    (forall (opv : E -> (T * option error) * E) (e : E),
       exists v r w',
         DoWithValue rt zero ctx config opv (mkWorld e tt []) = Some ((v, r), w') /\
         (Is r ErrAllAttemptsFailed = true ->
          Forall (fun err => Is err ErrAllAttemptsFailed = false) (op_errors (log w')) ->
          op_calls (log w') = budget config /\
          Forall (fun err => err <> None) (op_errors (log w')) /\
          exists err,
            List.last (op_errors (log w')) None = Some err /\
            r = Some (Errorf_w_v ErrAllAttemptsFailed (Some err)) /\
            v = zero)).
Proof.
  intros E Ctx T rt zero ctx config Huint Hcontract. split.
  - intros op e.
    destruct (Do_executor_run rt ctx config Huint op e) as (r & w' & HDo & Hrun).
    exists r, w'. split; [exact HDo|]. intros Hr Hops.
    destruct (executor_run_exhaustion rt ctx config Huint _ e r _ Hcontract Hrun Hr Hops)
      as (H1 & H2 & err & H3 & H4).
    split; [exact H1|]. split; [exact H2|]. exists err.
    split; [exact H3|]. split; [exact H4|]. subst r. apply Errorf_w_w_Is_right.
  - intros opv e.
    destruct (DoWithValue_executor_run rt ctx config Huint zero opv e)
      as (v & r & w' & HDo & Hrun & Hzero).
    exists v, r, w'. split; [exact HDo|]. intros Hr Hops.
    destruct (executor_run_exhaustion rt ctx config Huint _ e r _ Hcontract Hrun Hr Hops)
      as (H1 & H2 & err & H3 & H4).
    split; [exact H1|]. split; [exact H2|]. exists err.
    split; [exact H3|]. split; [exact H4|]. apply Hzero. subst r. discriminate.
Qed.

(** The root context of the harness keeps the contract of
    [Context.Done]. *)
Lemma harness_ctx_done_contract : ctx_done_contract harness.runtime 0%nat.
Proof.
  intros delay e e' H. cbn in H. unfold harness.select in H.
  destruct (harness.Err 0%nat e) eqn:Herr; [|discriminate H].
  injection H as <-. cbn. rewrite Herr. discriminate.
Qed.

Lemma harness_root_contract : ctx_contract harness.runtime 0%nat.
Proof.
  intros e err H. cbn in H. unfold harness.Err in H.
  destruct (harness.cancelled e); [|discriminate].
  left. congruence.
Qed.

(** The runs of [retry_test.go]: three attempts, an operation that
    fails twice and then succeeds, or that always fails, or that fails
    with an unrecoverable error. *)
Lemma attempts_stay_within_budget_witness :
  exists r w',
    Do harness.runtime 0%nat (harness.config 3) (harness.failing harness.persistent)
      (mkWorld harness.start tt [])
    = Some (r, w') /\
    within_budget (harness.config 3) (log w').
Proof.
  exact (proj1 (attempts_stay_within_budget _ _ string harness.runtime ""%string 0%nat
                  (harness.config 3) eq_refl)
           (harness.failing harness.persistent) harness.start).
Defined.

Lemma terminal_call_ends_the_run_witness :
  exists r w',
    Do harness.runtime 0%nat (harness.config 5) (harness.failing harness.critical)
      (mkWorld harness.start tt [])
    = Some (r, w') /\
    forall pre c err post,
      log w' = pre ++ EvOp c err :: post ->
      err = None \/ is_cancellation err = true \/
      classifier (harness.config 5) err = false ->
      post = [] /\ (Is err ErrAllAttemptsFailed = false -> r = err).
Proof.
  exact (proj1 (terminal_call_ends_the_run _ _ string harness.runtime ""%string 0%nat
                  (harness.config 5) eq_refl)
           (harness.failing harness.critical) harness.start).
Defined.

Lemma nil_means_last_call_succeeded_witness :
  exists r w',
    Do harness.runtime 0%nat (harness.config 3) (harness.flaky 3)
      (mkWorld harness.start tt [])
    = Some (r, w') /\
    (r = None <-> exists pre, log w' = pre ++ [EvOp None None]).
Proof.
  exact (proj1 (nil_means_last_call_succeeded _ _ string harness.runtime ""%string 0%nat
                  (harness.config 3) eq_refl harness_ctx_done_contract)
           (harness.flaky 3) harness.start).
Defined.

Lemma onRetry_arguments_witness :
  exists r w',
    Do harness.runtime 0%nat (harness.config 3) (harness.flaky 3)
      (mkWorld harness.start tt [])
    = Some (r, w') /\
    (onRetry_attempts (log w') = attempts_from 1 (onRetry_calls (log w')) /\
     onRetry_errors (log w') = firstn (onRetry_calls (log w')) (op_errors (log w')) /\
     onRetry_delays (log w')
     = (if is_nil_callback (harness.config 3) then [] else wait_delays (log w'))).
Proof.
  exact (proj1 (onRetry_arguments _ _ string harness.runtime ""%string 0%nat
                  (harness.config 3) eq_refl)
           (harness.flaky 3) harness.start).
Defined.

Lemma waits_follow_the_policy_witness :
  exists r w',
    Do harness.runtime 0%nat (harness.config 3) (harness.flaky 3)
      (mkWorld harness.start tt [])
    = Some (r, w') /\
    (wait_delays (log w') = firstn (waits (log w')) (policy_delays (log w')) /\
     delay_inputs (log w') = elapsed_waits (log w')).
Proof.
  exact (proj1 (waits_follow_the_policy _ _ string harness.runtime ""%string 0%nat
                  (harness.config 3) eq_refl)
           (harness.flaky 3) harness.start).
Defined.

Lemma exhaustion_means_budget_spent_witness :
  exists r w',
    Do harness.runtime 0%nat (harness.config 3) (harness.failing harness.persistent)
      (mkWorld harness.start tt [])
    = Some (r, w') /\
    (Is r ErrAllAttemptsFailed = true ->
     Forall (fun err => Is err ErrAllAttemptsFailed = false) (op_errors (log w')) ->
     op_calls (log w') = budget (harness.config 3) /\
     Forall (fun err => err <> None) (op_errors (log w')) /\
     exists err,
       List.last (op_errors (log w')) None = Some err /\
       r = Some (Errorf_w_w ErrAllAttemptsFailed (Some err)) /\
       Is r err = true).
Proof.
  exact (proj1 (exhaustion_means_budget_spent _ _ string harness.runtime ""%string 0%nat
                  (harness.config 3) eq_refl harness_root_contract)
           (harness.failing harness.persistent) harness.start).
Defined.

(** The steps of the run that fails twice and then succeeds: the
    callback hears of the attempts 1 and 2, and of the delays 10ms and
    20ms of the mock policy. *)
Lemma flaky_run_arguments :
  exists w',
    Do harness.runtime 0%nat (harness.config 3) (harness.flaky 3)
      (mkWorld harness.start tt [])
    = Some (None, w') /\
    onRetry_attempts (log w') = [1; 2]%N /\
    onRetry_delays (log w') = [10 * backoff.Millisecond; 20 * backoff.Millisecond] /\
    wait_delays (log w') = [10 * backoff.Millisecond; 20 * backoff.Millisecond] /\
    op_calls (log w') = 3%nat.
Proof. eexists. split; [vm_compute; reflexivity|]. vm_compute. repeat split. Qed.

End executor_properties.

(** ** Configurations, helpers and policies under the executor *)

Module composition_facts.

Import retry scenario runs helpers retry_facts executor_facts run_facts.
Import run_shape_facts run_grammar_facts simulation_facts executor_properties.

(** X12.  [Do] and [DoWithValue] run the same loop.  On an operation
    and on the same operation with its value dropped, the two entry
    points take the same steps and leave the same environment, and they
    return the same error, except on exhaustion, where [Do] wraps the
    last error with [%w] and [DoWithValue] prints it with [%v]. *)
Theorem Do_and_DoWithValue_agree :
  forall (E Ctx T : Type) (rt : Runtime E Ctx) (zero : T) (ctx : Ctx) (config : Config E)
         (opv : E -> (T * option error) * E) (e : E),
    exists r w v rv,
      Do rt ctx config (erase opv) (mkWorld e tt []) = Some (r, w) /\
      DoWithValue rt zero ctx config opv (mkWorld e tt []) = Some ((v, rv), w) /\
      (rv = r \/
       exists lastErr,
         r = Some (Errorf_w_w ErrAllAttemptsFailed lastErr) /\
         rv = Some (Errorf_w_v ErrAllAttemptsFailed lastErr) /\
         v = zero).
Proof.
  intros E Ctx T rt zero ctx config opv e. apply Do_DoWithValue_simulation.
Qed.

Section Temporary.

Context {E : Type}.
Variable Temporary : error -> option bool.
Variable config : Config E.

(** The configuration that retries temporary errors and otherwise asks
    the classifier that the executor would have asked. *)
Local Abbreviation extended :=
  (mkConfig (MaxAttempts config) (Backoff_ config)
     (Some (fun err => IsTemporary Temporary err || classifier config err))
     (OnRetry config)).

Lemma WithTemporaryErrorHandling_agree (err : option error) :
  is_cancellation err = false ->
  classifier (WithTemporaryErrorHandling Temporary config) err = classifier extended err.
Proof.
  intros Hsignal. unfold classifier, WithTemporaryErrorHandling. cbn [IsRecoverable].
  destruct (IsTemporary Temporary err); [reflexivity|]. cbn [orb].
  destruct (IsRecoverable config) as [p|]; [reflexivity|].
  unfold defaultRecoverable. unfold is_cancellation in Hsignal.
  apply orb_false_iff in Hsignal. destruct Hsignal as [-> ->].
  destruct err; reflexivity.
Qed.

End Temporary.

(** X13.  [WithTemporaryErrorHandling] under the executor.  A run on
    the enhanced configuration is the run on the configuration whose
    classifier accepts the temporary errors and otherwise asks the
    classifier of the original configuration, which is
    [defaultRecoverable] when none was set: the helper writes out a
    default of its own without the test for cancellation, but the
    executor never shows it an error on which the two differ. *)
Theorem WithTemporaryErrorHandling_under_the_executor :
  forall (E Ctx T : Type) (rt : Runtime E Ctx) (zero : T) (ctx : Ctx)
         (Temporary : error -> option bool) (config : Config E),
    (forall (op : E -> option error * E) (e : E),
       Do rt ctx (WithTemporaryErrorHandling Temporary config) op (mkWorld e tt [])
       = Do rt ctx
           (mkConfig (MaxAttempts config) (Backoff_ config)
              (Some (fun err => IsTemporary Temporary err || classifier config err))
              (OnRetry config))
           op (mkWorld e tt [])) /\
    (forall (opv : E -> (T * option error) * E) (e : E),
       DoWithValue rt zero ctx (WithTemporaryErrorHandling Temporary config) opv
         (mkWorld e tt [])
       = DoWithValue rt zero ctx
           (mkConfig (MaxAttempts config) (Backoff_ config)
              (Some (fun err => IsTemporary Temporary err || classifier config err))
              (OnRetry config))
           opv (mkWorld e tt [])).
Proof.
  intros E Ctx T rt zero ctx Temporary config. split.
  - intros op e.
    destruct (Do_simulation rt ctx (WithTemporaryErrorHandling Temporary config)
                (mkConfig (MaxAttempts config) (Backoff_ config)
                   (Some (fun err => IsTemporary Temporary err || classifier config err))
                   (OnRetry config))
                eq_refl eq_refl (WithTemporaryErrorHandling_agree Temporary config)
                (fun attempt err delay e0 => eq_refl) true (fun _ => eq_refl) op e)
      as (r & w1 & w2 & H1 & H2 & Henv & Hlog).
    rewrite H1, H2. rewrite (world_eq w1 w2 Henv Hlog). reflexivity.
  - intros opv e.
    destruct (DoWithValue_simulation rt ctx (WithTemporaryErrorHandling Temporary config)
                (mkConfig (MaxAttempts config) (Backoff_ config)
                   (Some (fun err => IsTemporary Temporary err || classifier config err))
                   (OnRetry config))
                eq_refl eq_refl (WithTemporaryErrorHandling_agree Temporary config)
                (fun attempt err delay e0 => eq_refl) true (fun _ => eq_refl) zero opv e)
      as (v & r & w1 & w2 & H1 & H2 & Henv & Hlog).
    rewrite H1, H2. rewrite (world_eq w1 w2 Henv Hlog). reflexivity.
Qed.

(** X14.  [WithLogging] without a logger.  With a nil logger the
    wrapped callback does what the original callback did, and nothing
    when there was none: a run returns the same error and leaves the
    same environment as on the original configuration, and takes the
    same steps, but for the calls of the added callback when the
    original configuration had none. *)
Theorem WithLogging_without_logger :
  forall (E Ctx T : Type) (rt : Runtime E Ctx) (zero : T) (ctx : Ctx)
         (Sprintf_retry : N -> option error -> Duration -> string) (config : Config E),
    (forall (op : E -> option error * E) (e : E),
       exists r w1 w2,
         Do rt ctx (WithLogging Sprintf_retry config None) op (mkWorld e tt []) = Some (r, w1) /\
         Do rt ctx config op (mkWorld e tt []) = Some (r, w2) /\
         env w1 = env w2 /\
         without_onRetry (log w1) = without_onRetry (log w2) /\
         (OnRetry config <> None -> w1 = w2)) /\
    (forall (opv : E -> (T * option error) * E) (e : E),
       exists v r w1 w2,
         DoWithValue rt zero ctx (WithLogging Sprintf_retry config None) opv (mkWorld e tt [])
         = Some ((v, r), w1) /\
         DoWithValue rt zero ctx config opv (mkWorld e tt []) = Some ((v, r), w2) /\
         env w1 = env w2 /\
         without_onRetry (log w1) = without_onRetry (log w2) /\
         (OnRetry config <> None -> w1 = w2)).
Proof.
  intros E Ctx T rt zero ctx Sprintf_retry config.
  assert (Hnotify : forall attempt err delay e,
            notify (WithLogging Sprintf_retry config None) attempt err delay e
            = notify config attempt err delay e) by reflexivity.
  assert (Hcallback : OnRetry config <> None ->
            true = true ->
            is_nil_callback (WithLogging Sprintf_retry config None) = is_nil_callback config).
  { intros Hcb _. unfold is_nil_callback. cbn [WithLogging OnRetry].
    destruct (OnRetry config); [reflexivity|contradiction Hcb; reflexivity]. }
  split.
  - intros op e.
    destruct (Do_simulation rt ctx (WithLogging Sprintf_retry config None) config
                eq_refl eq_refl (fun err _ => eq_refl) Hnotify false
                (fun H => False_ind _ (Bool.diff_false_true H)) op e)
      as (r & w1 & w2 & H1 & H2 & Henv & Hlog).
    exists r, w1, w2. split; [exact H1|]. split; [exact H2|]. split; [exact Henv|].
    split; [exact Hlog|]. intros Hcb.
    destruct (Do_simulation rt ctx (WithLogging Sprintf_retry config None) config
                eq_refl eq_refl (fun err _ => eq_refl) Hnotify true (Hcallback Hcb) op e)
      as (r' & w1' & w2' & H1' & H2' & Henv' & Hlog').
    rewrite H1 in H1'. rewrite H2 in H2'.
    injection H1' as _ <-. injection H2' as _ <-. apply world_eq; assumption.
  - intros opv e.
    destruct (DoWithValue_simulation rt ctx (WithLogging Sprintf_retry config None) config
                eq_refl eq_refl (fun err _ => eq_refl) Hnotify false
                (fun H => False_ind _ (Bool.diff_false_true H)) zero opv e)
      as (v & r & w1 & w2 & H1 & H2 & Henv & Hlog).
    exists v, r, w1, w2. split; [exact H1|]. split; [exact H2|]. split; [exact Henv|].
    split; [exact Hlog|]. intros Hcb.
    destruct (DoWithValue_simulation rt ctx (WithLogging Sprintf_retry config None) config
                eq_refl eq_refl (fun err _ => eq_refl) Hnotify true (Hcallback Hcb) zero opv e)
      as (v' & r' & w1' & w2' & H1' & H2' & Henv' & Hlog').
    rewrite H1 in H1'. rewrite H2 in H2'.
    injection H1' as _ _ <-. injection H2' as _ _ <-. apply world_eq; assumption.
Qed.

(** X15.  [WithTimeout] does not retry an attempt that ran out of time.
    In every run of [WithTimeout] with a positive timeout, a call of the
    operation that returns an error carrying
    [context.DeadlineExceeded], as the deadline of its own attempt
    produces it, is the last step: the run returns the zero value and
    that error (unless it carries the exhaustion sentinel), whatever is
    left of the budget and whatever the classifier says. *)
Theorem WithTimeout_deadline_is_final :
  forall (E Ctx T : Type) (rt : Runtime E Ctx) (zero : T) (ctx : Ctx) (config : Config E)
         (timeout : Duration) (op : Ctx -> E -> (T * option error) * E) (e : E),
    (MaxAttempts config < 2 ^ 64)%N ->
    0 < timeout ->
    exists v r w',
      WithTimeout rt zero ctx config timeout op (mkWorld e tt []) = Some ((v, r), w') /\
      forall pre c err post,
        log w' = pre ++ EvOp c (Some err) :: post ->
        Is (Some err) DeadlineExceeded = true ->
        post = [] /\ v = zero /\
        (Is (Some err) ErrAllAttemptsFailed = false -> r = Some err).
Proof.
  intros E Ctx T rt zero ctx config timeout op e Huint Hpos.
  unfold WithTimeout. replace (timeout <=? 0) with false by (symmetry; apply Z.leb_gt; exact Hpos).
  destruct (DoWithValue_executor_run rt ctx config Huint zero (wrappedOp rt ctx timeout op) e)
    as (v & r & w' & HDo & Hrun & Hzero).
  exists v, r, w'. split; [exact HDo|].
  intros pre c err post Heq Hdeadline.
  assert (Hterminal : Some err = None \/ is_cancellation (Some err) = true \/
                      classifier config (Some err) = false).
  { right. left. unfold is_cancellation. rewrite Hdeadline. apply orb_true_r. }
  destruct (executor_run_terminal_call rt ctx config _ e r _ Hrun pre c (Some err) post Heq
              Hterminal) as (H1 & H2 & H3).
  split; [exact H1|]. split; [apply Hzero; apply H3; discriminate|exact H2].
Qed.

(** X16.  The policy of package [backoff] under the executor.  With a
    [*backoff.BackOff] whose [minDelay] is at most its [maxDelay] as the
    policy, every wait of every run of [Do] and of [DoWithValue] lasts
    between [minDelay] and [maxDelay], so does every delay announced to
    [OnRetry], and the first wait lasts [minDelay]. *)
Theorem waits_within_policy_bounds :
  forall (E Ctx T Rand : Type) (rt : Runtime E Ctx) (zero : T) (ctx : Ctx) (config : Config E)
         (rand_Float64 : Rand -> backoff.float64 * Rand) (cvt_oor : backoff.float64 -> Z)
         (minD maxD : backoff.Duration) (fac jit : backoff.float64)
         (get : E -> Rand) (set : Rand -> E -> E),
    (MaxAttempts config < 2 ^ 64)%N ->
    minD <= maxD ->
    Backoff_ config = Some (policy.as_Backoff rand_Float64 cvt_oor minD maxD fac jit get set) ->
    every_run rt zero ctx config
      (fun _ tr =>
         Forall (fun d => minD <= d <= maxD) (wait_delays tr) /\
         Forall (fun d => minD <= d <= maxD) (onRetry_delays tr) /\
         forall d rest, wait_delays tr = d :: rest -> d = minD).
Proof.
  intros E Ctx T Rand rt zero ctx config rand_Float64 cvt_oor minD maxD fac jit get set
    Huint Hle Hb.
  apply every_run_intro; [exact Huint|].
  intros wrap e r tr Hrun.
  destruct (executor_run_delays rt ctx config wrap e r tr _ (fun d => minD <= d <= maxD) Hb)
    as (Hwaits & _ & rest & Hpolicy); [| |exact Hrun|].
  { intros e0. cbn. lia. }
  { intros previous e0. unfold policy.as_Backoff. cbn [Delay].
    pose proof (backoff_edge_facts.Delay_final_clamp Rand rand_Float64 cvt_oor
                  (backoff.mkBackOff minD maxD fac jit (get e0)) previous) as H.
    cbv zeta in H. cbn [backoff.minDelay backoff.maxDelay] in H.
    destruct (backoff.Delay rand_Float64 cvt_oor
                (backoff.mkBackOff minD maxD fac jit (get e0)) previous) as [d b'].
    cbn [fst] in *. lia. }
  destruct (executor_run_arguments rt ctx config wrap e r tr Hrun) as (_ & H2 & _ & H4 & _).
  split; [exact Hwaits|]. split.
  - rewrite H2. destruct (is_nil_callback config); [constructor|exact Hwaits].
  - intros d rest' Hd. rewrite H4, Hpolicy in Hd.
    destruct (waits tr); [discriminate Hd|]. injection Hd as <- _. reflexivity.
Qed.

(** An operation that needs 10ms under a timeout of 5ms per attempt:
    the first attempt is the only one, of a budget of three. *)
Lemma WithTimeout_deadline_is_final_witness :
  exists v r w',
    WithTimeout harness.runtime ""%string 0%nat (harness.config 3) (5 * backoff.Millisecond)
      (scenes.slow (10 * backoff.Millisecond)) (mkWorld harness.start tt [])
    = Some ((v, r), w') /\
    forall pre c err post,
      log w' = pre ++ EvOp c (Some err) :: post ->
      Is (Some err) DeadlineExceeded = true ->
      post = [] /\ v = ""%string /\
      (Is (Some err) ErrAllAttemptsFailed = false -> r = Some err).
Proof.
  exact (WithTimeout_deadline_is_final _ _ string harness.runtime ""%string 0%nat
           (harness.config 3) (5 * backoff.Millisecond)
           (scenes.slow (10 * backoff.Millisecond)) harness.start eq_refl eq_refl).
Defined.

Lemma slow_attempt_is_not_retried :
  exists e',
    WithTimeout harness.runtime ""%string 0%nat (harness.config 3) (5 * backoff.Millisecond)
      (scenes.slow (10 * backoff.Millisecond)) (mkWorld harness.start tt [])
    = Some ((""%string, Some DeadlineExceeded),
            mkWorld e' tt
              [EvMinDelay (10 * backoff.Millisecond); EvOp None (Some DeadlineExceeded)]).
Proof. eexists. vm_compute. reflexivity. Qed.

(** The doubling policy (100ms to 1s) under an operation that always
    fails, with a budget of six attempts. *)
Lemma waits_within_policy_bounds_witness :
  exists r w',
    Do scenes.background tt (mkConfig 6 (Some scenes.doubling) None None) scenes.broken
      (mkWorld 0%nat tt [])
    = Some (r, w') /\
    (Forall (fun d => 100 * backoff.Millisecond <= d <= backoff.Second) (wait_delays (log w')) /\
     Forall (fun d => 100 * backoff.Millisecond <= d <= backoff.Second)
       (onRetry_delays (log w')) /\
     forall d rest, wait_delays (log w') = d :: rest -> d = 100 * backoff.Millisecond).
Proof.
  assert (H : 100 * backoff.Millisecond <= backoff.Second) by (vm_compute; discriminate).
  exact (proj1 (waits_within_policy_bounds _ _ string _ scenes.background ""%string tt
                  (mkConfig 6 (Some scenes.doubling) None None)
                  (harness.constant_source backoff.f64_half) backoff.cvt_oor_amd64
                  (100 * backoff.Millisecond) backoff.Second backoff.f64_two backoff.f64_zero
                  (fun e => e) (fun r _ => r) eq_refl H eq_refl)
           scenes.broken 0%nat).
Defined.

Lemma doubling_run_waits :
  exists r w',
    Do scenes.background tt (mkConfig 6 (Some scenes.doubling) None None) scenes.broken
      (mkWorld 0%nat tt [])
    = Some (r, w') /\
    wait_delays (log w')
    = [100 * backoff.Millisecond; 200 * backoff.Millisecond; 400 * backoff.Millisecond;
       800 * backoff.Millisecond; backoff.Second].
Proof. eexists. eexists. split; [vm_compute; reflexivity|vm_compute; reflexivity]. Qed.

End composition_facts.

(** ** The earlier revision of the executor against the current one *)

Module revision_facts.

Import retry scenario runs retry_facts executor_facts run_facts simulation_facts.

Section Loops.

Context {E Ctx : Type}.
Variable rt : Runtime E Ctx.
Variable ctx : Ctx.
Variables c_old c_new : Config E.
Variable b : Backoff E.

Hypothesis contract : ctx_contract rt ctx.

(** The two configurations, each prepared by its own revision. *)
Variables p_old p_new : option error -> bool.
Hypothesis resolved_old : IsRecoverable c_old = Some p_old.
Hypothesis resolved_new : IsRecoverable c_new = Some p_new.
Hypothesis agree : forall err,
  Is err Canceled = false -> Is err DeadlineExceeded = false -> p_old err = p_new err.
Hypothesis same_budget : MaxAttempts c_old = MaxAttempts c_new.
Hypothesis same_callback : OnRetry c_old = OnRetry c_new.

Lemma ctx_error_not_sentinel (e : E) (ctxErr : error) :
  ctx_Err rt ctx e = Some ctxErr -> Is (Some ctxErr) ErrAllAttemptsFailed = false.
Proof. intros H. destruct (contract e ctxErr H) as [-> | ->]; reflexivity. Qed.

Lemma ctx_Err_not_sentinel (e : E) : Is (ctx_Err rt ctx e) ErrAllAttemptsFailed = false.
Proof.
  destruct (ctx_Err rt ctx e) as [ctxErr|] eqn:H; [|reflexivity].
  exact (ctx_error_not_sentinel e ctxErr H).
Qed.

Section Without_value.

Variable op : E -> option error * E.

(** No error of the operation carries [context.DeadlineExceeded] or the
    exhaustion sentinel. *)
Hypothesis op_errors_plain : forall e,
  Is (fst (op e)) DeadlineExceeded = false /\ Is (fst (op e)) ErrAllAttemptsFailed = false.

Lemma Do_loop_doRetry_loop (fuel : nat) :
  forall attempt delay lastErr e tr,
    exists r_old r0 w0,
      doRetry_loop rt ctx c_new b (Do_operation rt ctx op) fuel attempt delay
        (mkWorld e lastErr tr)
      = Some (r0, w0) /\
      earlier.Do_loop rt ctx c_old b op fuel attempt delay lastErr (mkWorld e tt tr)
      = Some (r_old, with_locals tt w0) /\
      r_old = (if Is r0 ErrAllAttemptsFailed
               then Some (Errorf_w_v ErrAllAttemptsFailed (locals w0))
               else r0).
Proof.
  induction fuel as [|fuel IH]; intros attempt delay lastErr e tr;
    cbn [earlier.Do_loop doRetry_loop].
  { eexists. eexists. eexists. split; [|split]; reflexivity. }
  rewrite same_budget.
  destruct (attempt <? MaxAttempts c_new)%N; cbn [negb].
  2:{ eexists. eexists. eexists. split; [|split]; reflexivity. }
  cbn [env]. destruct (ctx_Err rt ctx e) as [ctxErr|] eqn:Hlive.
  { eexists. eexists. eexists. split; [|split]; try reflexivity.
    rewrite (ctx_error_not_sentinel e ctxErr Hlive). reflexivity. }
  unfold Do_operation. cbn [env]. rewrite Hlive.
  destruct (op_errors_plain e) as [Hdeadline Hsentinel].
  destruct (op e) as [[err|] e1]; cbn [fst] in Hdeadline, Hsentinel.
  2:{ eexists. eexists. eexists. split; [|split]; reflexivity. }
  unfold emit, with_env, with_locals. cbn [env locals log].
  rewrite Hdeadline, orb_false_r.
  destruct (Is (Some err) Canceled) eqn:Hcanceled; cbn [orb].
  { eexists. eexists. eexists. split; [|split]; try reflexivity.
    rewrite Hsentinel. reflexivity. }
  destruct (ctx_Err rt ctx e1) as [ctxErr|] eqn:Hlive1; cbn [is_nil negb].
  { eexists. eexists. eexists. split; [|split]; try reflexivity.
    rewrite Hsentinel. reflexivity. }
  rewrite resolved_old, resolved_new, (agree (Some err) Hcanceled Hdeadline).
  destruct (p_new (Some err)); cbn [negb].
  2:{ eexists. eexists. eexists. split; [|split]; try reflexivity.
      rewrite Hsentinel. reflexivity. }
  destruct (MaxAttempts c_new <=? uint_succ attempt)%N.
  { eexists. eexists. eexists. split; [|split]; reflexivity. }
  rewrite same_callback.
  destruct (OnRetry c_new) as [onRetry|]; cbn [env locals log];
    match goal with |- context [ctx_select rt ctx delay ?e0] =>
      destruct (ctx_select rt ctx delay e0) as [timer e2] end;
    cbn [env locals log];
    (destruct timer;
     [destruct (Delay b delay e2) as [next e3]; cbn [env locals log]; apply IH
     |eexists; eexists; eexists; split; [|split]; try reflexivity;
      cbn [locals]; rewrite ctx_Err_not_sentinel; reflexivity]).
Qed.

End Without_value.

Section With_value.

Context {T : Type}.
Variable zero : T.
Variable op : E -> (T * option error) * E.

Hypothesis op_errors_plain : forall e,
  Is (snd (fst (op e))) DeadlineExceeded = false /\
  Is (snd (fst (op e))) ErrAllAttemptsFailed = false.

Hypothesis done : ctx_done_contract rt ctx.

Lemma DoWithValue_loop_doRetry_loop (fuel : nat) :
  forall attempt delay result lastErr e tr,
    exists r_old r0 w0,
      doRetry_loop rt ctx c_new b (DoWithValue_operation rt ctx op) fuel attempt delay
        (mkWorld e (result, lastErr) tr)
      = Some (r0, w0) /\
      earlier.DoWithValue_loop rt ctx c_old b zero op fuel attempt delay lastErr
        (mkWorld e tt tr)
      = Some (r_old, with_locals tt w0) /\
      r_old = match r0 with
              | Some _ =>
                  (zero, if Is r0 ErrAllAttemptsFailed
                         then Some (Errorf_w_v ErrAllAttemptsFailed (snd (locals w0)))
                         else r0)
              | None => (fst (locals w0), None)
              end.
Proof.
  induction fuel as [|fuel IH]; intros attempt delay result lastErr e tr;
    cbn [earlier.DoWithValue_loop doRetry_loop].
  { eexists. eexists. eexists. split; [|split]; reflexivity. }
  rewrite same_budget.
  destruct (attempt <? MaxAttempts c_new)%N; cbn [negb].
  2:{ eexists. eexists. eexists. split; [|split]; reflexivity. }
  cbn [env]. destruct (ctx_Err rt ctx e) as [ctxErr|] eqn:Hlive.
  { eexists. eexists. eexists. split; [|split]; try reflexivity.
    rewrite (ctx_error_not_sentinel e ctxErr Hlive). reflexivity. }
  unfold DoWithValue_operation. cbn [env]. rewrite Hlive.
  destruct (op_errors_plain e) as [Hdeadline Hsentinel].
  destruct (op e) as [[value [err|]] e1]; cbn [fst snd] in Hdeadline, Hsentinel.
  2:{ eexists. eexists. eexists. split; [|split]; reflexivity. }
  unfold emit, with_env, with_locals. cbn [env locals log].
  rewrite Hdeadline, orb_false_r.
  destruct (Is (Some err) Canceled) eqn:Hcanceled; cbn [orb].
  { eexists. eexists. eexists. split; [|split]; try reflexivity.
    rewrite Hsentinel. reflexivity. }
  destruct (ctx_Err rt ctx e1) as [ctxErr|] eqn:Hlive1; cbn [is_nil negb].
  { eexists. eexists. eexists. split; [|split]; try reflexivity.
    rewrite Hsentinel. reflexivity. }
  rewrite resolved_old, resolved_new, (agree (Some err) Hcanceled Hdeadline).
  destruct (p_new (Some err)); cbn [negb].
  2:{ eexists. eexists. eexists. split; [|split]; try reflexivity.
      rewrite Hsentinel. reflexivity. }
  destruct (MaxAttempts c_new <=? uint_succ attempt)%N.
  { eexists. eexists. eexists. split; [|split]; reflexivity. }
  rewrite same_callback.
  destruct (OnRetry c_new) as [onRetry|]; cbn [env locals log];
    match goal with |- context [ctx_select rt ctx delay ?e0] =>
      destruct (ctx_select rt ctx delay e0) as [timer e2] eqn:Hsel end;
    cbn [env locals log];
    (destruct timer;
     [destruct (Delay b delay e2) as [next e3]; cbn [env locals log]; apply IH
     |eexists; eexists; eexists; split; [|split]; try reflexivity;
      cbn [locals snd fst];
      pose proof (ctx_Err_not_sentinel e2) as Hctx;
      pose proof (done _ _ _ Hsel) as Hdone;
      destruct (ctx_Err rt ctx e2); [rewrite Hctx; reflexivity|contradiction Hdone; reflexivity]]).
Qed.

End With_value.

End Loops.

Section Entry_points.

Context {E Ctx : Type}.
Variable rt : Runtime E Ctx.
Variable ctx : Ctx.
Variable config : Config E.

Lemma prepared_resolved :
  IsRecoverable (earlier.prepared config)
  = Some match IsRecoverable config with
         | Some isRecoverable => isRecoverable
         | None => defaultRecoverable_before_doRetry
         end.
Proof.
  unfold earlier.prepared.
  destruct (MaxAttempts config =? 0)%N; cbn [IsRecoverable];
    destruct (IsRecoverable config) eqn:Hp; cbn [IsRecoverable]; try rewrite Hp; reflexivity.
Qed.

Lemma prepared_budget :
  MaxAttempts (earlier.prepared config) = MaxAttempts (validated config).
Proof.
  unfold earlier.prepared, validated. cbn [MaxAttempts].
  destruct (MaxAttempts config =? 0)%N; cbn [IsRecoverable MaxAttempts];
    destruct (IsRecoverable config); reflexivity.
Qed.

Lemma prepared_callback : OnRetry (earlier.prepared config) = OnRetry (validated config).
Proof.
  unfold earlier.prepared, validated. cbn [OnRetry].
  destruct (MaxAttempts config =? 0)%N; cbn [IsRecoverable OnRetry];
    destruct (IsRecoverable config); reflexivity.
Qed.

Lemma prepared_agree (err : option error) :
  Is err Canceled = false ->
  Is err DeadlineExceeded = false ->
  match IsRecoverable config with
  | Some isRecoverable => isRecoverable
  | None => defaultRecoverable_before_doRetry
  end err = classifier config err.
Proof.
  intros Hc Hd. unfold classifier. destruct (IsRecoverable config); [reflexivity|].
  unfold defaultRecoverable_before_doRetry, defaultRecoverable. rewrite Hc, Hd.
  destruct err; reflexivity.
Qed.

End Entry_points.

(** X17.  From the earlier [Do] to the current one.  Under the contract
    of [context.Context], on an operation none of whose errors carries
    [context.DeadlineExceeded] or the exhaustion sentinel, the earlier
    revision of [Do] and the current one take the same steps and leave
    the same environment for every configuration, and they return the
    same error, except on exhaustion: the earlier revision prints the
    last error into its result with [%v], the current one wraps it with
    [%w]. *)
Theorem earlier_Do_differs_in_wrapping_only :
  forall (E Ctx : Type) (rt : Runtime E Ctx) (ctx : Ctx) (config : Config E)
         (op : E -> option error * E),
    ctx_contract rt ctx ->
    (forall e, Is (fst (op e)) DeadlineExceeded = false /\
               Is (fst (op e)) ErrAllAttemptsFailed = false) ->
    forall e : E,
      exists r_old r_new w',
        earlier.Do rt ctx config op (mkWorld e tt []) = Some (r_old, w') /\
        Do rt ctx config op (mkWorld e tt []) = Some (r_new, w') /\
        (r_old = r_new \/
         exists lastErr,
           r_old = Some (Errorf_w_v ErrAllAttemptsFailed lastErr) /\
           r_new = Some (Errorf_w_w ErrAllAttemptsFailed lastErr)).
Proof.
  intros E Ctx rt ctx config op Hcontract Hplain e.
  destruct (Backoff_ config) as [b|] eqn:Hb.
  - destruct (MinDelay b e) as [d0 e1] eqn:Hmin.
    destruct (Do_loop_doRetry_loop rt ctx (earlier.prepared config) (validated config) b
                Hcontract _ (classifier config) (prepared_resolved config) eq_refl
                (prepared_agree config) (prepared_budget config) (prepared_callback config)
                op Hplain (N.to_nat (MaxAttempts (earlier.prepared config))) 0%N d0 None e1
                ([] ++ [EvMinDelay d0]))
      as (r_old & r0 & w0 & Hnew & Hold & Hr).
    rewrite prepared_budget in Hnew.
    exists r_old, (if Is r0 ErrAllAttemptsFailed
                   then Some (Errorf_w_w ErrAllAttemptsFailed (locals w0)) else r0),
      (with_locals tt w0).
    split; [|split].
    + unfold earlier.Do. rewrite Hb. cbn [env]. rewrite Hmin. exact Hold.
    + exact (Do_run rt ctx config b op (mkWorld e tt []) d0 e1 r0 w0 Hb Hmin Hnew).
    + rewrite Hr. destruct (Is r0 ErrAllAttemptsFailed).
      * right. exists (locals w0). split; reflexivity.
      * left. reflexivity.
  - exists (Some (errorString "backoff strategy is required")),
      (Some (errorString "backoff strategy is required")), (mkWorld e tt []).
    split; [|split].
    + unfold earlier.Do. rewrite Hb. reflexivity.
    + unfold Do. rewrite (validateConfig_nil config Hb). reflexivity.
    + left. reflexivity.
Qed.

(** X18.  From the earlier [DoWithValue] to the current one.  Under the
    contract of [context.Context] ([Err] is nil, [Canceled] or
    [DeadlineExceeded], and not nil once [Done] has fired), on an
    operation none of whose errors carries [context.DeadlineExceeded]
    or the exhaustion sentinel, the current [DoWithValue], which leaves
    the loop to [doRetry], does exactly what the earlier revision did:
    same value, same error, same steps, same environment. *)
Theorem earlier_DoWithValue_is_preserved :
  forall (E Ctx T : Type) (rt : Runtime E Ctx) (zero : T) (ctx : Ctx) (config : Config E)
         (opv : E -> (T * option error) * E),
    ctx_contract rt ctx ->
    ctx_done_contract rt ctx ->
    (forall e, Is (snd (fst (opv e))) DeadlineExceeded = false /\
               Is (snd (fst (opv e))) ErrAllAttemptsFailed = false) ->
    forall e : E,
      earlier.DoWithValue rt zero ctx config opv (mkWorld e tt [])
      = DoWithValue rt zero ctx config opv (mkWorld e tt []).
Proof.
  intros E Ctx T rt zero ctx config opv Hcontract Hdone Hplain e.
  destruct (Backoff_ config) as [b|] eqn:Hb.
  - destruct (MinDelay b e) as [d0 e1] eqn:Hmin.
    destruct (DoWithValue_loop_doRetry_loop rt ctx (earlier.prepared config) (validated config)
                b Hcontract _ (classifier config) (prepared_resolved config) eq_refl
                (prepared_agree config) (prepared_budget config) (prepared_callback config)
                zero opv Hplain Hdone (N.to_nat (MaxAttempts (earlier.prepared config))) 0%N d0
                zero None e1 ([] ++ [EvMinDelay d0]))
      as (r_old & r0 & w0 & Hnew & Hold & Hr).
    rewrite prepared_budget in Hnew.
    rewrite (DoWithValue_run rt ctx zero config b opv (mkWorld e tt []) d0 e1 r0 w0 Hb Hmin
               Hnew).
    unfold earlier.DoWithValue. rewrite Hb. cbn [env]. rewrite Hmin.
    etransitivity; [exact Hold|]. rewrite Hr. reflexivity.
  - unfold earlier.DoWithValue, DoWithValue.
    rewrite Hb, (validateConfig_nil config Hb). reflexivity.
Qed.

(** The run of [retry_test.go] that fails three times, in both
    revisions. *)
Lemma earlier_Do_differs_in_wrapping_only_witness :
  exists r_old r_new w',
    earlier.Do harness.runtime 0%nat (harness.config 3) (harness.failing harness.persistent)
      (mkWorld harness.start tt [])
    = Some (r_old, w') /\
    Do harness.runtime 0%nat (harness.config 3) (harness.failing harness.persistent)
      (mkWorld harness.start tt [])
    = Some (r_new, w') /\
    (r_old = r_new \/
     exists lastErr,
       r_old = Some (Errorf_w_v ErrAllAttemptsFailed lastErr) /\
       r_new = Some (Errorf_w_w ErrAllAttemptsFailed lastErr)).
Proof.
  exact (earlier_Do_differs_in_wrapping_only _ _ harness.runtime 0%nat (harness.config 3)
           (harness.failing harness.persistent)
           executor_properties.harness_root_contract
           (fun e => conj eq_refl eq_refl) harness.start).
Defined.

Lemma earlier_DoWithValue_is_preserved_witness :
  earlier.DoWithValue harness.runtime ""%string 0%nat (harness.config 3)
    (harness.flaky_value 3) (mkWorld harness.start tt [])
  = DoWithValue harness.runtime ""%string 0%nat (harness.config 3)
      (harness.flaky_value 3) (mkWorld harness.start tt []).
Proof.
  assert (Hplain : forall e,
            Is (snd (fst (harness.flaky_value 3 e))) DeadlineExceeded = false /\
            Is (snd (fst (harness.flaky_value 3 e))) ErrAllAttemptsFailed = false).
  { intros e. unfold harness.flaky_value.
    destruct (harness.calls (harness.called e) <? 3)%nat; split; reflexivity. }
  exact (earlier_DoWithValue_is_preserved _ _ string harness.runtime ""%string 0%nat
           (harness.config 3) (harness.flaky_value 3)
           executor_properties.harness_root_contract
           executor_properties.harness_ctx_done_contract Hplain harness.start).
Defined.

(** Where the revisions part: an error that carries
    [context.DeadlineExceeded] is retried by the earlier revision, whose
    loop and default classifier test for [context.Canceled] only, and
    ends the run of the current one. *)
Lemma earlier_Do_retries_deadline_errors :
  exists w_old w_new,
    earlier.Do harness.runtime 0%nat (mkConfig 3 (Some harness.mockBackoff) None None)
      (harness.failing (Some DeadlineExceeded)) (mkWorld harness.start tt [])
    = Some (Some (Errorf_w_v ErrAllAttemptsFailed (Some DeadlineExceeded)), w_old) /\
    op_calls (log w_old) = 3%nat /\
    Do harness.runtime 0%nat (mkConfig 3 (Some harness.mockBackoff) None None)
      (harness.failing (Some DeadlineExceeded)) (mkWorld harness.start tt [])
    = Some (Some DeadlineExceeded, w_new) /\
    op_calls (log w_new) = 1%nat.
Proof.
  eexists. eexists.
  split; [vm_compute; reflexivity|]. split; [vm_compute; reflexivity|].
  split; vm_compute; reflexivity.
Qed.

End revision_facts.

(** ** The earlier revision of the policy against the current one *)

Module backoff_revision_facts.

Import backoff binary64_facts backoff_facts.

Lemma is_draw_finite (r : float64) : is_draw r -> f64_is_finite r = true.
Proof.
  intros Hr. destruct (draw_shape r Hr) as [[s ->]|(m & e & -> & _)]; reflexivity.
Qed.

Section Policy.

Variable Rand : Type.
Variable rand_Float64 : Rand -> float64 * Rand.
Variable cvt_oor : float64 -> Z.

(** Without jitter the earlier revision adds nothing to the delay. *)
Lemma earlier_jitterAmount_zero (jit draw : float64) :
  SFeqb jit f64_zero = true ->
  is_draw draw ->
  let jitterRange := Duration_of_float64 cvt_oor (f64_mul jit (float64_of_int Second)) in
  Duration_of_float64 cvt_oor
    (f64_sub (f64_mul draw (float64_of_int jitterRange))
       (float64_of_int (Z.quot jitterRange 2))) = 0.
Proof.
  intros Hj Hdraw.
  assert (Hrange : Duration_of_float64 cvt_oor (f64_mul jit (float64_of_int Second)) = 0).
  { destruct jit as [s|s| |s m e]; try discriminate Hj; try (destruct s; discriminate Hj).
    destruct s; reflexivity. }
  cbv zeta. rewrite Hrange.
  change (float64_of_int (Z.quot 0 2)) with (S754_zero false).
  change (float64_of_int 0) with (S754_zero false).
  destruct (f64_mul_zero_r draw (S754_zero false) (is_draw_finite draw Hdraw) eq_refl)
    as [s ->].
  destruct s; reflexivity.
Qed.

(** X19.  The two revisions of [Delay].  The earlier revision never
    returns less than [minDelay] either.  Without jitter, for
    [minDelay <= maxDelay], it returns the delay that the current
    revision returns, for every previous delay, every factor, every
    state of the two generators and every conversion of the platform.
    (With jitter it can pass [maxDelay], which the current revision
    cannot: [earlier_Delay_exceeds_maxDelay] below.) *)
Theorem earlier_Delay_agrees_without_jitter
    (minD maxD : Duration) (fac jit : float64) (previous : Duration) (source source' : Rand) :
  (minD <= fst (earlier_backoff.Delay rand_Float64 cvt_oor
                  (earlier_backoff.NewBackOff minD maxD fac jit) previous source)) /\
  (SFeqb jit f64_zero = true ->
   minD <= maxD ->
   in_int64 maxD = true ->
   is_draw (fst (rand_Float64 source)) ->
   is_draw (fst (rand_Float64 source')) ->
   fst (earlier_backoff.Delay rand_Float64 cvt_oor
          (earlier_backoff.NewBackOff minD maxD fac jit) previous source)
   = fst (Delay rand_Float64 cvt_oor (New minD maxD fac jit source') previous)).
Proof.
  split.
  - unfold earlier_backoff.Delay, earlier_backoff.NewBackOff.
    cbn [earlier_backoff.minDelay earlier_backoff.maxDelay earlier_backoff.factor
         earlier_backoff.jitter].
    destruct (rand_Float64 source) as [draw src']. cbn [fst].
    match goal with |- _ <= (if ?x <? _ then _ else _) => destruct (Z.ltb_spec x minD) end;
      lia.
  - intros Hj Hle Hmax Hdraw Hdraw'.
    assert (Hold : fst (earlier_backoff.Delay rand_Float64 cvt_oor
                          (earlier_backoff.NewBackOff minD maxD fac jit) previous source)
                   = clamp (scale cvt_oor (Z.max previous minD) fac) minD maxD).
    { unfold earlier_backoff.Delay, earlier_backoff.NewBackOff, clamp.
      cbn [earlier_backoff.minDelay earlier_backoff.maxDelay earlier_backoff.factor
           earlier_backoff.jitter].
      destruct (rand_Float64 source) as [draw src']. cbn [fst] in *.
      pose proof (earlier_jitterAmount_zero jit draw Hj Hdraw) as Hzero. cbv zeta in Hzero.
      rewrite Hzero.
      replace (if previous <? minD then minD else previous) with (Z.max previous minD)
        by (destruct (Z.ltb_spec previous minD); lia).
      set (raw := scale cvt_oor (Z.max previous minD) fac).
      assert (Hraw : in_int64 raw = true) by apply Duration_of_float64_in_int64.
      set (capped := if raw >? maxD then maxD else raw).
      assert (Hcap : capped = Z.min raw maxD).
      { subst capped. rewrite Z.gtb_ltb. destruct (Z.ltb_spec maxD raw); lia. }
      assert (Hci : in_int64 capped = true)
        by (subst capped; destruct (raw >? maxD); assumption).
      rewrite Z.add_0_r, wrap64_id by assumption.
      rewrite Hcap. destruct (Z.ltb_spec (Z.min raw maxD) minD); lia. }
    rewrite Hold. symmetry.
    exact (Delay_nojitter_eq Rand rand_Float64 cvt_oor (New minD maxD fac jit source') previous
             Hj Hle Hmax Hdraw').
Qed.

End Policy.

(** The policy of [TestDelay_EdgeCases] in both revisions. *)
Lemma earlier_Delay_agrees_without_jitter_witness :
  fst (earlier_backoff.Delay (harness.constant_source f64_half) cvt_oor_amd64
         (earlier_backoff.NewBackOff (100 * Millisecond) Second f64_two f64_zero)
         (300 * Millisecond) 0%nat)
  = fst (Delay (harness.constant_source f64_half) cvt_oor_amd64
           (New (100 * Millisecond) Second f64_two f64_zero 7%nat) (300 * Millisecond)).
Proof.
  assert (H : 100 * Millisecond <= Second) by (vm_compute; discriminate).
  assert (Hdraw : forall s : nat, is_draw (fst (harness.constant_source f64_half s)))
    by (intros s; repeat split).
  exact (proj2 (earlier_Delay_agrees_without_jitter nat
                  (harness.constant_source f64_half) cvt_oor_amd64
                  (100 * Millisecond) Second f64_two f64_zero (300 * Millisecond)
                  0%nat 7%nat)
           eq_refl H eq_refl (Hdraw 0%nat) (Hdraw 7%nat)).
Defined.

(** With jitter the earlier revision can pass the ceiling: the default
    policy at its ceiling of 10s, on a draw just below 1, returns
    10.049999999s, where the current revision returns 10s. *)
Lemma earlier_Delay_exceeds_maxDelay :
  let almost_one := S754_finite false 9007199254740991 (-53) in
  fst (earlier_backoff.Delay (harness.constant_source almost_one) cvt_oor_amd64
         earlier_backoff.DefaultBackOff (10 * Second) 0%nat)
  = 10 * Second + 49999999 /\
  fst (Delay (harness.constant_source almost_one) cvt_oor_amd64 (Default 0%nat) (10 * Second))
  = 10 * Second.
Proof. split; vm_compute; reflexivity. Qed.

End backoff_revision_facts.

(** ** Exact arithmetic: a policy that doubles *)

Module doubling_facts.

Import backoff binary64_facts backoff_facts.

Lemma iter_pos_iter {A : Type} (f : A -> A) (p : positive) :
  forall x, iter_pos f p x = Pos.iter f x p.
Proof.
  induction p as [p IH|p IH|]; intros x; cbn [iter_pos Pos.iter].
  - rewrite !IH. rewrite <- !Pos.iter_swap. reflexivity.
  - rewrite !IH. reflexivity.
  - reflexivity.
Qed.

(** Shifting out the zeros that were shifted in loses nothing. *)
Lemma iter_shr_1_exact (k p : positive) :
  iter_pos shr_1 p (Build_shr_record (Z.pos (Pos.iter xO k p)) false false)
  = Build_shr_record (Z.pos k) false false.
Proof.
  rewrite iter_pos_iter.
  induction p as [|p IH] using Pos.peano_ind.
  - reflexivity.
  - rewrite !Pos.iter_succ, <- Pos.iter_swap. exact IH.
Qed.

Lemma digits2_53 (k : positive) (e : Z) :
  digits2_pos k = 53%positive -> -1074 <= e ->
  fexp prec emax (Zdigits2 (Z.pos k) + e) - e = 0.
Proof. intros Hk He. rewrite fexp_eq. cbn [Zdigits2]. rewrite Hk. lia. Qed.

(** A mantissa of 53 digits is not rounded. *)
Lemma binary_round_aux_canonical (s : bool) (k : positive) (e : Z) :
  digits2_pos k = 53%positive -> -1074 <= e <= 971 ->
  binary_round_aux prec emax s (Z.pos k) e loc_Exact = S754_finite s k e.
Proof.
  intros Hk He. unfold binary_round_aux, shr_fexp.
  rewrite (digits2_53 k e Hk) by lia.
  cbn [shr shr_record_of_loc shr_m loc_of_shr_record round_nearest_even].
  rewrite (digits2_53 k e Hk) by lia.
  cbn [shr shr_record_of_loc shr_m].
  replace (e <=? emax - prec) with true; [reflexivity|].
  symmetry. apply Z.leb_le. change (emax - prec) with 971. lia.
Qed.

(** Nor is such a mantissa followed by zeros. *)
Lemma binary_round_aux_shifted (s : bool) (k p : positive) (e : Z) :
  digits2_pos k = 53%positive -> -1074 <= e + Z.pos p <= 971 ->
  binary_round_aux prec emax s (Z.pos (Pos.iter xO k p)) e loc_Exact
  = S754_finite s k (e + Z.pos p).
Proof.
  intros Hk He. unfold binary_round_aux, shr_fexp.
  assert (Hshift : fexp prec emax (Zdigits2 (Z.pos (Pos.iter xO k p)) + e) - e = Z.pos p).
  { rewrite fexp_eq. cbn [Zdigits2]. rewrite digits2_pos_iter_xO, Hk. lia. }
  rewrite Hshift. cbn [shr shr_record_of_loc]. rewrite iter_shr_1_exact.
  cbn [shr_m loc_of_shr_record round_nearest_even].
  rewrite (digits2_53 k (e + Z.pos p) Hk) by lia.
  cbn [shr shr_record_of_loc shr_m].
  replace (e + Z.pos p <=? emax - prec) with true; [reflexivity|].
  symmetry. apply Z.leb_le. change (emax - prec) with 971. lia.
Qed.

(** [float64(z)] is exact below [2^53]. *)
Lemma float64_of_int_exact (z : positive) :
  Z.pos z < 2 ^ 53 ->
  exists k e,
    float64_of_int (Z.pos z) = S754_finite false k e /\
    digits2_pos k = 53%positive /\
    Z.pos k = Z.pos z * 2 ^ (- e) /\
    -52 <= e <= 0.
Proof.
  intros Hz. unfold float64_of_int, binary_normalize, binary_round, shl_align.
  pose proof (digits2_pos_le z 53 Hz) as Hd.
  rewrite fexp_eq.
  replace (Z.max (Z.pos (digits2_pos z) + 0 - 53) (-1074) - 0)
    with (Z.pos (digits2_pos z) - 53) by lia.
  destruct (Z.pos (digits2_pos z) - 53) as [|q|q] eqn:Hq; [|lia|].
  - assert (Hk : digits2_pos z = 53%positive) by lia.
    exists z, 0. rewrite binary_round_aux_canonical by (assumption || lia).
    repeat split; try assumption; try lia.
  - assert (Hk : digits2_pos (Pos.iter xO z q) = 53%positive).
    { apply Pos2Z.inj. rewrite digits2_pos_iter_xO. lia. }
    exists (Pos.iter xO z q), (Z.max (Z.pos (digits2_pos z) + 0 - 53) (-1074)).
    rewrite binary_round_aux_canonical by (assumption || lia).
    split; [reflexivity|]. split; [exact Hk|]. split; [|lia].
    rewrite pos_iter_xO. f_equal. f_equal. lia.
Qed.

(** Times two is a step of the exponent. *)
Lemma f64_mul_two_exact (k : positive) (e : Z) :
  digits2_pos k = 53%positive -> -1075 <= e <= 970 ->
  f64_mul (S754_finite false k e) f64_two = S754_finite false k (e + 1).
Proof.
  intros Hk He. unfold f64_mul, f64_two. cbn [SFmul xorb].
  assert (Hmul : (k * 4503599627370496)%positive = Pos.iter xO k 52).
  { apply Pos2Z.inj. rewrite pos_iter_xO, Pos2Z.inj_mul. reflexivity. }
  rewrite Hmul, binary_round_aux_shifted by (assumption || lia).
  f_equal. lia.
Qed.

Section Policy.

Variable Rand : Type.
Variable rand_Float64 : Rand -> float64 * Rand.
Variable cvt_oor : float64 -> Z.

(** [time.Duration(float64(d) * 2.0)] is [2 * d] for a duration below
    [2^53] nanoseconds, some 104 days. *)
Lemma scale_two (d : Duration) : 0 <= d < 2 ^ 53 -> scale cvt_oor d f64_two = 2 * d.
Proof.
  intros [H0 H1]. unfold scale. destruct d as [|z|z]; [reflexivity| |lia].
  destruct (float64_of_int_exact z H1) as (k & e & -> & Hk & Hke & He).
  rewrite f64_mul_two_exact by (assumption || lia).
  apply Duration_of_float64_in_range.
  - cbn [f64_trunc cond_Zopp]. f_equal. rewrite Hke.
    destruct (Z.leb_spec 0 (e + 1)) as [Hp|Hn].
    + assert (He' : e = 0 \/ e = -1) by lia.
      destruct He' as [-> | ->]; cbn; lia.
    + replace (- e) with (1 + - (e + 1)) by lia.
      rewrite Z.pow_add_r by lia. change (2 ^ 1) with 2.
      rewrite Z.mul_assoc. rewrite Z.div_mul; [lia|].
      apply Z.pow_nonzero; lia.
  - unfold in_int64, int64_min, int64_max. apply andb_true_iff.
    split; apply Z.leb_le; lia.
Qed.

(** X20.  Exponential growth.  A policy with the factor 2 and no jitter
    doubles: for [0 <= minDelay <= maxDelay] and delays below [2^53]
    nanoseconds, [Delay] returns twice the previous delay (twice
    [minDelay] when the previous delay is smaller than that), or
    [maxDelay] if that is less; the arithmetic on [float64] loses
    nothing here. *)
Theorem Delay_doubles (b : BackOff Rand) (previous : Duration) :
  factor b = f64_two ->
  SFeqb (jitter b) f64_zero = true ->
  0 <= minDelay b <= maxDelay b ->
  in_int64 (maxDelay b) = true ->
  minDelay b < 2 ^ 53 ->
  previous < 2 ^ 53 ->
  is_draw (fst (rand_Float64 (rnd b))) ->
  fst (Delay rand_Float64 cvt_oor b previous)
  = Z.min (2 * Z.max previous (minDelay b)) (maxDelay b).
Proof.
  intros Hf Hj [Hmin Hle] Hmax Hmin53 Hprev Hdraw.
  rewrite Delay_nojitter_eq by assumption.
  unfold clamp. rewrite Hf, scale_two by lia. lia.
Qed.

(** There the closed form of the specification, in exact arithmetic, is
    what [Delay] returns. *)
Lemma Delay_meets_closed_form_at_two (b : BackOff Rand) (previous : Duration) :
  factor b = f64_two ->
  SFeqb (jitter b) f64_zero = true ->
  0 <= minDelay b <= maxDelay b ->
  in_int64 (maxDelay b) = true ->
  minDelay b < 2 ^ 53 ->
  previous < 2 ^ 53 ->
  is_draw (fst (rand_Float64 (rnd b))) ->
  spec_nextDelay b previous = Some (fst (Delay rand_Float64 cvt_oor b previous)).
Proof.
  intros Hf Hj [Hmin Hle] Hmax Hmin53 Hprev Hdraw.
  rewrite Delay_nojitter_eq by assumption.
  unfold spec_nextDelay. rewrite Hf, scale_two by lia.
  unfold spec_product, f64_two. cbv beta iota zeta.
  change (0 <=? -51) with false. cbv iota.
  change (cond_Zopp false (Z.pos 4503599627370496)) with (2 * 2 ^ 51).
  change (- -51) with 51.
  replace (Z.max previous (minDelay b) * (2 * 2 ^ 51))
    with (2 * Z.max previous (minDelay b) * 2 ^ 51) by ring.
  rewrite Z.quot_mul by (apply Z.pow_nonzero; lia). reflexivity.
Qed.

End Policy.

(** The policy of [TestDelay_ExponentialGrowth]: 100ms to 10s, factor
    2, no jitter. *)
Lemma Delay_doubles_witness :
  let b := New (100 * Millisecond) (10 * Second) f64_two f64_zero 0%nat in
  fst (Delay (harness.constant_source f64_half) cvt_oor_amd64 b (400 * Millisecond))
  = Z.min (2 * Z.max (400 * Millisecond) (minDelay b)) (maxDelay b).
Proof.
  intros b.
  assert (Hb : 0 <= minDelay b <= maxDelay b) by (split; vm_compute; discriminate).
  assert (Hdraw : is_draw (fst (harness.constant_source f64_half (rnd b))))
    by (repeat split).
  exact (Delay_doubles nat (harness.constant_source f64_half) cvt_oor_amd64 b
           (400 * Millisecond) eq_refl eq_refl Hb eq_refl eq_refl eq_refl Hdraw).
Defined.

End doubling_facts.

(** ** The schedule of a run *)

Module schedule_facts.

Import retry scenario runs retry_facts executor_facts run_facts.
Import run_shape_facts run_grammar_facts executor_properties.

Section Schedule.

Context {E Ctx : Type}.
Variable rt : Runtime E Ctx.
Variable ctx : Ctx.
Variable config : Config E.
Variable b : Backoff E.

(** The policy computes the next delay from the previous one alone, by
    [f], on the delays in [P]. *)
Variable f : Duration -> Duration.
Variable P : Duration -> Prop.
Hypothesis next_delay : forall d e, P d -> fst (Delay b d e) = f d /\ P (f d).

Lemma loop_run_schedule (attempt : N) (delay : Duration) (tr : list event)
    (r : option error) :
  loop_run rt ctx config b attempt delay tr r ->
  P delay ->
  wait_delays tr = schedule f delay (waits tr).
Proof.
  intros H. induction H as
    [attempt delay Hge
    |attempt delay ctxErr Hlt Hentry
    |attempt delay Hlt
    |attempt delay err Hlt Hstop
    |attempt delay err Hlt Hlast Hretry
    |attempt delay err ctxErr Hlt Hretry Hwait
    |attempt delay err ctxErr next tr r Hlt Hretry Hnext Hrun IH];
    intros Hdelay; try reflexivity.
  - unfold announce, waits, count. destruct (OnRetry config); reflexivity.
  - destruct Hnext as [e <-]. destruct (next_delay delay e Hdelay) as [Hf HP].
    rewrite Hf in IH. specialize (IH HP).
    unfold announce, waits, count in *. destruct (OnRetry config); cbn; rewrite IH;
      reflexivity.
Qed.

End Schedule.

(** The schedule of a policy that doubles. *)
Lemma schedule_doubling (minD maxD : Z) (n : nat) :
  0 <= minD <= maxD ->
  forall k : nat,
    schedule (fun d => Z.min (2 * Z.max d minD) maxD) (Z.min (2 ^ Z.of_nat k * minD) maxD) n
    = map (fun i => Z.min (2 ^ Z.of_nat i * minD) maxD) (seq k n).
Proof.
  intros Hb. induction n as [|n IH]; intros k; [reflexivity|].
  cbn [schedule seq map]. f_equal. rewrite <- IH. f_equal.
  replace (Z.of_nat (S k)) with (Z.of_nat k + 1) by lia.
  rewrite Z.pow_add_r by lia. change (2 ^ 1) with 2.
  assert (Hpow : 1 <= 2 ^ Z.of_nat k) by (apply (Z.pow_le_mono_r 2 0); lia).
  assert (Hx : minD <= 2 ^ Z.of_nat k * minD) by nia.
  lia.
Qed.

(** X21.  Exponential backoff.  With a [*backoff.BackOff] of factor 2
    and no jitter as the policy ([0 <= minDelay <= maxDelay], below
    [2^53] nanoseconds), the waits of every run of [Do] and of
    [DoWithValue] last [minDelay], [2 * minDelay], [4 * minDelay], ...:
    the wait after the [k]-th failed attempt lasts
    [min(2^(k-1) * minDelay, maxDelay)]. *)
Theorem waits_double :
  forall (E Ctx T Rand : Type) (rt : Runtime E Ctx) (zero : T) (ctx : Ctx) (config : Config E)
         (rand_Float64 : Rand -> backoff.float64 * Rand) (cvt_oor : backoff.float64 -> Z)
         (minD maxD : backoff.Duration) (jit : backoff.float64)
         (get : E -> Rand) (set : Rand -> E -> E),
    (MaxAttempts config < 2 ^ 64)%N ->
    0 <= minD <= maxD ->
    maxD < 2 ^ 53 ->
    SFeqb jit backoff.f64_zero = true ->
    (forall source, backoff.is_draw (fst (rand_Float64 source))) ->
    Backoff_ config
    = Some (policy.as_Backoff rand_Float64 cvt_oor minD maxD backoff.f64_two jit get set) ->
    every_run rt zero ctx config
      (fun _ tr =>
         wait_delays tr
         = map (fun k => Z.min (2 ^ Z.of_nat k * minD) maxD) (seq 0 (waits tr))).
Proof.
  intros E Ctx T Rand rt zero ctx config rand_Float64 cvt_oor minD maxD jit get set
    Huint Hb Hmax Hj Hdraw Hpolicy.
  apply every_run_intro; [exact Huint|].
  intros wrap e r tr. unfold executor_run. rewrite Hpolicy.
  intros (tr' & r0 & -> & Hrun & _).
  change (waits (EvMinDelay (fst (MinDelay
            (policy.as_Backoff rand_Float64 cvt_oor minD maxD backoff.f64_two jit get set) e))
            :: tr')) with (waits tr').
  cbn [wait_delays].
  assert (Hnext : forall d e0,
            d <= maxD ->
            fst (Delay (policy.as_Backoff rand_Float64 cvt_oor minD maxD backoff.f64_two jit
                          get set) d e0)
            = Z.min (2 * Z.max d minD) maxD /\
            Z.min (2 * Z.max d minD) maxD <= maxD).
  { intros d e0 Hd. split; [|lia].
    unfold policy.as_Backoff. cbn [Delay].
    pose proof (doubling_facts.Delay_doubles Rand rand_Float64 cvt_oor
                  (backoff.mkBackOff minD maxD backoff.f64_two jit (get e0)) d) as H.
    cbn [backoff.factor backoff.jitter backoff.minDelay backoff.maxDelay backoff.rnd] in H.
    destruct (backoff.Delay rand_Float64 cvt_oor
                (backoff.mkBackOff minD maxD backoff.f64_two jit (get e0)) d) as [d' b'].
    cbn [fst] in *. apply H; try assumption; try reflexivity; try lia.
    - unfold backoff.in_int64, backoff.int64_min, backoff.int64_max.
      apply andb_true_iff. split; apply Z.leb_le; lia.
    - apply Hdraw. }
  rewrite (loop_run_schedule rt ctx (validated config) _
             (fun d => Z.min (2 * Z.max d minD) maxD) (fun d => d <= maxD) Hnext
             _ _ _ _ Hrun).
  - cbn [MinDelay policy.as_Backoff fst backoff.MinDelay backoff.minDelay].
    etransitivity; [|apply (schedule_doubling minD maxD _ Hb 0%nat)].
    f_equal. change (2 ^ Z.of_nat 0) with 1. lia.
  - cbn [MinDelay policy.as_Backoff fst backoff.MinDelay backoff.minDelay]. lia.
Qed.

(** The doubling policy (100ms to 1s) under an operation that always
    fails, with a budget of six attempts: 100ms, 200ms, 400ms, 800ms,
    1s. *)
Lemma waits_double_witness :
  exists r w',
    Do scenes.background tt (mkConfig 6 (Some scenes.doubling) None None) scenes.broken
      (mkWorld 0%nat tt [])
    = Some (r, w') /\
    wait_delays (log w')
    = map (fun k => Z.min (2 ^ Z.of_nat k * (100 * backoff.Millisecond)) backoff.Second)
        (seq 0 (waits (log w'))).
Proof.
  assert (H : 0 <= 100 * backoff.Millisecond <= backoff.Second)
    by (split; vm_compute; discriminate).
  assert (Hdraw : forall s : nat,
            backoff.is_draw (fst (harness.constant_source backoff.f64_half s)))
    by (intros s; repeat split).
  exact (proj1 (waits_double _ _ string _ scenes.background ""%string tt
                  (mkConfig 6 (Some scenes.doubling) None None)
                  (harness.constant_source backoff.f64_half) backoff.cvt_oor_amd64
                  (100 * backoff.Millisecond) backoff.Second backoff.f64_zero
                  (fun e => e) (fun r _ => r) eq_refl H eq_refl eq_refl Hdraw eq_refl)
           scenes.broken 0%nat).
Defined.

End schedule_facts.

(** ** The value that [DoWithValue] returns *)

Module value_facts.

Import retry scenario runs retry_facts executor_facts run_facts run_grammar_facts.

Section Value.

Context {E Ctx T : Type}.
Variable rt : Runtime E Ctx.
Variable zero : T.
Variable ctx : Ctx.

Hypothesis done : ctx_done_contract rt ctx.

(** The iterations of a run are a function of their number. *)
Lemma iteration_functional (config : Config E) (b : Backoff E) (op : E -> option error * E)
    (e : E) (k : nat) :
  forall attempt delay e0 attempt' delay' e0',
    iteration rt ctx config b op e k attempt delay e0 ->
    iteration rt ctx config b op e k attempt' delay' e0' ->
    attempt' = attempt /\ delay' = delay /\ e0' = e0.
Proof.
  induction k as [|k IH]; intros attempt delay e0 attempt' delay' e0' H1 H2;
    inversion H1; subst; inversion H2; subst.
  - match goal with
    | Ha : MinDelay b e = (delay, e0), Hb : MinDelay b e = (delay', e0') |- _ =>
        rewrite Ha in Hb; injection Hb as <- <- end.
    repeat split.
  - match goal with
    | Ha : iteration _ _ _ _ _ _ k ?a ?d ?x, Hb : iteration _ _ _ _ _ _ k ?a' ?d' ?x' |- _ =>
        destruct (IH _ _ _ _ _ _ Ha Hb) as (-> & -> & ->) end.
    repeat match goal with
    | H : retried _ _ _ _ _ _ _ _ _ _ _ |- _ =>
        destruct H as (? & ? & (_ & ? & _) & ? & ?) end.
    repeat match goal with
    | Ha : ?f = ?x, Hb : ?f = ?y |- _ =>
        rewrite Ha in Hb; inversion Hb; subst; clear Hb end.
    repeat split.
Qed.

(** They are numbered without gaps. *)
Lemma iteration_before (config : Config E) (b : Backoff E) (op : E -> option error * E)
    (e : E) (k' : nat) :
  forall attempt' delay' e0' k,
    iteration rt ctx config b op e k' attempt' delay' e0' ->
    (k < k')%nat ->
    exists attempt delay e0 err next e1,
      iteration rt ctx config b op e k attempt delay e0 /\
      retried rt ctx config b op (uint_succ attempt) delay e0 err next e1.
Proof.
  induction k' as [|k' IH]; intros attempt' delay' e0' k H Hlt; [lia|].
  inversion H; subst.
  destruct (Nat.eq_dec k k') as [->|Hne].
  - do 6 eexists. split; eassumption.
  - eapply IH; [eassumption|lia].
Qed.

(** An iteration in which the operation succeeds is the last one. *)
Lemma iteration_last (config : Config E) (b : Backoff E) (op : E -> option error * E)
    (e : E) (k : nat) (attempt : N) (delay : Duration) (e0 e1 : E) :
  iteration rt ctx config b op e k attempt delay e0 ->
  op e0 = (None, e1) ->
  forall k' attempt' delay' e0',
    iteration rt ctx config b op e k' attempt' delay' e0' ->
    (k' <= k)%nat /\ (k' = k -> attempt' = attempt /\ delay' = delay /\ e0' = e0).
Proof.
  intros Hk Hop k' attempt' delay' e0' Hk'. split.
  - destruct (Nat.le_gt_cases k' k) as [Hle|Hgt]; [exact Hle|exfalso].
    destruct (iteration_before config b op e k' _ _ _ k Hk' Hgt)
      as (a & d & x & err & next & x1 & Hit & Hret).
    destruct (iteration_functional config b op e k _ _ _ _ _ _ Hk Hit) as (-> & -> & ->).
    destruct Hret as (? & ? & (_ & Hfail & _) & _).
    rewrite Hop in Hfail. discriminate Hfail.
  - intros ->. exact (iteration_functional config b op e k _ _ _ _ _ _ Hk Hk').
Qed.

Lemma loop_value (config : Config E) (b : Backoff E) (opv : E -> (T * option error) * E)
    (e : E) (fuel : nat) :
  forall k attempt delay w w',
    iteration rt ctx (validated config) b (erase opv) e k attempt delay (env w) ->
    op_calls (log w) = k ->
    doRetry_loop rt ctx (validated config) b (DoWithValue_operation rt ctx opv)
      fuel attempt delay w
    = Some (None, w') ->
    exists k' attempt' delay' e0,
      iteration rt ctx (validated config) b (erase opv) e k' attempt' delay' e0 /\
      ctx_Err rt ctx e0 = None /\
      opv e0 = ((fst (locals w'), None), env w') /\
      op_calls (log w') = S k'.
Proof.
  induction fuel as [|fuel IH]; intros k attempt delay w w' Hit Hcalls Hrun;
    cbn [doRetry_loop] in Hrun; [discriminate Hrun|].
  destruct (attempt <? MaxAttempts (validated config))%N eqn:Hbudget;
    cbn [negb] in Hrun; [|discriminate Hrun].
  destruct (ctx_Err rt ctx (env w)) as [ctxErr|] eqn:Hlive; [discriminate Hrun|].
  unfold DoWithValue_operation in Hrun. rewrite Hlive in Hrun.
  destruct (opv (env w)) as [[value [err|]] e1] eqn:Hop.
  2:{ injection Hrun as <-. exists k, attempt, delay, (env w).
      split; [exact Hit|]. split; [exact Hlive|]. split; [rewrite Hop; reflexivity|].
      cbn [log emit with_env with_locals env locals].
      unfold op_calls in *. rewrite count_app, Hcalls. cbn. lia. }
  unfold emit, with_env, with_locals in Hrun. cbn [env locals log] in Hrun.
  destruct (Is (Some err) Canceled || Is (Some err) DeadlineExceeded) eqn:Hsignal;
    [discriminate Hrun|].
  destruct (ctx_Err rt ctx e1) as [ctxErr|] eqn:Hlive1; [discriminate Hrun|].
  cbn [is_nil negb orb] in Hrun.
  change (IsRecoverable (validated config)) with (Some (classifier config)) in Hrun.
  cbv iota beta in Hrun.
  destruct (classifier config (Some err)) eqn:Hclass; cbn [negb] in Hrun;
    [|discriminate Hrun].
  destruct (MaxAttempts (validated config) <=? uint_succ attempt)%N eqn:Hnext;
    [discriminate Hrun|].
  assert (Hfail : fails_recoverably rt ctx (validated config) (erase opv) (env w) err e1).
  { repeat split.
    - exact Hlive.
    - unfold erase. rewrite Hop. reflexivity.
    - exact Hsignal.
    - exact Hlive1.
    - exact Hclass. }
  change (OnRetry (validated config)) with (OnRetry config) in Hrun.
  destruct (OnRetry config) as [onRetry|] eqn:Hcb; cbn [env locals log] in Hrun;
    match type of Hrun with context [ctx_select rt ctx delay ?x] =>
      destruct (ctx_select rt ctx delay x) as [timer e2] eqn:Hsel end;
    cbn [env locals log] in Hrun;
    (destruct timer;
     [destruct (Delay b delay e2) as [next e3] eqn:Hdelay; cbn [env locals log] in Hrun;
      refine (IH (S k) _ _ _ _ _ _ Hrun);
      [cbn [env];
       apply (iteration_next rt ctx (validated config) b (erase opv) e k attempt delay
                (env w) err next e3 Hit Hbudget Hnext);
       exists e1, e2; split; [exact Hfail|]; split; [|exact Hdelay];
       unfold notify; change (OnRetry (validated config)) with (OnRetry config);
       rewrite Hcb; exact Hsel
      |cbn [log]; unfold op_calls in *; rewrite !count_app, Hcalls; cbn; lia]
     |injection Hrun as Hnil _; exfalso; exact (done _ _ _ Hsel Hnil)]).
Qed.

End Value.

(** X22.  The value of [DoWithValue].  When [ctx.Done()] fires only on
    a context whose [Err()] is not nil, [DoWithValue] returns the zero
    value with every error.  With a nil error it returns the value of
    the last call of the operation in this run: the loop reached an
    iteration, after [k] retry cycles, in whose state the context was
    live and the operation returned this value with a nil error; the
    executor touched nothing afterwards; the trace counts [k + 1]
    calls of the operation; and the run has no later iteration, and no
    other state at this one. *)
Theorem DoWithValue_returns_the_last_value :
  forall (E Ctx T : Type) (rt : Runtime E Ctx) (zero : T) (ctx : Ctx) (config : Config E)
         (opv : E -> (T * option error) * E) (e : E),
    ctx_done_contract rt ctx ->
    exists v r w',
      DoWithValue rt zero ctx config opv (mkWorld e tt []) = Some ((v, r), w') /\
      (r <> None -> v = zero) /\
      (r = None ->
       exists b k attempt delay e0,
         Backoff_ config = Some b /\
         iteration rt ctx (validated config) b (erase opv) e k attempt delay e0 /\
         ctx_Err rt ctx e0 = None /\
         opv e0 = ((v, None), env w') /\
         op_calls (log w') = S k /\
         (forall k' attempt' delay' e0',
            iteration rt ctx (validated config) b (erase opv) e k' attempt' delay' e0' ->
            (k' <= k)%nat /\
            (k' = k -> attempt' = attempt /\ delay' = delay /\ e0' = e0))).
Proof.
  intros E Ctx T rt zero ctx config opv e Hdone.
  destruct (Backoff_ config) as [b|] eqn:Hb.
  - destruct (MinDelay b e) as [d0 e1] eqn:Hmin.
    destruct (doRetry_loop rt ctx (validated config) b (DoWithValue_operation rt ctx opv)
                (N.to_nat (MaxAttempts (validated config))) 0%N d0
                (mkWorld e1 (zero, None) ([] ++ [EvMinDelay d0]))) as [[r0 w0]|] eqn:Hloop.
    + pose proof (DoWithValue_run rt ctx zero config b opv (mkWorld e tt []) d0 e1 r0 w0
                    Hb Hmin Hloop) as HDo.
      destruct r0 as [err|].
      * eexists. eexists. eexists. split; [exact HDo|]. split; [reflexivity|].
        intros Hr. destruct (Is (Some err) ErrAllAttemptsFailed); discriminate Hr.
      * eexists. eexists. eexists. split; [exact HDo|].
        split; [intros H; contradiction H; reflexivity|]. intros _.
        destruct (loop_value rt ctx Hdone config b opv e _ 0%nat 0%N d0
                    (mkWorld e1 (zero, None) ([] ++ [EvMinDelay d0])) w0
                    (iteration_first rt ctx (validated config) b (erase opv) e d0 e1 Hmin)
                    eq_refl Hloop)
          as (k & attempt & delay & e0 & Hit & Hlive & Hop & Hcalls).
        exists b, k, attempt, delay, e0.
        split; [reflexivity|]. split; [exact Hit|]. split; [exact Hlive|].
        split; [exact Hop|]. split; [exact Hcalls|].
        apply (iteration_last rt ctx (validated config) b (erase opv) e k attempt delay e0
                 (env w0) Hit).
        unfold erase. rewrite Hop. reflexivity.
    + exfalso. eapply loop_returns; [|exact Hloop]. reflexivity.
  - eexists. eexists. eexists. split.
    + unfold DoWithValue. rewrite (validateConfig_nil config Hb). reflexivity.
    + split; [reflexivity|discriminate].
Qed.

(** The run of [TestDoWithValue] that succeeds at the third attempt. *)
Lemma DoWithValue_returns_the_last_value_witness :
  exists v r w',
    DoWithValue harness.runtime ""%string 0%nat (harness.config 3) (harness.flaky_value 3)
      (mkWorld harness.start tt [])
    = Some ((v, r), w') /\
    (r <> None -> v = ""%string) /\
    (r = None ->
     exists b k attempt delay e0,
       Backoff_ (harness.config 3) = Some b /\
       iteration harness.runtime 0%nat (validated (harness.config 3)) b
         (erase (harness.flaky_value 3)) harness.start k attempt delay e0 /\
       ctx_Err harness.runtime 0%nat e0 = None /\
       harness.flaky_value 3 e0 = ((v, None), env w') /\
       op_calls (log w') = S k /\
       (forall k' attempt' delay' e0',
          iteration harness.runtime 0%nat (validated (harness.config 3)) b
            (erase (harness.flaky_value 3)) harness.start k' attempt' delay' e0' ->
          (k' <= k)%nat /\
          (k' = k -> attempt' = attempt /\ delay' = delay /\ e0' = e0))).
Proof.
  exact (DoWithValue_returns_the_last_value _ _ string harness.runtime ""%string 0%nat
           (harness.config 3) (harness.flaky_value 3) harness.start
           executor_properties.harness_ctx_done_contract).
Defined.

Lemma flaky_value_run :
  exists w',
    DoWithValue harness.runtime ""%string 0%nat (harness.config 3) (harness.flaky_value 3)
      (mkWorld harness.start tt [])
    = Some (("eventual success"%string, None), w').
Proof. eexists. vm_compute. reflexivity. Qed.

End value_facts.

(** ** Where the error of a run comes from *)

Module provenance_facts.

Import retry scenario runs retry_facts executor_facts run_facts.
Import run_shape_facts run_grammar_facts executor_properties.

Section Provenance.

Context {E Ctx : Type}.
Variable rt : Runtime E Ctx.
Variable ctx : Ctx.
Variable config : Config E.

Lemma loop_run_provenance (b : Backoff E) (attempt : N) (delay : Duration) (tr : list event)
    (r : option error) :
  loop_run rt ctx config b attempt delay tr r ->
  r = None \/
  (exists e, ctx_Err rt ctx e = r) \/
  r = List.last (op_errors tr) None \/
  r = Some ErrAllAttemptsFailed.
Proof.
  intros H. induction H as
    [attempt delay Hge
    |attempt delay ctxErr Hlt Hentry
    |attempt delay Hlt
    |attempt delay err Hlt Hstop
    |attempt delay err Hlt Hlast Hretry
    |attempt delay err ctxErr Hlt Hretry Hwait
    |attempt delay err ctxErr next tr r Hlt Hretry Hnext Hrun IH].
  - right. right. right. reflexivity.
  - right. left. destruct Hentry as [e He]. exists e. exact He.
  - left. reflexivity.
  - right. right. left. reflexivity.
  - right. right. right. reflexivity.
  - right. left. destruct Hwait as (e & e' & _ & He). exists e'. exact He.
  - destruct IH as [IH | [IH | [IH | IH]]]; [left; exact IH|right; left; exact IH| |
                                              right; right; right; exact IH].
    assert (Herrs : op_errors (EvOp None (Some err) :: announce config (attempt + 1) err delay
                                 ++ [EvWait delay true ctxErr; EvDelay delay next] ++ tr)
                    = Some err :: op_errors tr).
    { unfold announce. destruct (OnRetry config); reflexivity. }
    rewrite Herrs. destruct (op_errors tr) as [|x l] eqn:Hl.
    + left. exact IH.
    + right. right. left. exact IH.
Qed.

End Provenance.

Lemma executor_run_provenance {E Ctx : Type} (rt : Runtime E Ctx) (ctx : Ctx)
    (config : Config E) (wrap : error -> option error -> error) (e : E)
    (r : option error) (tr : list event) :
  executor_run rt ctx config wrap e r tr ->
  r = None \/
  r = Some (errorString "backoff strategy is required") \/
  (exists e0, ctx_Err rt ctx e0 = r) \/
  r = List.last (op_errors tr) None \/
  (exists lastErr, r = Some (wrap ErrAllAttemptsFailed lastErr)).
Proof.
  unfold executor_run. destruct (Backoff_ config) as [b0|].
  - intros (tr' & r0 & -> & Hrun & ->). cbn [op_errors].
    destruct (Is r0 ErrAllAttemptsFailed) eqn:Hs.
    + right. right. right. right. eexists. reflexivity.
    + destruct (loop_run_provenance rt ctx (validated config) b0 _ _ _ _ Hrun) as [H | [H | [H | H]]]; auto.
      subst r0. discriminate Hs.
  - intros [-> _]. right. left. reflexivity.
Qed.

(** X23.  Where the error comes from.  The error that a run of [Do] or
    of [DoWithValue] returns is nil, or the error for a missing policy,
    or what [ctx.Err()] returned, or the error of the last call of the
    operation, or an error made by [fmt.Errorf] around
    [ErrAllAttemptsFailed]; the executor returns no other error. *)
Theorem error_provenance :
  forall (E Ctx T : Type) (rt : Runtime E Ctx) (zero : T) (ctx : Ctx) (config : Config E),
    (MaxAttempts config < 2 ^ 64)%N ->
    every_run rt zero ctx config
      (fun r tr =>
         r = None \/
         r = Some (errorString "backoff strategy is required") \/
         (exists e, ctx_Err rt ctx e = r) \/
         r = List.last (op_errors tr) None \/
         (exists lastErr,
            r = Some (Errorf_w_w ErrAllAttemptsFailed lastErr) \/
            r = Some (Errorf_w_v ErrAllAttemptsFailed lastErr))).
Proof.
  intros E Ctx T rt zero ctx config Huint. split.
  - intros op e.
    destruct (Do_executor_run rt ctx config Huint op e) as (r & w' & HDo & Hrun).
    exists r, w'. split; [exact HDo|].
    destruct (executor_run_provenance rt ctx config _ e r _ Hrun)
      as [H | [H | [H | [H | [lastErr H]]]]]; auto.
    right. right. right. right. exists lastErr. left. exact H.
  - intros opv e.
    destruct (DoWithValue_executor_run rt ctx config Huint zero opv e)
      as (v & r & w' & HDo & Hrun & _).
    exists v, r, w'. split; [exact HDo|].
    destruct (executor_run_provenance rt ctx config _ e r _ Hrun)
      as [H | [H | [H | [H | [lastErr H]]]]]; auto.
    right. right. right. right. exists lastErr. right. exact H.
Qed.

(** The run of [retry_test.go] that fails with an unrecoverable
    error. *)
Lemma error_provenance_witness :
  exists r w',
    Do harness.runtime 0%nat (harness.config 5) (harness.failing harness.critical)
      (mkWorld harness.start tt [])
    = Some (r, w') /\
    (r = None \/
     r = Some (errorString "backoff strategy is required") \/
     (exists e, ctx_Err harness.runtime 0%nat e = r) \/
     r = List.last (op_errors (log w')) None \/
     (exists lastErr,
        r = Some (Errorf_w_w ErrAllAttemptsFailed lastErr) \/
        r = Some (Errorf_w_v ErrAllAttemptsFailed lastErr))).
Proof.
  exact (proj1 (error_provenance _ _ string harness.runtime ""%string 0%nat
                  (harness.config 5) eq_refl)
           (harness.failing harness.critical) harness.start).
Defined.

End provenance_facts.
